(** * Streaming event pipeline of the sandboxed chat client

    A shallow embedding of the caller-side code of the repository
    (frontend/src/hooks/useWebSocket.ts and the session hook) together with
    the orchestrator-side protocol pieces that the specification describes,
    and the properties proved about them. *)

From stdpp Require Import gmap strings list.
From Stdlib Require Import ZArith Lia Ascii Sorted.

Set Warnings "-register-all".

(** Membership of a literal string in a literal list of strings. *)
Ltac not_in_literal :=
  let H := fresh "Hin" in
  intros H;
  repeat (apply elem_of_cons in H as [H | H]; [discriminate H |]);
  by apply elem_of_nil in H.

(** ** JSON values, as they travel over the WebSocket *)

Inductive Json : Type :=
  | JNull
  | JBool (b : bool)
  | JNum (n : Z)
  | JStr (s : string)
  | JArr (items : list Json)
  | JObj (fields : list (string * Json)).

(** Property access [obj.key]; [None] stands for [undefined]. *)
Fixpoint assoc_get (key : string) (fields : list (string * Json)) : option Json :=
  match fields with
  | [] => None
  | (k, v) :: rest => if String.eqb k key then Some v else assoc_get key rest
  end.

Definition json_get (key : string) (j : Json) : option Json :=
  match j with
  | JObj fields => assoc_get key fields
  | _ => None
  end.

(** The line feed character and the two-line-feed separator ['\n\n']. *)
Definition LF : string := String (Ascii.ascii_of_nat 10) EmptyString.
Definition LFLF : string := LF +:+ LF.

(** JavaScript's [x || fallback] on an optional string: [undefined] and the
    empty string are both falsy. *)
Definition str_or (x : option string) (fallback : string) : string :=
  match x with
  | Some s => if String.eqb s EmptyString then fallback else s
  | None => fallback
  end.

(** Truthiness of a string held in a ref or variable. *)
Definition truthy (s : string) : bool := negb (String.eqb s EmptyString).

(** ** Data model of useWebSocket.ts *)

Inductive ToolStatus := running | completed | error.

Module ToolCall.
Record t := mk {
  id : string;
  tool : string;
  input : Json;
  status : ToolStatus;
  result : option string;
  isError : option bool;
}.
End ToolCall.

Inductive BlockType := text | tool_call.

Module ContentBlock.
Record t := mk {
  type : BlockType;
  text : option string;
  toolCall : option ToolCall.t;
}.
End ContentBlock.

Inductive Role := user | assistant.

Module Message.
Record t := mk {
  id : string;
  role : Role;
  content : string;
  contentBlocks : option (list ContentBlock.t);
  timestamp : string;
  isStreaming : option bool;
  toolCalls : option (list ToolCall.t);
  fileMentions : option (list (string * string));
}.
End Message.

(** The [type] union of [StreamEvent], in the order of its declaration. *)
Inductive StreamEventType :=
  | Tsandbox_status | Tinit | Ttext | Ttool_use | Ttool_result
  | Tresult | Tdone | Terror | Tinterrupted | Tstop_acknowledged.

Definition type_name (ty : StreamEventType) : string :=
  match ty with
  | Tsandbox_status => "sandbox_status"
  | Tinit => "init"
  | Ttext => "text"
  | Ttool_use => "tool_use"
  | Ttool_result => "tool_result"
  | Tresult => "result"
  | Tdone => "done"
  | Terror => "error"
  | Tinterrupted => "interrupted"
  | Tstop_acknowledged => "stop_acknowledged"
  end.

(** The numeric fields are only copied by the hook; they are carried as
    integers. *)
Module StreamEvent.
Record t := mk {
  type : StreamEventType;
  content : option string;
  tool : option string;
  input : option Json;
  tool_use_id : option string;
  status : option string;
  message : option string;
  is_new : option bool;
  session_id : option string;
  is_error : option bool;
  duration_ms : option Z;
  num_turns : option Z;
  total_cost_usd : option Z;
  reason : option string;
  result : option Json;
}.

(** An event that carries only its [type]. *)
Definition bare (ty : StreamEventType) : t :=
  mk ty None None None None None None None None None None None None None None.
End StreamEvent.

Module StreamingStatus.
Record t := mk {
  isActive : bool;
  currentTool : option string;
  toolInput : option Json;
}.
End StreamingStatus.

Module ResultMetadata.
Record t := mk {
  durationMs : Z;
  numTurns : Z;
  totalCostUsd : option Z;
}.
End ResultMetadata.

(** The nine event types that the interface description of the protocol
    enumerates. *)
Definition protocol_event_types : list string :=
  ["init"; "text"; "tool_use"; "tool_result"; "result"; "done"; "error";
   "interrupted"; "stop_acknowledged"].

(** The ten members of the [StreamEvent.type] union. *)
Definition stream_event_types : list string :=
  "sandbox_status" :: protocol_event_types.

(** ** State of the [useWebSocket] hook

    React state ([useState]) and refs ([useRef]) of one hook instance, the
    socket held in [wsRef] (by its [readyState]), and the effects the hook has
    on the outside: the frames handed to [ws.send] and the console lines.
    [drawn] counts the calls made to [crypto.randomUUID] so far; the source of
    the identifiers is passed to the handlers as [uuid]. State updaters are
    applied in the order in which they are queued. *)

Inductive ReadyState := CONNECTING | OPEN | CLOSING | CLOSED.

Module Hook.
Record t := mk {
  messages : list Message.t;
  isConnected : bool;
  isLoading : bool;
  streamingStatus : StreamingStatus.t;
  timerRunning : bool;
  resultMetadata : option ResultMetadata.t;
  wsRef : option ReadyState;
  streamingMessageIdRef : option string;
  accumulatedContentRef : string;
  toolCallsRef : list ToolCall.t;
  contentBlocksRef : list ContentBlock.t;
  sent : list Json;
  console : list string;
  drawn : nat;
}.

Definition setMessages (f : list Message.t → list Message.t) (s : t) : t :=
  mk (f (messages s)) (isConnected s) (isLoading s) (streamingStatus s)
     (timerRunning s) (resultMetadata s) (wsRef s) (streamingMessageIdRef s)
     (accumulatedContentRef s) (toolCallsRef s) (contentBlocksRef s)
     (sent s) (console s) (drawn s).

Definition setIsConnected (b : bool) (s : t) : t :=
  mk (messages s) b (isLoading s) (streamingStatus s)
     (timerRunning s) (resultMetadata s) (wsRef s) (streamingMessageIdRef s)
     (accumulatedContentRef s) (toolCallsRef s) (contentBlocksRef s)
     (sent s) (console s) (drawn s).

Definition setIsLoading (b : bool) (s : t) : t :=
  mk (messages s) (isConnected s) b (streamingStatus s)
     (timerRunning s) (resultMetadata s) (wsRef s) (streamingMessageIdRef s)
     (accumulatedContentRef s) (toolCallsRef s) (contentBlocksRef s)
     (sent s) (console s) (drawn s).

Definition setStreamingStatus (f : StreamingStatus.t → StreamingStatus.t)
    (s : t) : t :=
  mk (messages s) (isConnected s) (isLoading s) (f (streamingStatus s))
     (timerRunning s) (resultMetadata s) (wsRef s) (streamingMessageIdRef s)
     (accumulatedContentRef s) (toolCallsRef s) (contentBlocksRef s)
     (sent s) (console s) (drawn s).

Definition setTimerRunning (b : bool) (s : t) : t :=
  mk (messages s) (isConnected s) (isLoading s) (streamingStatus s)
     b (resultMetadata s) (wsRef s) (streamingMessageIdRef s)
     (accumulatedContentRef s) (toolCallsRef s) (contentBlocksRef s)
     (sent s) (console s) (drawn s).

Definition setResultMetadata (r : option ResultMetadata.t) (s : t) : t :=
  mk (messages s) (isConnected s) (isLoading s) (streamingStatus s)
     (timerRunning s) r (wsRef s) (streamingMessageIdRef s)
     (accumulatedContentRef s) (toolCallsRef s) (contentBlocksRef s)
     (sent s) (console s) (drawn s).

Definition setWs (w : option ReadyState) (s : t) : t :=
  mk (messages s) (isConnected s) (isLoading s) (streamingStatus s)
     (timerRunning s) (resultMetadata s) w (streamingMessageIdRef s)
     (accumulatedContentRef s) (toolCallsRef s) (contentBlocksRef s)
     (sent s) (console s) (drawn s).

Definition setStreamingMessageId (i : option string) (s : t) : t :=
  mk (messages s) (isConnected s) (isLoading s) (streamingStatus s)
     (timerRunning s) (resultMetadata s) (wsRef s) i
     (accumulatedContentRef s) (toolCallsRef s) (contentBlocksRef s)
     (sent s) (console s) (drawn s).

Definition setAccumulatedContent (c : string) (s : t) : t :=
  mk (messages s) (isConnected s) (isLoading s) (streamingStatus s)
     (timerRunning s) (resultMetadata s) (wsRef s) (streamingMessageIdRef s)
     c (toolCallsRef s) (contentBlocksRef s)
     (sent s) (console s) (drawn s).

Definition setToolCalls (l : list ToolCall.t) (s : t) : t :=
  mk (messages s) (isConnected s) (isLoading s) (streamingStatus s)
     (timerRunning s) (resultMetadata s) (wsRef s) (streamingMessageIdRef s)
     (accumulatedContentRef s) l (contentBlocksRef s)
     (sent s) (console s) (drawn s).

Definition setContentBlocks (l : list ContentBlock.t) (s : t) : t :=
  mk (messages s) (isConnected s) (isLoading s) (streamingStatus s)
     (timerRunning s) (resultMetadata s) (wsRef s) (streamingMessageIdRef s)
     (accumulatedContentRef s) (toolCallsRef s) l
     (sent s) (console s) (drawn s).

(** [ws.send(frame)] *)
Definition send (frame : Json) (s : t) : t :=
  mk (messages s) (isConnected s) (isLoading s) (streamingStatus s)
     (timerRunning s) (resultMetadata s) (wsRef s) (streamingMessageIdRef s)
     (accumulatedContentRef s) (toolCallsRef s) (contentBlocksRef s)
     (sent s ++ [frame]) (console s) (drawn s).

(** [console.log] and [console.error], by their first argument *)
Definition log (line : string) (s : t) : t :=
  mk (messages s) (isConnected s) (isLoading s) (streamingStatus s)
     (timerRunning s) (resultMetadata s) (wsRef s) (streamingMessageIdRef s)
     (accumulatedContentRef s) (toolCallsRef s) (contentBlocksRef s)
     (sent s) (console s ++ [line]) (drawn s).

(** One call of [crypto.randomUUID] *)
Definition draw (s : t) : t :=
  mk (messages s) (isConnected s) (isLoading s) (streamingStatus s)
     (timerRunning s) (resultMetadata s) (wsRef s) (streamingMessageIdRef s)
     (accumulatedContentRef s) (toolCallsRef s) (contentBlocksRef s)
     (sent s) (console s) (S (drawn s)).

(** The state of a freshly mounted hook, before the socket is created. *)
Definition initial : t :=
  mk [] false false (StreamingStatus.mk false None None) false None None
     None EmptyString [] [] [] [] 0.
End Hook.

(** The parsed payload of one WebSocket frame ([JSON.parse(event.data)]),
    by the branch of [ws.onmessage] that it selects. *)
Inductive WsData :=
  | DataStream (event : StreamEvent.t) (timestamp : string)
  | DataComplete (role : Role) (content : string) (timestamp : string)
  | DataLegacy (role : Role) (content : string) (timestamp : string)
  | DataOther.

(** [parseTimestamp]: a [Date] is represented by the string it is built
    from; a timestamp without zone information gets a ['Z']. *)
Definition includes_from (n : nat) (pat s : string) : bool :=
  match String.index n pat s with Some _ => true | None => false end.

Definition parseTimestamp (timestamp : string) : string :=
  if negb (includes_from 0 "+" timestamp)
     && negb (includes_from 0 "Z" timestamp)
     && negb (includes_from 10 "-" timestamp)
  then timestamp +:+ "Z"
  else timestamp.

(** ** The stream branch of [ws.onmessage] *)

Definition inactive : StreamingStatus.t := StreamingStatus.mk false None None.

(** Truthiness of an optional string: [null], [undefined] and the empty
    string are falsy. *)
Definition ref_truthy (r : option string) : bool :=
  match r with Some i => truthy i | None => false end.

Definition placeholder (mid timestamp : string) : Message.t :=
  Message.mk mid assistant EmptyString (Some []) (parseTimestamp timestamp)
             (Some true) (Some []) None.

(** [if (!streamingMessageIdRef.current) { ... }]: the first event of a
    stream creates the streaming placeholder and resets the accumulators. *)
Definition startStreamingMessage (uuid : nat → string) (timestamp : string)
    (s : Hook.t) : Hook.t :=
  if ref_truthy (Hook.streamingMessageIdRef s) then s
  else
    let mid := uuid (Hook.drawn s) in
    Hook.setMessages (λ prev, prev ++ [placeholder mid timestamp])
      (Hook.setContentBlocks []
        (Hook.setToolCalls []
          (Hook.setAccumulatedContent EmptyString
            (Hook.setStreamingMessageId (Some mid) (Hook.draw s))))).

(** [msg.id === currentMessageId], with [currentMessageId] possibly null. *)
Definition is_current (currentMessageId : option string) (msg : Message.t) : bool :=
  bool_decide (Some (Message.id msg) = currentMessageId).

Definition withBlocks (tcs : list ToolCall.t) (bs : list ContentBlock.t)
    (msg : Message.t) : Message.t :=
  Message.mk (Message.id msg) (Message.role msg) (Message.content msg)
             (Some bs) (Message.timestamp msg) (Message.isStreaming msg)
             (Some tcs) (Message.fileMentions msg).

Definition withContent (c : string) (bs : list ContentBlock.t)
    (msg : Message.t) : Message.t :=
  Message.mk (Message.id msg) (Message.role msg) c
             (Some bs) (Message.timestamp msg) (Message.isStreaming msg)
             (Message.toolCalls msg) (Message.fileMentions msg).

(** [updateMessageContentBlocks] *)
Definition updateMessageContentBlocks (currentMessageId : option string)
    (s : Hook.t) : Hook.t :=
  Hook.setMessages
    (map (λ msg, if is_current currentMessageId msg
                 then withBlocks (Hook.toolCallsRef s) (Hook.contentBlocksRef s) msg
                 else msg)) s.

(** The update of the message's text used by the [text] and [interrupted]
    cases. *)
Definition updateMessageContent (currentMessageId : option string)
    (s : Hook.t) : Hook.t :=
  Hook.setMessages
    (map (λ msg, if is_current currentMessageId msg
                 then withContent (Hook.accumulatedContentRef s)
                                  (Hook.contentBlocksRef s) msg
                 else msg)) s.

(** Appending a piece to [accumulatedContentRef.current]: the separator is
    added when the accumulated text is non-empty. *)
Definition accumulate (acc piece : string) : string :=
  if truthy acc then acc +:+ LFLF +:+ piece else piece.

Definition STOPPED : string := "[Stopped by user]".

Definition DQ : string := String (Ascii.ascii_of_nat 34) EmptyString.
Definition LOG_INTERRUPTED : string :=
  "[Stop] Received " +:+ DQ +:+ "interrupted" +:+ DQ
    +:+ " event from agent - generation stopped".

(** [x || {}] on the optional [input] object. *)
Definition json_truthy (j : Json) : bool :=
  match j with
  | JNull => false
  | JBool b => b
  | JNum n => negb (Z.eqb n 0)
  | JStr s => truthy s
  | JArr _ | JObj _ => true
  end.

Definition input_or_empty (x : option Json) : Json :=
  match x with
  | Some j => if json_truthy j then j else JObj []
  | None => JObj []
  end.

(** [streamEvent.tool_use_id || crypto.randomUUID()]: the identifier is drawn
    only when the event carries none. *)
Definition needs_uuid (e : StreamEvent.t) : bool :=
  negb (ref_truthy (StreamEvent.tool_use_id e)).

Definition newToolCall (uuid : nat → string) (n : nat) (e : StreamEvent.t)
    : ToolCall.t :=
  ToolCall.mk
    (if needs_uuid e then uuid n else default EmptyString (StreamEvent.tool_use_id e))
    (str_or (StreamEvent.tool e) "unknown")
    (input_or_empty (StreamEvent.input e))
    running None None.

(** The object written by the [tool_result] case over the matching call. *)
Definition settle (e : StreamEvent.t) (tc : ToolCall.t) : ToolCall.t :=
  ToolCall.mk (ToolCall.id tc) (ToolCall.tool tc) (ToolCall.input tc)
    (if default false (StreamEvent.is_error e) then error else completed)
    (StreamEvent.content e)
    (StreamEvent.is_error e).

Definition call_matches (toolUseId : option string) (tc : ToolCall.t) : Prop :=
  Some (ToolCall.id tc) = toolUseId.

Definition block_matches (toolUseId : option string) (b : ContentBlock.t) : Prop :=
  ContentBlock.type b = tool_call
  ∧ ToolCall.id <$> ContentBlock.toolCall b = toolUseId.

#[global] Instance call_matches_dec u tc : Decision (call_matches u tc).
Proof. unfold call_matches. apply _. Defined.

#[global] Instance BlockType_eq_dec : EqDecision BlockType.
Proof. solve_decision. Defined.

#[global] Instance block_matches_dec u b : Decision (block_matches u b).
Proof. unfold block_matches. apply _. Defined.

Definition handleStreamEvent (uuid : nat → string) (e : StreamEvent.t)
    (s : Hook.t) : Hook.t :=
  let currentMessageId := Hook.streamingMessageIdRef s in
  match StreamEvent.type e with
  | Ttext =>
      let newText := default EmptyString (StreamEvent.content e) in
      let s1 := Hook.setAccumulatedContent
                  (accumulate (Hook.accumulatedContentRef s) newText) s in
      let s2 := Hook.setContentBlocks
                  (Hook.contentBlocksRef s1
                     ++ [ContentBlock.mk text (Some newText) None]) s1 in
      let s3 := updateMessageContent currentMessageId s2 in
      Hook.setStreamingStatus (λ _, StreamingStatus.mk true None None) s3
  | Ttool_use =>
      let toolCall := newToolCall uuid (Hook.drawn s) e in
      let s0 := if needs_uuid e then Hook.draw s else s in
      let s1 := Hook.setToolCalls (Hook.toolCallsRef s0 ++ [toolCall]) s0 in
      let s2 := Hook.setContentBlocks
                  (Hook.contentBlocksRef s1
                     ++ [ContentBlock.mk tool_call None (Some toolCall)]) s1 in
      let s3 := updateMessageContentBlocks currentMessageId s2 in
      Hook.setStreamingStatus
        (λ _, StreamingStatus.mk true (StreamEvent.tool e) (StreamEvent.input e))
        s3
  | Ttool_result =>
      let toolUseId := StreamEvent.tool_use_id e in
      let s' :=
        match list_find (call_matches toolUseId) (Hook.toolCallsRef s) with
        | Some (toolIndex, tc) =>
            let updated := settle e tc in
            let s1 := Hook.setToolCalls
                        (<[toolIndex := updated]> (Hook.toolCallsRef s)) s in
            let s2 :=
              match list_find (block_matches toolUseId) (Hook.contentBlocksRef s1) with
              | Some (blockIndex, b) =>
                  Hook.setContentBlocks
                    (<[blockIndex :=
                         ContentBlock.mk (ContentBlock.type b)
                                         (ContentBlock.text b) (Some updated)]>
                       (Hook.contentBlocksRef s1)) s1
              | None => s1
              end in
            updateMessageContentBlocks currentMessageId s2
        | None => s
        end in
      Hook.setStreamingStatus
        (λ prev, StreamingStatus.mk (StreamingStatus.isActive prev) None None) s'
  | Tresult =>
      Hook.setResultMetadata
        (Some (ResultMetadata.mk (default 0%Z (StreamEvent.duration_ms e))
                                 (default 0%Z (StreamEvent.num_turns e))
                                 (StreamEvent.total_cost_usd e))) s
  | Tinterrupted =>
      let s0 := Hook.log LOG_INTERRUPTED s in
      let s1 := Hook.setContentBlocks
                  (Hook.contentBlocksRef s0
                     ++ [ContentBlock.mk text (Some (LFLF +:+ STOPPED)) None]) s0 in
      let s2 := Hook.setAccumulatedContent
                  (accumulate (Hook.accumulatedContentRef s1) STOPPED) s1 in
      let s3 := updateMessageContent currentMessageId s2 in
      Hook.setStreamingStatus (λ _, inactive) s3
  | Tstop_acknowledged =>
      Hook.log "[Stop] Backend acknowledged stop request:" s
  | Terror =>
      Hook.setStreamingStatus (λ _, inactive) (Hook.log "Stream error:" s)
  | Tdone =>
      Hook.setStreamingStatus (λ _, inactive) s
  | Tsandbox_status | Tinit => s
  end.

(** [data.type === 'stream']: the placeholder is created if needed, then the
    event is handled. *)
Definition onStream (uuid : nat → string) (e : StreamEvent.t)
    (timestamp : string) (s : Hook.t) : Hook.t :=
  handleStreamEvent uuid e (startStreamingMessage uuid timestamp s).

(** The reset of the streaming refs shared by [complete] and [sendMessage]. *)
Definition resetStreamingRefs (s : Hook.t) : Hook.t :=
  Hook.setContentBlocks []
    (Hook.setToolCalls []
      (Hook.setAccumulatedContent EmptyString
        (Hook.setStreamingMessageId None s))).

Definition stopTimer (s : Hook.t) : Hook.t := Hook.setTimerRunning false s.
Definition startTimer (s : Hook.t) : Hook.t := Hook.setTimerRunning true s.

(** [data.type === 'complete'] *)
Definition onComplete (uuid : nat → string) (role : Role)
    (content timestamp : string) (s : Hook.t) : Hook.t :=
  let currentMessageId := Hook.streamingMessageIdRef s in
  let finalToolCalls := Hook.toolCallsRef s in
  let finalContentBlocks := Hook.contentBlocksRef s in
  let s1 :=
    if ref_truthy currentMessageId then
      Hook.setMessages
        (map (λ msg, if is_current currentMessageId msg
                     then Message.mk (Message.id msg) (Message.role msg) content
                            (Some finalContentBlocks) (Message.timestamp msg)
                            (Some false) (Some finalToolCalls)
                            (Message.fileMentions msg)
                     else msg)) s
    else
      Hook.setMessages
        (λ prev, prev ++ [Message.mk (uuid (Hook.drawn s)) role content
                            (Some finalContentBlocks) (parseTimestamp timestamp)
                            (Some false) (Some finalToolCalls) None])
        (Hook.draw s) in
  stopTimer
    (Hook.setIsLoading false
      (Hook.setStreamingStatus (λ _, inactive) (resetStreamingRefs s1))).

(** The legacy branch: [data.role] is set and [data.type] is neither
    ['stream'] nor ['complete']. *)
Definition onLegacy (uuid : nat → string) (role : Role)
    (content timestamp : string) (s : Hook.t) : Hook.t :=
  stopTimer
    (Hook.setIsLoading false
      (Hook.setMessages
         (λ prev, prev ++ [Message.mk (uuid (Hook.drawn s)) role content None
                             (parseTimestamp timestamp) None None None])
         (Hook.draw s))).

(** [ws.onmessage] *)
Definition onmessage (uuid : nat → string) (data : WsData) (s : Hook.t) : Hook.t :=
  match data with
  | DataStream e timestamp => onStream uuid e timestamp s
  | DataComplete role content timestamp => onComplete uuid role content timestamp s
  | DataLegacy role content timestamp => onLegacy uuid role content timestamp s
  | DataOther => s
  end.

(** [wsRef.current = createChatWebSocket(sessionId)]: the socket is created
    and is connecting. *)
Definition connect (s : Hook.t) : Hook.t := Hook.setWs (Some CONNECTING) s.

(** [ws.onopen], [ws.onclose], [ws.onerror]; the socket is open from
    [onopen] on and closed from [onclose] on. *)
Definition onopen (s : Hook.t) : Hook.t :=
  Hook.log "WebSocket connected"
    (Hook.setIsConnected true (Hook.setWs (Some OPEN) s)).

Definition onclose (s : Hook.t) : Hook.t :=
  Hook.log "WebSocket disconnected"
    (Hook.setIsConnected false (Hook.setWs (Some CLOSED) s)).

Definition onerror (s : Hook.t) : Hook.t :=
  stopTimer
    (Hook.setStreamingStatus (λ _, inactive)
      (Hook.setIsLoading false (Hook.log "WebSocket error:" s))).

(** [!wsRef.current || wsRef.current.readyState !== WebSocket.OPEN] *)
Definition not_connected (s : Hook.t) : bool :=
  match Hook.wsRef s with
  | Some OPEN => false
  | _ => true
  end.

(** The frame built by [sendMessage]: [file_ids] is present only when file
    mentions are given. *)
Definition chat_payload (content : string)
    (fileMentions : option (list (string * string))) : Json :=
  match fileMentions with
  | Some (m :: ms) =>
      JObj [("message", JStr content);
            ("file_ids", JArr (map (λ m, JStr (fst m)) (m :: ms)))]
  | _ => JObj [("message", JStr content)]
  end.

Definition mentions_or_undefined (fileMentions : option (list (string * string)))
    : option (list (string * string)) :=
  match fileMentions with
  | Some (m :: ms) => Some (m :: ms)
  | _ => None
  end.

(** The message object that [sendMessage] adds for the user. *)
Definition userMessage (id now content : string)
    (fileMentions : option (list (string * string))) : Message.t :=
  Message.mk id user content None now None None
             (mentions_or_undefined fileMentions).

(** [sendMessage(content, fileMentions)]; [now] is the reading of the clock
    taken by [new Date()]. *)
Definition sendMessage (uuid : nat → string) (now : string) (content : string)
    (fileMentions : option (list (string * string))) (s : Hook.t) : Hook.t :=
  if not_connected s then Hook.log "WebSocket not connected" s
  else
    let s1 := resetStreamingRefs s in
    let s2 := Hook.setStreamingStatus (λ _, inactive)
                (Hook.setResultMetadata None s1) in
    let s3 := startTimer s2 in
    let message := userMessage (uuid (Hook.drawn s3)) now content fileMentions in
    let s4 := Hook.setMessages (λ prev, prev ++ [message]) (Hook.draw s3) in
    let s5 := Hook.setIsLoading true s4 in
    Hook.send (chat_payload content fileMentions) s5.

(** The frame built by [stopGeneration]: [{ type: 'stop' }]. *)
Definition stop_payload : Json := JObj [("type", JStr "stop")].

(** [stopGeneration()] *)
Definition stopGeneration (s : Hook.t) : Hook.t :=
  if not_connected s then Hook.log "WebSocket not connected" s
  else
    Hook.send stop_payload
      (Hook.log "[Stop] Sending stop request to backend..." s).

(** Folding a sequence of stream events, all with the same frame timestamp
    policy, into the hook state. *)
Definition runStream (uuid : nat → string) (events : list (StreamEvent.t * string))
    (s : Hook.t) : Hook.t :=
  foldl (λ st et, onStream uuid et.1 et.2 st) s events.

(** ** The session hook ([useSession])

    The file operations of the session hook.  A call is modelled as one
    transition: the handler computes the new count from the [session] it
    has captured and applies its updaters when the request has settled.  The
    outcome of the request to the backend is an argument of the
    transition.  [FileInfo] is
    declared in lib/api; the hook reads only its [id]. *)

Module Session.
Record t := mk {
  id : string;
  name : string;
  file_count : Z;
}.

Definition with_file_count (n : Z) (x : t) : t := mk (id x) (name x) n.
End Session.

Module FileInfo.
Record t := mk {
  id : string;
  name : string;
}.
End FileInfo.

Module SessionHook.
Record t := mk {
  sessions : list Session.t;
  session : option Session.t;
  files : list FileInfo.t;
  error : option string;
  warmedSessions : gset string;
}.

(** The updaters shared by [handleUploadFiles] and [handleDeleteFile]:
    the entry of the session list with the current id, and the current
    session itself, get the new count. *)
Definition setFileCount (currentId : string) (newFileCount : Z) (s : t)
    (files' : list FileInfo.t) (warmed' : gset string) : t :=
  mk (map (λ x, if String.eqb (Session.id x) currentId
                then Session.with_file_count newFileCount x else x)
          (sessions s))
     (Session.with_file_count newFileCount <$> session s)
     files' (error s) warmed'.

Definition setError (msg : string) (s : t) : t :=
  mk (sessions s) (session s) (files s) (Some msg) (warmedSessions s).

(** [handleUploadFiles] as a closure: [captured] is the [session] of the
    render in which the callback was created, from which the new count is
    computed; the updaters run on the state at hand.  [uploaded] is the
    list returned by the backend, [None] when the request fails. *)
Definition handleUploadFiles_closure (captured : option Session.t)
    (uploaded : option (list FileInfo.t)) (s : t) : t :=
  match captured with
  | None => s
  | Some cur =>
      match uploaded with
      | Some up =>
          let newFileCount := (Session.file_count cur + Z.of_nat (length up))%Z in
          setFileCount (Session.id cur) newFileCount s (files s ++ up)
                       (warmedSessions s ∖ {[Session.id cur]})
      | None => setError "Failed to upload files" s
      end
  end.

(** [handleDeleteFile] as a closure; [ok] tells whether the backend
    accepted the deletion. *)
Definition handleDeleteFile_closure (captured : option Session.t)
    (fileId : string) (ok : bool) (s : t) : t :=
  match captured with
  | None => s
  | Some cur =>
      if ok then
        let newFileCount := Z.max 0 (Session.file_count cur - 1) in
        setFileCount (Session.id cur) newFileCount s
                     (filter (λ f, FileInfo.id f ≠ fileId) (files s))
                     (warmedSessions s)
      else setError "Failed to delete file" s
  end.

(** The handlers of the current render: the closure holds the current
    session. *)
Definition handleUploadFiles (uploaded : option (list FileInfo.t)) (s : t) : t :=
  handleUploadFiles_closure (session s) uploaded s.

Definition handleDeleteFile (fileId : string) (ok : bool) (s : t) : t :=
  handleDeleteFile_closure (session s) fileId ok s.

Inductive FileOp :=
  | Upload (uploaded : option (list FileInfo.t))
  | Delete (fileId : string) (ok : bool).

Definition step (op : FileOp) (s : t) : t :=
  match op with
  | Upload uploaded => handleUploadFiles uploaded s
  | Delete fileId ok => handleDeleteFile fileId ok s
  end.

Definition run (ops : list FileOp) (s : t) : t :=
  foldl (λ st op, step op st) s ops.

(** The count shown for the current session, if there is one. *)
Definition current_file_count (s : t) : option Z :=
  Session.file_count <$> session s.

(** No count is negative: that of the current session and those of the
    session list. *)
Definition counts_ok (s : t) : Prop :=
  (∀ cur, session s = Some cur → (0 ≤ Session.file_count cur)%Z)
  ∧ Forall (λ x, (0 ≤ Session.file_count x)%Z) (sessions s).

(** A hook with one session that holds one file. *)
Definition sample : t :=
  mk [Session.mk "s1" "Curious Quest" 1] (Some (Session.mk "s1" "Curious Quest" 1))
     [FileInfo.mk "f1" "data.csv"] None ∅.
End SessionHook.

(** ** What a stream of events is expected to leave in the message

    The functions below describe the streamed message from the events alone;
    the theorems compare them with what the handlers compute. *)

(** A source of identifiers used where a concrete one is needed: the
    [n]-th identifier is [uuid-] followed by [n] strokes. *)
Fixpoint strokes (n : nat) : string :=
  match n with
  | 0 => EmptyString
  | S k => String "|"%char (strokes k)
  end.

Definition sample_uuid (n : nat) : string := "uuid-" +:+ strokes n.

(** The piece of text that an event contributes to [content]. *)
Definition piece (e : StreamEvent.t) : option string :=
  match StreamEvent.type e with
  | Ttext => Some (default EmptyString (StreamEvent.content e))
  | Tinterrupted => Some STOPPED
  | _ => None
  end.

Definition pieces (events : list StreamEvent.t) : list string := omap piece events.

Fixpoint drop_empty (ps : list string) : list string :=
  match ps with
  | [] => []
  | p :: rest => if truthy p then p :: rest else drop_empty rest
  end.

(** The pieces joined by ['\n\n'], leading empty pieces left out. *)
Definition joined (ps : list string) : string := String.concat LFLF (drop_empty ps).

(** The [content] fields of the [text] events, and their join: the content
    that the description of the accumulation promises. *)
Definition text_contents (events : list StreamEvent.t) : list string :=
  omap (λ e, match StreamEvent.type e with
             | Ttext => Some (default EmptyString (StreamEvent.content e))
             | _ => None
             end) events.

Definition claimed_content (events : list StreamEvent.t) : string :=
  String.concat LFLF (text_contents events).

(** What identifies a content block: its type, its text and the id of its
    tool call. *)
Definition block_key (b : ContentBlock.t) : BlockType * option string * option string :=
  (ContentBlock.type b, ContentBlock.text b,
   ToolCall.id <$> ContentBlock.toolCall b).

(** The keys of the blocks that the events produce, in arrival order; [n] is
    the number of identifiers drawn before the first of the events. *)
Fixpoint expected_keys (uuid : nat → string) (n : nat)
    (events : list StreamEvent.t) : list (BlockType * option string * option string) :=
  match events with
  | [] => []
  | e :: rest =>
      match StreamEvent.type e with
      | Ttext =>
          (text, Some (default EmptyString (StreamEvent.content e)), None)
            :: expected_keys uuid n rest
      | Ttool_use =>
          (tool_call, None, Some (ToolCall.id (newToolCall uuid n e)))
            :: expected_keys uuid (if needs_uuid e then S n else n) rest
      | Tinterrupted =>
          (text, Some (LFLF +:+ STOPPED), None) :: expected_keys uuid n rest
      | _ => expected_keys uuid n rest
      end
  end.

(** The blocks of the [text] and [tool_use] events alone. *)
Fixpoint claimed_keys (uuid : nat → string) (n : nat)
    (events : list StreamEvent.t) : list (BlockType * option string * option string) :=
  match events with
  | [] => []
  | e :: rest =>
      match StreamEvent.type e with
      | Ttext =>
          (text, Some (default EmptyString (StreamEvent.content e)), None)
            :: claimed_keys uuid n rest
      | Ttool_use =>
          (tool_call, None, Some (ToolCall.id (newToolCall uuid n e)))
            :: claimed_keys uuid (if needs_uuid e then S n else n) rest
      | _ => claimed_keys uuid n rest
      end
  end.

(** The identifiers of the tool calls opened by the [tool_use] events. *)
Fixpoint tool_use_ids (uuid : nat → string) (n : nat)
    (events : list StreamEvent.t) : list string :=
  match events with
  | [] => []
  | e :: rest =>
      match StreamEvent.type e with
      | Ttool_use =>
          ToolCall.id (newToolCall uuid n e)
            :: tool_use_ids uuid (if needs_uuid e then S n else n) rest
      | _ => tool_use_ids uuid n rest
      end
  end.

(** The keys of the blocks of a message. *)
Definition message_keys (m : Message.t)
    : option (list (BlockType * option string * option string)) :=
  match Message.contentBlocks m with
  | Some bs => Some (block_key <$> bs)
  | None => None
  end.

(** The number of identifiers drawn once an event has been handled. *)
Definition counter_after (n : nat) (e : StreamEvent.t) : nat :=
  match StreamEvent.type e with
  | Ttool_use => if needs_uuid e then S n else n
  | _ => n
  end.

(** A stream is in progress on message [mid]: the ref holds [mid] and the
    last message of the list is the streamed one, in step with the refs. *)
Definition streaming (s : Hook.t) (mid : string) : Prop :=
  Hook.streamingMessageIdRef s = Some mid
  ∧ truthy mid = true
  ∧ ∃ m, last (Hook.messages s) = Some m
       ∧ Message.id m = mid
       ∧ Message.content m = Hook.accumulatedContentRef s
       ∧ Message.contentBlocks m = Some (Hook.contentBlocksRef s).

(** An event that is no interruption and, if it is a [text] event, has a
    non-empty content. *)
Definition plain (e : StreamEvent.t) : Prop :=
  StreamEvent.type e ≠ Tinterrupted
  ∧ (StreamEvent.type e = Ttext →
     truthy (default EmptyString (StreamEvent.content e)) = true).

(** Events built from the fields that matter to the accumulation. *)
Definition text_event (c : string) : StreamEvent.t :=
  StreamEvent.mk Ttext (Some c) None None None None None None None None None
                 None None None None.

Definition tool_use_event (tool id : string) : StreamEvent.t :=
  StreamEvent.mk Ttool_use None (Some tool) None (Some id) None None None None
                 None None None None None None.

Definition tool_result_event (id c : string) : StreamEvent.t :=
  StreamEvent.mk Ttool_result (Some c) None None (Some id) None None None None
                 None None None None None None.

(** Streams used in examples: a text, a tool call and a text; a text and an
    interruption; a single tool call. *)
Definition sample_stream : list (StreamEvent.t * string) :=
  [(text_event "a", "2026-01-01T00:00:00Z");
   (tool_use_event "Read" "t1", "2026-01-01T00:00:01Z");
   (text_event "b", "2026-01-01T00:00:02Z")].

Definition interrupted_stream : list (StreamEvent.t * string) :=
  [(text_event "a", "2026-01-01T00:00:00Z");
   (StreamEvent.bare Tinterrupted, "2026-01-01T00:00:01Z")].

Definition tool_stream : list (StreamEvent.t * string) :=
  [(tool_use_event "Read" "t1", "2026-01-01T00:00:01Z")].

(** ** The orchestrator-side protocol

    The worker, the relay and the dispatcher run in the backend, whose code
    is not part of the sources at hand; the definitions of this module follow
    the protocol description. *)

Module Protocol.

(** Modelled from the spec: the event records of the response log (section
    6); the turn summary [result] carries the resume token (sections 4.3 and
    4.6). *)
Inductive Event :=
  | Init (session_ref : string) (is_new : bool)
  | Text (content : string)
  | ToolUse (tool : string) (input : Json) (tool_use_id : string)
  | ToolResult (tool_use_id content : string) (is_error : bool)
  | Result (duration_ms num_turns : Z) (resume_token : string)
  | Done
  | Error (message : string)
  | Interrupted (reason : string)
  | StopAcknowledged.

#[global] Instance Json_inhabited : Inhabited Json := populate JNull.

Definition is_done (e : Event) : bool :=
  match e with Done => true | _ => false end.

Definition is_content (e : Event) : bool :=
  match e with Text _ | ToolUse _ _ _ => true | _ => false end.

Definition is_interrupted (e : Event) : bool :=
  match e with Interrupted _ => true | _ => false end.

(** What [init] tells, and the token of a turn summary. *)
Definition init_of (e : Event) : option (string * bool) :=
  match e with Init ref is_new => Some (ref, is_new) | _ => None end.

Definition token_of (e : Event) : option string :=
  match e with Result _ _ token => Some token | _ => None end.

Definition WORKER_STALLED : string := "worker_stalled".
Definition DISPATCH_FAILED : string := "dispatch_failed".

(** *** Event Relay *)

Definition is_newline (b : Byte.byte) : bool :=
  match b with Byte.x0a => true | _ => false end.

(** A record as it lies in the log: its bytes and the line feed. *)
Definition frame (line : list Byte.byte) : list Byte.byte := line ++ [Byte.x0a].

(** A record holds no line feed. *)
Definition unbroken (line : list Byte.byte) : Prop :=
  Forall (λ b, is_newline b = false) line.

(** Modelled from the spec: the record scanner of [poll_events] (section
    4.4); the relay itself is missing from the sources.  The bytes are
    cut at line feeds and each record is parsed on its own; the scan stops
    at the first record that is incomplete or does not parse.  [line]
    holds the bytes of the record being read, last byte first.  The result
    is the list of events and the number of bytes they occupy. *)
Fixpoint scan (parse : list Byte.byte → option Event) (line bs : list Byte.byte)
    : list Event * nat :=
  match bs with
  | [] => ([], 0)
  | b :: rest =>
      if is_newline b then
        match parse (rev line) with
        | Some e =>
            let r := scan parse [] rest in
            (e :: r.1, S (length line) + r.2)
        | None => ([], 0)
        end
      else scan parse (b :: line) rest
  end.

(** Modelled from the spec: [poll_events(cursor) -> (events, new_cursor)]
    of the Event Relay (section 4.4), which is missing from the sources.
    Only the bytes from [cursor] on are read; the new cursor stands behind
    the last record that was parsed. *)
Definition poll_events (parse : list Byte.byte → option Event) (log : list Byte.byte)
    (cursor : nat) : list Event * nat :=
  let r := scan parse [] (drop cursor log) in
  (r.1, cursor + r.2).

(** Modelled from the spec: the relay ends the stream when it sees [done]
    (section 4.4): the events up to and including the first [done], and
    whether there is one. *)
Fixpoint upto_done (events : list Event) : list Event * bool :=
  match events with
  | [] => ([], false)
  | e :: rest =>
      if is_done e then ([e], true)
      else let r := upto_done rest in (e :: r.1, r.2)
  end.

Module Relay.
Record t := mk {
  log : list Byte.byte;
  cursor : nat;
  idle : nat;
  delivered : list Event;
  stopped : bool;
}.

(** Modelled from the spec: the read position is owned by the relay
    (section 3); the relay of a request starts behind what the log holds
    when the request is dispatched. *)
Definition init (log0 : list Byte.byte) : t := mk log0 (length log0) 0 [] false.
End Relay.

(** Modelled from the spec: one poll of the Event Relay (section 4.4),
    which is missing from the sources.  [chunk] is what the worker has
    appended since the previous poll; time is counted in polls.  The
    stream ends when [done] is seen; when nothing is appended for more
    polls than [threshold], the synthetic [worker_stalled] error ends
    it. *)
Definition relay_poll (parse : list Byte.byte → option Event) (threshold : nat)
    (chunk : list Byte.byte) (r : Relay.t) : Relay.t :=
  if Relay.stopped r then r
  else
    match chunk with
    | [] =>
        if threshold <? S (Relay.idle r) then
          Relay.mk (Relay.log r) (Relay.cursor r) (S (Relay.idle r))
                   (Relay.delivered r ++ [Error WORKER_STALLED]) true
        else
          Relay.mk (Relay.log r) (Relay.cursor r) (S (Relay.idle r))
                   (Relay.delivered r) false
    | _ =>
        let log' := Relay.log r ++ chunk in
        let polled := poll_events parse log' (Relay.cursor r) in
        let out := upto_done polled.1 in
        Relay.mk log' polled.2 0 (Relay.delivered r ++ out.1) out.2
    end.

(** Modelled from the spec: the relay polls at a fixed interval (sections
    4.4 and 5); one chunk of appended bytes per poll. *)
Definition relay_run (parse : list Byte.byte → option Event) (threshold : nat)
    (chunks : list (list Byte.byte)) (r : Relay.t) : Relay.t :=
  foldl (λ st chunk, relay_poll parse threshold chunk st) r chunks.

(** The state of a relay that is running after the polls [chunks], begun
    on the log [log0]: it has read every whole record that parses, up to
    the first one that does not, and has counted the polls without new
    bytes since the last bytes came. *)
Definition relay_running (parse : list Byte.byte → option Event)
    (threshold : nat) (log0 : list Byte.byte) (chunks : list (list Byte.byte))
    (r : Relay.t) : Prop :=
  Relay.log r = log0 ++ mjoin chunks
  ∧ Relay.cursor r = length log0 + (scan parse [] (mjoin chunks)).2
  ∧ Relay.delivered r = (scan parse [] (mjoin chunks)).1
  ∧ (Done ∉ Relay.delivered r)
  ∧ Relay.idle r ≤ threshold
  ∧ ∃ before, chunks = before ++ replicate (Relay.idle r) [].

(** What a relay has delivered after the polls [chunks].  A relay that
    has stopped was stopped by one of two events.  Either [threshold + 1]
    polls in a row brought no bytes: it has delivered the events of the
    records written before them, none of which is [done], and then the
    synthetic [worker_stalled] error.  Or a poll brought the record of a
    [done]: it has delivered the events of the records written so far, up
    to that [done].  A relay that runs has delivered the events of all
    records written so far, none of which is [done]. *)
Definition relay_outcome (parse : list Byte.byte → option Event)
    (threshold : nat) (chunks : list (list Byte.byte)) (r : Relay.t) : Prop :=
  if Relay.stopped r then
    (∃ before after,
       chunks = before ++ replicate (S threshold) [] ++ after
       ∧ Relay.delivered r
         = (scan parse [] (mjoin before)).1 ++ [Error WORKER_STALLED]
       ∧ Done ∉ (scan parse [] (mjoin before)).1)
    ∨ (∃ before chunk after,
         chunks = before ++ chunk :: after
         ∧ (upto_done (scan parse [] (mjoin (before ++ [chunk]))).1).2 = true
         ∧ Relay.delivered r
           = (upto_done (scan parse [] (mjoin (before ++ [chunk]))).1).1
         ∧ Done ∉ (scan parse [] (mjoin before)).1)
  else
    Relay.delivered r = (scan parse [] (mjoin chunks)).1
    ∧ Done ∉ (scan parse [] (mjoin chunks)).1.


(** A line format used for examples: one letter for the type of the
    record, followed by its text. *)
Definition sample_parse (line : list Byte.byte) : option Event :=
  match String.string_of_list_byte line with
  | String "D"%char EmptyString => Some Done
  | String "A"%char EmptyString => Some StopAcknowledged
  | String "T"%char c => Some (Text c)
  | String "E"%char m => Some (Error m)
  | String "X"%char r => Some (Interrupted r)
  | String "N"%char r => Some (Init r true)
  | String "R"%char r => Some (Init r false)
  | String "S"%char t => Some (Result 1500 1 t)
  | _ => None
  end.

(** The same format, written: a turn summary is written with its token
    only, the summaries of the examples being those of a turn of 1500 ms. *)
Definition sample_encode (e : Event) : list Byte.byte :=
  String.list_byte_of_string
    match e with
    | Done => "D"
    | StopAcknowledged => "A"
    | Text c => "T" +:+ c
    | Error msg => "E" +:+ msg
    | Interrupted r => "X" +:+ r
    | Init r true => "N" +:+ r
    | Init r false => "R" +:+ r
    | Result _ _ t => "S" +:+ t
    | ToolUse _ _ _ => "U"
    | ToolResult _ _ _ => "V"
    end.

Definition sample_line (s : string) : list Byte.byte :=
  frame (String.list_byte_of_string s).

(** *** Worker Loop *)

Module Envelope.
Record t := mk {
  request_id : string;
  session_id : string;
  resume_token : option string;
  prompt : string;
  attachments : list string;
}.
End Envelope.

(** What the completion service yields for one request: the reference of
    the conversation it opens when none is resumed, its increments, and
    how the turn ends. *)
Inductive Increment :=
  | IText (content : string)
  | IToolUse (tool : string) (input : Json) (tool_use_id : string)
  | IToolResult (tool_use_id content : string) (is_error : bool).

Inductive Outcome :=
  | Completed (duration_ms num_turns : Z) (resume_token : string)
  | Failed (message : string).

Module Service.
Record t := mk {
  conversation : string;
  increments : list Increment;
  outcome : Outcome;
}.
End Service.

Definition event_of (inc : Increment) : Event :=
  match inc with
  | IText c => Text c
  | IToolUse tool input id => ToolUse tool input id
  | IToolResult id c is_error => ToolResult id c is_error
  end.

(** The Stop Flag as the worker sees it at its [i]-th check: the tag of
    the marker, if the marker is there. *)
Definition StopFlag := nat → option string.

Definition no_stop : StopFlag := λ _, None.

(** Modelled from the spec: [request_stop(request_id)] (section 4.5),
    which is missing from the sources: the Stop Flag is written with the
    tag [request_id]; the worker sees it from its check number [seen_at]
    on. *)
Definition request_stop (request_id : string) (seen_at : nat) : StopFlag :=
  λ i, if decide (seen_at ≤ i) then Some request_id else None.

Definition stop_hit (request_id : string) (flag : option string) : bool :=
  bool_decide (flag = Some request_id).

Definition STOP_REASON : string := "stop_requested".

(** Modelled from the spec: the last events of a turn that is not
    interrupted (sections 4.3 and 7, d): the turn summary and [done], or
    [error] and [done] when the service failed. *)
Definition ending (outcome : Outcome) : list Event :=
  match outcome with
  | Completed duration_ms num_turns token =>
      [Result duration_ms num_turns token; Done]
  | Failed message => [Error message; Done]
  end.

(** Modelled from the spec: the [Busy] state of the Worker Loop (section
    4.3), which is missing from the sources.  At each iteration the Stop
    Flag is checked first; a flag tagged with the current request makes
    the worker append [interrupted] and [done].  Otherwise the next
    increment is appended; at the end of the service's output the turn
    summary and [done] are appended, or [error] and [done] when the
    service failed (section 7, d). *)
Fixpoint busy (request_id : string) (flag : StopFlag) (i : nat)
    (incs : list Increment) (outcome : Outcome) : list Event :=
  if stop_hit request_id (flag i) then [Interrupted STOP_REASON; Done]
  else
    match incs with
    | [] => ending outcome
    | inc :: rest => event_of inc :: busy request_id flag (S i) rest outcome
    end.

(** Modelled from the spec: the response log that the worker writes for
    one request (sections 4.3 and 4.6), the worker being missing from the
    sources: [init] tells whether the conversation is new, which it is
    when the envelope carries no resume token. *)
Definition worker_events (env : Envelope.t) (svc : Service.t)
    (flag : StopFlag) : list Event :=
  Init (default (Service.conversation svc) (Envelope.resume_token env))
       (bool_decide (Envelope.resume_token env = None))
    :: busy (Envelope.request_id env) flag 0
            (Service.increments svc) (Service.outcome svc).

(** *** Cancellation as the caller sees it *)

(** A stop request of the caller: the worker check from which the flag is
    visible, and the number of events the caller had received when it
    asked. *)
Module Stop.
Record t := mk { seen_at : nat; received : nat }.
End Stop.

Definition flag_of (request_id : string) (stop : option Stop.t) : StopFlag :=
  match stop with
  | Some st => request_stop request_id (Stop.seen_at st)
  | None => no_stop
  end.

(** Modelled from the spec: the stream that the caller receives for one
    request (sections 4.5 and 6), the orchestrator being missing from the
    sources: the events of the worker, and, when the caller asks to stop,
    [stop_acknowledged] placed at once behind what the caller had
    received, which is before anything the worker appends after it has
    seen the flag. *)
Definition caller_stream (env : Envelope.t) (svc : Service.t)
    (stop : option Stop.t) : list Event :=
  let events := worker_events env svc (flag_of (Envelope.request_id env) stop) in
  match stop with
  | Some st =>
      let pos := Stop.received st `min` S (Stop.seen_at st) in
      take pos events ++ StopAcknowledged :: drop pos events
  | None => events
  end.

(** *** Dispatcher and Session Resume Store *)

(** The resume token carried by the turn summary of a stream. *)
Definition turn_summary_token (events : list Event) : option string :=
  last (omap token_of events).

(** The turn runs to its end: no stop is requested, or the worker is
    done before it could see the flag. *)
Definition uninterrupted (svc : Service.t) (stop : option Stop.t) : Prop :=
  match stop with
  | Some st => length (Service.increments svc) < Stop.seen_at st
  | None => True
  end.

(** *** The response log of a request and its relay *)

(** Modelled from the spec: what the worker appends to the response log
    for a sequence of events (sections 4.3 and 6), the worker being
    missing from the sources: one record per event, each on a line of its
    own. *)
Definition response_bytes (encode : Event → list Byte.byte)
    (events : list Event) : list Byte.byte :=
  mjoin ((λ e, frame (encode e)) <$> events).

(** The record format reads back the events that it writes, each on a
    line of its own. *)
Definition codec (parse : list Byte.byte → option Event)
    (encode : Event → list Byte.byte) (events : list Event) : Prop :=
  Forall (λ e, parse (encode e) = Some e ∧ unbroken (encode e)) events.

(** The bytes as they come between polls: [sizes] gives the number of
    bytes that the worker appends before each poll. *)
Fixpoint cut (sizes : list nat) (bytes : list Byte.byte)
    : list (list Byte.byte) :=
  match sizes with
  | [] => []
  | n :: rest => take n bytes :: cut rest (drop n bytes)
  end.

(** Modelled from the spec: the polls of the relay of one request
    (sections 4.4 and 5), the relay being missing from the sources: what
    the worker has appended before each poll, and, the worker writing no
    more after that, polls without new bytes for as long as the relay
    waits. *)
Definition request_polls (threshold : nat) (sizes : list nat)
    (bytes : list Byte.byte) : list (list Byte.byte) :=
  cut sizes bytes ++ replicate (S threshold) [].

(** Modelled from the spec: the hand-off of a request to the Event Relay
    (section 4.2), which is missing from the sources: the relay starts
    behind the log [log0] of the earlier requests and delivers what it
    finds in the records of the request as they are written. *)
Definition relayed (parse : list Byte.byte → option Event)
    (encode : Event → list Byte.byte) (threshold : nat)
    (log0 : list Byte.byte) (sizes : list nat) (events : list Event)
    : list Event :=
  Relay.delivered
    (relay_run parse threshold
       (request_polls threshold sizes (response_bytes encode events))
       (Relay.init log0)).

(** Modelled from the spec: [dispatch(session_id, prompt, attachments)]
    (sections 4.2 and 4.6), which is missing from the sources.  The resume
    store is read once.  On the warm path the envelope is written to the
    mailbox: a failed write yields the single [dispatch_failed] error, and
    after a write the events of the request reach the caller through the
    relay.  The cold path produces the same events without mailbox and
    log, up to [done].  When the stream has ended with [done], the token of
    its turn summary is put into the store. *)
Definition dispatch (parse : list Byte.byte → option Event)
    (encode : Event → list Byte.byte) (threshold : nat)
    (log0 : list Byte.byte) (sizes : list nat)
    (store : gmap string string) (ready write_ok : bool)
    (request_id session_id prompt : string) (attachments : list string)
    (svc : Service.t) (stop : option Stop.t)
    : list Event * gmap string string :=
  let env := Envelope.mk request_id session_id (store !! session_id)
                         prompt attachments in
  let stream :=
    if ready then
      if write_ok
      then relayed parse encode threshold log0 sizes (caller_stream env svc stop)
      else [Error DISPATCH_FAILED]
    else (upto_done (caller_stream env svc stop)).1 in
  (stream,
   match last stream, turn_summary_token stream with
   | Some Done, Some token => <[session_id := token]> store
   | _, _ => store
   end).

(** A request, and a service that answers it in three increments; the
    same service failing after its first increment. *)
Definition sample_envelope : Envelope.t :=
  Envelope.mk "r1" "s1" None "Hello" [].

Definition sample_service : Service.t :=
  Service.mk "conv-1" [IText "a"; IText "b"; IText "c"]
             (Completed 1500 1 "conv-1").

End Protocol.

(** ** The stream branch on an event of any [type]

    [ws.onmessage] takes [data.event] as a [StreamEvent] without checking
    it: at run time the [type] of an event is the string that the frame
    holds, whether the union declares it or not. *)

(** The members of the [type] union. *)
Definition stream_event_literals : list StreamEventType :=
  [Tsandbox_status; Tinit; Ttext; Ttool_use; Ttool_result; Tresult; Tdone;
   Terror; Tinterrupted; Tstop_acknowledged].

(** The member of the union that a string is, if it is one. *)
Definition literal (name : string) : option StreamEventType :=
  snd <$> list_find (λ ty, type_name ty = name) stream_event_literals.

(** The labels of the [case]s of [switch (streamEvent.type)]. *)
Definition case_labels : list string :=
  ["text"; "tool_use"; "tool_result"; "result"; "interrupted";
   "stop_acknowledged"; "error"; "done"].

(** The fields of an event under another [type]. *)
Definition retype (ty : StreamEventType) (e : StreamEvent.t) : StreamEvent.t :=
  StreamEvent.mk ty (StreamEvent.content e) (StreamEvent.tool e)
    (StreamEvent.input e) (StreamEvent.tool_use_id e) (StreamEvent.status e)
    (StreamEvent.message e) (StreamEvent.is_new e) (StreamEvent.session_id e)
    (StreamEvent.is_error e) (StreamEvent.duration_ms e)
    (StreamEvent.num_turns e) (StreamEvent.total_cost_usd e)
    (StreamEvent.reason e) (StreamEvent.result e).

(** [data.type === 'stream'] for an event whose [type] is the string [name]
    and whose other fields are those of [fields]: the placeholder is
    created if needed; then the [switch] runs the case of [name], and
    nothing when [name] is the label of no case, the [switch] having no
    [default]. *)
Definition onStreamFrame (uuid : nat → string) (name : string)
    (fields : StreamEvent.t) (timestamp : string) (s : Hook.t) : Hook.t :=
  let s0 := startStreamingMessage uuid timestamp s in
  match literal name with
  | Some ty => handleStreamEvent uuid (retype ty fields) s0
  | None => s0
  end.

(** ** Invariants of a streamed turn

    What the stream branch of [ws.onmessage] keeps true of the refs and of
    the streaming message between the first event of a turn and its
    [complete] frame. *)

(** A block carries a tool call exactly when its type says so. *)
Definition block_wf (b : ContentBlock.t) : Prop :=
  match ContentBlock.toolCall b with
  | Some _ => ContentBlock.type b = tool_call
  | None => ContentBlock.type b = text
  end.

(** The tool calls held by a list of blocks, in order. *)
Definition calls_of (blocks : list ContentBlock.t) : list ToolCall.t :=
  omap ContentBlock.toolCall blocks.

(** The streaming message is the last one, carries the id held in
    [streamingMessageIdRef] and mirrors the three accumulators;
    [toolCallsRef] lists the calls of [contentBlocksRef]. *)
Definition turn_inv (mid : string) (s : Hook.t) : Prop :=
  Hook.streamingMessageIdRef s = Some mid
  ∧ truthy mid = true
  ∧ Hook.toolCallsRef s = calls_of (Hook.contentBlocksRef s)
  ∧ Forall block_wf (Hook.contentBlocksRef s)
  ∧ ∃ m, last (Hook.messages s) = Some m
       ∧ Message.id m = mid
       ∧ Message.role m = assistant
       ∧ Message.isStreaming m = Some true
       ∧ Message.content m = Hook.accumulatedContentRef s
       ∧ Message.contentBlocks m = Some (Hook.contentBlocksRef s)
       ∧ Message.toolCalls m = Some (Hook.toolCallsRef s).

(** ** The rest of the session hook ([useSession])

    The handlers beside [handleUploadFiles] and [handleDeleteFile], on the
    state of [SessionHook]. *)

Module UseSession.
Import SessionHook.

Definition setSessions (f : list Session.t → list Session.t) (s : t) : t :=
  mk (f (sessions s)) (session s) (files s) (error s) (warmedSessions s).

Definition setSession (x : option Session.t) (s : t) : t :=
  mk (sessions s) x (files s) (error s) (warmedSessions s).

Definition setFiles (fl : list FileInfo.t) (s : t) : t :=
  mk (sessions s) (session s) fl (error s) (warmedSessions s).

Definition clearError (s : t) : t :=
  mk (sessions s) (session s) (files s) None (warmedSessions s).

Definition setWarmed (w : gset string) (s : t) : t :=
  mk (sessions s) (session s) (files s) (error s) w.

(** The state of the hook before its first effect. *)
Definition initial : t := mk [] None [] None ∅.

(** [triggerWarmup]: nothing is requested for a session already marked;
    otherwise the session is marked and [warmSandbox] is called, and the
    mark is taken back when that request fails. [ok] is the outcome of the
    request, which is settled before the next call of the hook; the second
    component tells whether a request was made. *)
Definition triggerWarmup (sessionId : string) (ok : bool) (s : t) : t * bool :=
  if decide (sessionId ∈ warmedSessions s) then (s, false)
  else
    let added := warmedSessions s ∪ {[sessionId]} in
    (setWarmed (if ok then added else added ∖ {[sessionId]}) s, true).

(** Repeated calls of [triggerWarmup] for one session; the outcomes of the
    requests that were made. *)
Fixpoint warmups (sessionId : string) (outcomes : list bool) (s : t)
    : t * list bool :=
  match outcomes with
  | [] => (s, [])
  | ok :: rest =>
      let r := triggerWarmup sessionId ok s in
      let r' := warmups sessionId rest r.1 in
      (r'.1, if r.2 then ok :: r'.2 else r'.2)
  end.

(** [[...existingSessions].sort((a, b) => b.file_count - a.file_count)]:
    a stable sort by decreasing file count, as insertion from the right. *)
Fixpoint insertByFiles (x : Session.t) (l : list Session.t) : list Session.t :=
  match l with
  | [] => [x]
  | y :: rest =>
      if (Session.file_count y <=? Session.file_count x)%Z
      then x :: y :: rest
      else y :: insertByFiles x rest
  end.

Definition sortedByFiles (l : list Session.t) : list Session.t :=
  foldr insertByFiles [] l.

Definition LOAD_FAILED : string := "Failed to load sessions".

(** [initSessions]: [existing] is the answer of [listSessions], [fileList]
    that of [listFiles] and [created] that of [createSession]; [None] is a
    failed request, which ends in the [catch] branch. *)
Definition initSessions (existing : option (list Session.t))
    (fileList : option (list FileInfo.t)) (created : option Session.t)
    (s : t) : t :=
  match existing with
  | None => setError LOAD_FAILED s
  | Some ex =>
      let s1 := setSessions (λ _, ex) s in
      match ex with
      | _ :: _ =>
          match head (sortedByFiles ex) with
          | Some best =>
              let s2 := setSession (Some best) s1 in
              if (0 <? Session.file_count best)%Z then
                match fileList with
                | Some fl => clearError (setFiles fl s2)
                | None => setError LOAD_FAILED s2
                end
              else clearError s2
          | None => setError LOAD_FAILED (setSession None s1)
          end
      | [] =>
          match created with
          | Some new =>
              clearError (setSession (Some new) (setSessions (λ _, [new]) s1))
          | None => setError LOAD_FAILED s1
          end
      end
  end.

(** [sessions.find(s => s.id === sessionId)] *)
Definition find_session (sessionId : string) (l : list Session.t)
    : option Session.t :=
  snd <$> list_find (λ x, Session.id x = sessionId) l.

(** [switchSession]: a failed [listFiles] leaves an empty file list. *)
Definition switchSession (sessionId : string)
    (fileList : option (list FileInfo.t)) (s : t) : t :=
  match find_session sessionId (sessions s) with
  | None => s
  | Some target =>
      setFiles (default [] fileList) (setSession (Some target) s)
  end.

(** [handleCreateSession] *)
Definition handleCreateSession (created : option Session.t) (s : t) : t :=
  match created with
  | Some new =>
      setFiles [] (setSession (Some new) (setSessions (λ prev, prev ++ [new]) s))
  | None => setError "Failed to create session" s
  end.

(** [session?.id === sessionId] *)
Definition has_id (sessionId : string) (x : option Session.t) : bool :=
  match x with
  | Some cur => String.eqb (Session.id cur) sessionId
  | None => false
  end.

(** [handleRenameSession] *)
Definition handleRenameSession (sessionId : string)
    (updated : option Session.t) (s : t) : t :=
  match updated with
  | Some u =>
      let s1 := setSessions
                  (map (λ x, if String.eqb (Session.id x) sessionId then u else x))
                  s in
      if has_id sessionId (session s) then setSession (Some u) s1 else s1
  | None => setError "Failed to rename session" s
  end.

Definition DELETE_FAILED : string := "Failed to delete session".

(** [handleDeleteSession]: [ok] is the outcome of [deleteSession]; the
    handler runs on the render that produced the state, so its [sessions]
    and [session] are those of [s]. *)
Definition handleDeleteSession (sessionId : string) (ok : bool)
    (fileList : option (list FileInfo.t)) (created : option Session.t)
    (s : t) : t :=
  if ok then
    let s1 := setSessions (filter (λ x, Session.id x ≠ sessionId)) s in
    if has_id sessionId (session s) then
      match filter (λ x, Session.id x ≠ sessionId) (sessions s) with
      | first :: _ =>
          let s2 := setSession (Some first) s1 in
          match fileList with
          | Some fl => setFiles fl s2
          | None => setError DELETE_FAILED s2
          end
      | [] =>
          match created with
          | Some new =>
              setFiles [] (setSession (Some new) (setSessions (λ _, [new]) s1))
          | None => setError DELETE_FAILED s1
          end
      end
    else s1
  else setError DELETE_FAILED s.

(** [refreshFiles] *)
Definition refreshFiles (fileList : option (list FileInfo.t)) (s : t) : t :=
  match session s, fileList with
  | Some _, Some fl => setFiles fl s
  | _, _ => s
  end.

(** The calls of the hook, each with the answers of its requests. *)
Inductive Op :=
  | InitSessions (existing : option (list Session.t))
                 (fileList : option (list FileInfo.t)) (created : option Session.t)
  | SwitchSession (sessionId : string) (fileList : option (list FileInfo.t))
  | CreateSession (created : option Session.t)
  | RenameSession (sessionId : string) (updated : option Session.t)
  | DeleteSession (sessionId : string) (ok : bool)
                  (fileList : option (list FileInfo.t)) (created : option Session.t)
  | RefreshFiles (fileList : option (list FileInfo.t))
  | UploadFiles (uploaded : option (list FileInfo.t))
  | DeleteFile (fileId : string) (ok : bool)
  | TriggerWarmup (sessionId : string) (ok : bool).

Definition apply (op : Op) (s : t) : t :=
  match op with
  | InitSessions existing fileList created => initSessions existing fileList created s
  | SwitchSession sessionId fileList => switchSession sessionId fileList s
  | CreateSession created => handleCreateSession created s
  | RenameSession sessionId updated => handleRenameSession sessionId updated s
  | DeleteSession sessionId ok fileList created =>
      handleDeleteSession sessionId ok fileList created s
  | RefreshFiles fileList => refreshFiles fileList s
  | UploadFiles uploaded => handleUploadFiles uploaded s
  | DeleteFile fileId ok => handleDeleteFile fileId ok s
  | TriggerWarmup sessionId ok => (triggerWarmup sessionId ok s).1
  end.

Definition run (ops : list Op) (s : t) : t := foldl (λ st op, apply op st) s ops.

(** The current session is one of the listed ones, unless none is
    listed. *)
Definition current_listed (s : t) : Prop :=
  (∀ cur, session s = Some cur → cur ∈ sessions s) ∨ sessions s = [].

(** The first session with the largest file count. *)
Fixpoint first_max (l : list Session.t) : option Session.t :=
  match l with
  | [] => None
  | x :: rest =>
      match first_max rest with
      | Some y =>
          if (Session.file_count y <=? Session.file_count x)%Z
          then Some x else Some y
      | None => Some x
      end
  end.

End UseSession.

(** ** The chat input of [ChatInterface]: file mentions *)

Module MentionInput.

(** A JS string as its list of code units. *)
Definition Text : Type := list ascii.

(** The code units of a literal. *)
Definition of_string (s : string) : Text := String.list_ascii_of_string s.

Definition AT : ascii := "@"%char.
Definition SPACE : ascii := " "%char.
Definition NEWLINE : ascii := Ascii.ascii_of_nat 10.

(** An index argument of [substring]: negative values count as [0], values
    beyond the length as the length. *)
Definition clamp (n : Z) (s : Text) : nat :=
  Z.to_nat (Z.min (Z.max n 0) (Z.of_nat (length s))).

(** [s.substring(start, end)]: both ends are clamped, and swapped when
    [start > end]. *)
Definition substring (start end_ : Z) (s : Text) : Text :=
  let a := clamp start s in
  let b := clamp end_ s in
  take (Nat.max a b - Nat.min a b) (drop (Nat.min a b) s).

(** [s.substring(start)] *)
Definition substring_from (start : Z) (s : Text) : Text :=
  substring start (Z.of_nat (length s)) s.

(** [s.lastIndexOf(c)] for a one-unit needle; [-1] when absent. *)
Fixpoint lastIndexOf (c : ascii) (s : Text) : Z :=
  match s with
  | [] => -1
  | x :: rest =>
      let r := lastIndexOf c rest in
      if (0 <=? r)%Z then (r + 1)%Z
      else if Ascii.eqb x c then 0%Z else (-1)%Z
  end.

(** [s.includes(c)] for a one-unit needle *)
Definition includes (c : ascii) (s : Text) : bool := bool_decide (c ∈ s).

Record t := mk {
  input : Text;
  mentions : list (string * string);
  showMentionDropdown : bool;
  mentionQuery : Text;
  mentionIndex : Z;
  selectedDropdownIndex : Z;
}.

Definition closeDropdown (s : t) : t :=
  mk (input s) (mentions s) false [] (-1) (selectedDropdownIndex s).

(** [handleInputChange]: [selectionStart] is the caret reported by the
    text area ([null] counts as [0]). *)
Definition handleInputChange (text : Text) (selectionStart : option nat)
    (files : list FileInfo.t) (s : t) : t :=
  let cursorPos := Z.of_nat (default 0 selectionStart) in
  let s1 := mk text (mentions s) (showMentionDropdown s) (mentionQuery s)
               (mentionIndex s) (selectedDropdownIndex s) in
  let textBeforeCursor := substring 0 cursorPos text in
  let lastAtIndex := lastIndexOf AT textBeforeCursor in
  if (lastAtIndex =? -1)%Z then closeDropdown s1
  else
    let charBeforeAt :=
      if (0 <? lastAtIndex)%Z then text !! Z.to_nat (lastAtIndex - 1)
      else Some SPACE in
    if bool_decide (charBeforeAt = Some SPACE)
       || bool_decide (charBeforeAt = Some NEWLINE)
       || (lastAtIndex =? 0)%Z
    then
      let query := substring_from (lastAtIndex + 1) textBeforeCursor in
      if negb (includes SPACE query) && (0 <? length files)
      then mk text (mentions s) true query lastAtIndex (selectedDropdownIndex s)
      else closeDropdown s1
    else closeDropdown s1.

(** [selectMention] *)
Definition selectMention (file : FileInfo.t) (s : t) : t :=
  let mention := (FileInfo.id file, FileInfo.name file) in
  let beforeMention := substring 0 (mentionIndex s) (input s) in
  let afterMention :=
    substring_from (mentionIndex s + 1 + Z.of_nat (length (mentionQuery s)))
      (input s) in
  mk (beforeMention ++ afterMention) (mentions s ++ [mention]) false [] (-1)
     (selectedDropdownIndex s).

(** [removeMention] *)
Definition removeMention (fileId : string) (s : t) : t :=
  mk (input s) (filter (λ m, m.1 ≠ fileId) (mentions s))
     (showMentionDropdown s) (mentionQuery s) (mentionIndex s)
     (selectedDropdownIndex s).

(** The two updaters of [setSelectedDropdownIndex] in [handleKeyDown], for a
    dropdown of [n] entries. *)
Definition arrowDown (n prev : Z) : Z :=
  if (prev <? n - 1)%Z then (prev + 1)%Z else 0%Z.

Definition arrowUp (n prev : Z) : Z :=
  if (0 <? prev)%Z then (prev - 1)%Z else (n - 1)%Z.

End MentionInput.

(** ** [renderTextWithMentions] *)

Module Render.
Import MentionInput.

Definition LBRACKET : ascii := "["%char.
Definition RBRACKET : ascii := "]"%char.

(** The longest prefix without ["]"], the run taken by [[^\]]+]. *)
Fixpoint name_run (s : Text) : Text :=
  match s with
  | [] => []
  | c :: rest => if Ascii.eqb c RBRACKET then [] else c :: name_run rest
  end.

(** A match of [/@\[([^\]]+)\]/] at the head of [s]: the captured name. *)
Definition match_here (s : Text) : option Text :=
  match s with
  | a :: b :: rest =>
      if Ascii.eqb a AT && Ascii.eqb b LBRACKET then
        let name := name_run rest in
        match name, drop (length name) rest with
        | _ :: _, c :: _ => if Ascii.eqb c RBRACKET then Some name else None
        | _, _ => None
        end
      else None
  | _ => None
  end.

(** [text.matchAll(FILE_MENTION_REGEX)]: the matches from left to right,
    each as [(match.index, match[1])]; the search resumes after a match.
    [pos] is the index of the head of [s], [skip] the number of units of
    [s] still inside the previous match. *)
Fixpoint matchAll_from (s : Text) (pos skip : nat) : list (nat * Text) :=
  match s with
  | [] => []
  | _ :: rest =>
      match skip with
      | S k => matchAll_from rest (S pos) k
      | 0 =>
          match match_here s with
          | Some name =>
              (pos, name) :: matchAll_from rest (S pos) (length name + 2)
          | None => matchAll_from rest (S pos) 0
          end
      end
  end.

Definition matchAll (text : Text) : list (nat * Text) := matchAll_from text 0 0.

(** The nodes of the result: a plain string, or the chip of a mention with
    its React key and file name. *)
Inductive Part :=
  | Plain (s : Text)
  | Chip (key : nat) (fileName : Text).

(** The body of the [for] loop, on [(parts, lastIndex)]. *)
Definition push_match (text : Text) (acc : list Part * nat)
    (m : nat * Text) : list Part * nat :=
  let matchStart := m.1 in
  let matchEnd := matchStart + (length m.2 + 3) in
  let parts1 :=
    if acc.2 <? matchStart
    then acc.1 ++ [Plain (substring (Z.of_nat acc.2) (Z.of_nat matchStart) text)]
    else acc.1 in
  (parts1 ++ [Chip matchStart m.2], matchEnd).

Definition renderTextWithMentions (text : Text) : list Part :=
  let r := foldl (push_match text) ([], 0) (matchAll text) in
  let parts :=
    if r.2 <? length text
    then r.1 ++ [Plain (substring_from (Z.of_nat r.2) text)]
    else r.1 in
  match parts with
  | [] => [Plain text]
  | _ => parts
  end.

(** The text a node stands for. *)
Definition source (p : Part) : Text :=
  match p with
  | Plain s => s
  | Chip _ fileName => AT :: LBRACKET :: fileName ++ [RBRACKET]
  end.

Definition keys (parts : list Part) : list nat :=
  omap (λ p, match p with Chip k _ => Some k | Plain _ => None end) parts.

Definition well_formed (text : Text) (p : Part) : Prop :=
  match p with
  | Plain s => s ≠ [] ∨ text = []
  | Chip _ fileName => fileName ≠ [] ∧ RBRACKET ∉ fileName
  end.

(** No suffix of a plain node starts with a mention. *)
Definition mention_free (p : Part) : Prop :=
  match p with
  | Plain s => ∀ a b, s = a ++ b → match_here b = None
  | Chip _ _ => True
  end.

End Render.

(** ** The sandbox badge of [App] *)

Module SandboxStatus.
Record t := mk {
  status : string;
  error : option string;
}.
End SandboxStatus.

Module App.
Import SessionHook.

Record t := mk {
  hook : SessionHook.t;
  sandboxStatus : option SandboxStatus.t;
}.

Definition WARMING : SandboxStatus.t := SandboxStatus.mk "warming" None.
Definition FETCH_FAILED : SandboxStatus.t :=
  SandboxStatus.mk "error" (Some "Failed to fetch status").

(** [session?.id] *)
Definition session_id (a : t) : option string :=
  Session.id <$> session (hook a).

Definition setSandboxStatus (f : option SandboxStatus.t → option SandboxStatus.t)
    (a : t) : t :=
  mk (hook a) (f (sandboxStatus a)).

Definition is_status (name : string) (x : option SandboxStatus.t) : bool :=
  match x with
  | Some st => String.eqb (SandboxStatus.status st) name
  | None => false
  end.

(** [fetchSandboxStatus]: one poll; [polled] is the answer of
    [getSandboxStatus], [None] when the request fails. *)
Definition fetchSandboxStatus (polled : option SandboxStatus.t) (a : t) : t :=
  if negb (ref_truthy (session_id a)) then setSandboxStatus (λ _, None) a
  else
    match polled with
    | Some status =>
        setSandboxStatus
          (λ prev, if is_status "warming" prev
                      && negb (String.eqb (SandboxStatus.status status) "running")
                   then prev else Some status) a
    | None => setSandboxStatus (λ _, Some FETCH_FAILED) a
    end.

(** The effect run when the session changes: unless the sandbox is reported
    running, the badge is set to warming and the warm-up is triggered;
    [warmed] is the outcome of the warm-up request. *)
Definition onSessionChange (polled : option SandboxStatus.t) (warmed : bool)
    (a : t) : t :=
  match session_id a with
  | Some sid =>
      if truthy sid then
        if is_status "running" polled then a
        else mk (UseSession.triggerWarmup sid warmed (hook a)).1 (Some WARMING)
      else a
  | None => a
  end.

Definition polls (answers : list (option SandboxStatus.t)) (a : t) : t :=
  foldl (λ st p, fetchSandboxStatus p st) a answers.

End App.

(** ** [StreamingText] *)

Module StreamingText.
Import MentionInput.

Definition MAX_ANIMATED_CHARS : nat := 50.

(** [s.slice(a, b)] for indices that are not negative. *)
Definition slice (a b : nat) (s : Text) : Text := take (b - a) (drop a s).

(** The children of the rendered [span]: the text revealed earlier, one
    element for each later code unit, with its key and whether it is
    animated, and the cursor. *)
Inductive Node :=
  | Revealed (s : Text)
  | Unit (key : nat) (char : ascii) (isRecent : bool)
  | Cursor.

(** The element of a code unit; the subtractions stop at [0], which agrees
    with [Math.max(0, ...)] and with comparing against a negative bound. *)
Definition unit_at (revealedCount animationStartIndex i : nat) (char : ascii)
    : Node :=
  let globalIndex := animationStartIndex + i in
  Unit globalIndex char (revealedCount - 10 <=? globalIndex).

Definition render (text : Text) (isStreaming : bool) (revealedCount : nat)
    : list Node :=
  let animationStartIndex := revealedCount - MAX_ANIMATED_CHARS in
  let showCursor := isStreaming || (revealedCount <? length text) in
  (if 0 <? animationStartIndex
   then [Revealed (slice 0 animationStartIndex text)] else [])
  ++ imap (unit_at revealedCount animationStartIndex)
          (slice animationStartIndex revealedCount text)
  ++ (if showCursor then [Cursor] else []).

Definition shown (n : Node) : Text :=
  match n with
  | Revealed s => s
  | Unit _ char _ => [char]
  | Cursor => []
  end.

Definition is_unit (n : Node) : bool :=
  match n with Unit _ _ _ => true | _ => false end.

Definition is_animated (n : Node) : bool :=
  match n with Unit _ _ isRecent => isRecent | _ => false end.

Definition count (f : Node → bool) (l : list Node) : nat :=
  length (filter (λ n, f n = true) l).

End StreamingText.

(** ** C3: the type of an event *)

(** A string is the member of the union that bears its name. *)
Lemma literal_type_name ty : literal (type_name ty) = Some ty.
Proof. by destruct ty. Qed.

Lemma literal_name name ty : literal name = Some ty → type_name ty = name.
Proof.
  unfold literal. destruct (list_find _ _) as [[i ty']|] eqn:Hfind; [|done].
  intros [= <-]. by apply list_find_Some in Hfind as (_ & H & _).
Qed.

Lemma retype_same e : retype (StreamEvent.type e) e = e.
Proof. by destruct e. Qed.

(** C3 (as stated, refuted): an event of type [sandbox_status], which the
    [StreamEvent] union declares and which is none of the nine protocol
    values, is taken by the stream branch and changes the state of the
    caller: as the first event of a turn it opens the streaming
    placeholder.  So does an event whose type, here [heartbeat], is not
    even declared: the type of an event is not checked. *)
Lemma C3_unlisted_type_counterexample :
  (type_name (StreamEvent.type (StreamEvent.bare Tsandbox_status))
     ∉ protocol_event_types)
  ∧ Hook.messages
      (onStream sample_uuid (StreamEvent.bare Tsandbox_status)
                "2026-01-01T00:00:00Z" Hook.initial)
    = [placeholder (sample_uuid 0) "2026-01-01T00:00:00Z"]
  ∧ ("heartbeat" ∉ stream_event_types)
  ∧ Hook.messages
      (onStreamFrame sample_uuid "heartbeat" (StreamEvent.bare Tinit)
                     "2026-01-01T00:00:00Z" Hook.initial)
    = [placeholder (sample_uuid 0) "2026-01-01T00:00:00Z"].
Proof.
  split; [cbn; unfold protocol_event_types; not_in_literal |].
  split; [vm_compute; reflexivity |].
  split; [unfold stream_event_types, protocol_event_types; not_in_literal |].
  vm_compute; reflexivity.
Qed.

(** C3 (amended): the [type] of every [StreamEvent] is one of exactly ten
    values, the nine protocol values and [sandbox_status], and the stream
    branch checks none of them.  An event of a declared type is handled as
    [onStream] says.  An event of any type that is not the label of one of
    the eight cases of the [switch], whether [init], [sandbox_status] or
    any other string, is taken all the same: it only opens the streaming
    placeholder when it is the first event of a turn, and leaves the state
    as it is when a message is streaming already. *)
Theorem C3_event_type_unchecked (uuid : nat → string) :
  (∀ e : StreamEvent.t, type_name (StreamEvent.type e) ∈ stream_event_types)
  ∧ NoDup stream_event_types
  ∧ length stream_event_types = 10
  ∧ (∀ e timestamp s,
       onStreamFrame uuid (type_name (StreamEvent.type e)) e timestamp s
       = onStream uuid e timestamp s)
  ∧ (∀ name fields timestamp s,
       name ∉ case_labels →
       onStreamFrame uuid name fields timestamp s
       = startStreamingMessage uuid timestamp s)
  ∧ (∀ name fields timestamp s,
       name ∉ case_labels →
       ref_truthy (Hook.streamingMessageIdRef s) = true →
       onStreamFrame uuid name fields timestamp s = s)
  ∧ (∀ name fields timestamp s,
       name ∉ case_labels →
       ref_truthy (Hook.streamingMessageIdRef s) = false →
       Hook.messages (onStreamFrame uuid name fields timestamp s)
       = Hook.messages s ++ [placeholder (uuid (Hook.drawn s)) timestamp]).
Proof.
  assert (∀ name fields timestamp s,
            name ∉ case_labels →
            onStreamFrame uuid name fields timestamp s
            = startStreamingMessage uuid timestamp s) as Hother.
  { intros name fields timestamp s Hname. unfold onStreamFrame.
    destruct (literal name) as [ty|] eqn:Hlit; [|done].
    apply literal_name in Hlit. subst name.
    destruct ty; try done;
      exfalso; apply Hname; unfold case_labels; cbn;
      repeat first [apply list_elem_of_here | apply list_elem_of_further]. }
  split; [|split; [|split; [|split; [|split; [done |split]]]]].
  - intros e. unfold stream_event_types, protocol_event_types.
    destruct (StreamEvent.type e); cbn;
      repeat first [apply list_elem_of_here | apply list_elem_of_further].
  - unfold stream_event_types, protocol_event_types.
    repeat (apply NoDup_cons; split; [not_in_literal |]).
    apply NoDup_nil_2.
  - reflexivity.
  - intros e timestamp s. unfold onStreamFrame, onStream.
    by rewrite literal_type_name, retype_same.
  - intros name fields timestamp s Hname Hstream.
    rewrite Hother by done. unfold startStreamingMessage. by rewrite Hstream.
  - intros name fields timestamp s Hname Hfresh.
    rewrite Hother by done. unfold startStreamingMessage. by rewrite Hfresh.
Qed.

Lemma C3_event_type_unchecked_witness :
  ("heartbeat" ∉ case_labels)
  ∧ onStreamFrame sample_uuid "heartbeat" (StreamEvent.bare Tinit)
                  "2026-01-01T00:00:00Z" Hook.initial
    = startStreamingMessage sample_uuid "2026-01-01T00:00:00Z" Hook.initial.
Proof.
  assert ("heartbeat" ∉ case_labels) as Hname
    by (unfold case_labels; not_in_literal).
  split; [exact Hname |].
  destruct (C3_event_type_unchecked sample_uuid)
    as (_ & _ & _ & _ & Hother & _).
  exact (Hother "heartbeat" (StreamEvent.bare Tinit) "2026-01-01T00:00:00Z"
                Hook.initial Hname).
Defined.

(** ** The stop request of the caller *)

(** [stopGeneration] puts exactly one frame on an open socket, and none on
    a socket that is not open; the frame is [{ type: 'stop' }] and names no
    request.  The messages and the reference to the streamed message are
    left as they are. *)
Lemma stopGeneration_frame (s : Hook.t) :
  Hook.sent (stopGeneration s)
  = Hook.sent s ++ (if not_connected s then [] else [stop_payload])
  ∧ json_get "type" stop_payload = Some (JStr "stop")
  ∧ json_get "request_id" stop_payload = None
  ∧ Hook.messages (stopGeneration s) = Hook.messages s
  ∧ Hook.streamingMessageIdRef (stopGeneration s) = Hook.streamingMessageIdRef s.
Proof.
  unfold stopGeneration. destruct (not_connected s); cbn; by rewrite ?app_nil_r.
Qed.

(** ** C6: sending a message *)

(** C6 (as stated, refuted): on a socket that has been closed, [sendMessage]
    returns without a message, a frame or a loading state; the only trace is
    a console line, and no [error] event exists. *)
Lemma C6_closed_socket_counterexample :
  Hook.messages
    (sendMessage sample_uuid "2026-01-01T00:00:00Z" "Hello" None
                 (onclose (onopen Hook.initial))) = []
  ∧ Hook.sent
      (sendMessage sample_uuid "2026-01-01T00:00:00Z" "Hello" None
                   (onclose (onopen Hook.initial))) = []
  ∧ Hook.isLoading
      (sendMessage sample_uuid "2026-01-01T00:00:00Z" "Hello" None
                   (onclose (onopen Hook.initial))) = false
  ∧ Hook.console
      (sendMessage sample_uuid "2026-01-01T00:00:00Z" "Hello" None
                   (onclose (onopen Hook.initial)))
    = ["WebSocket connected"; "WebSocket disconnected";
       "WebSocket not connected"].
Proof. repeat split; reflexivity. Qed.

(** C6 (amended): on an open socket [sendMessage] appends the user's message,
    sets the loading state and sends exactly one frame that carries the
    message; on a socket that is not open it sends nothing, appends nothing,
    leaves the loading state, the streaming status, the streamed message and
    the timer as they are, and writes one console line. *)
Theorem C6_sendMessage_effect (uuid : nat → string) (now content : string)
    (fileMentions : option (list (string * string))) (s : Hook.t) :
  Hook.sent (sendMessage uuid now content fileMentions s)
  = Hook.sent s ++ (if not_connected s then []
                    else [chat_payload content fileMentions])
  ∧ Hook.messages (sendMessage uuid now content fileMentions s)
    = Hook.messages s
        ++ (if not_connected s then []
            else [userMessage (uuid (Hook.drawn s)) now content fileMentions])
  ∧ Hook.isLoading (sendMessage uuid now content fileMentions s)
    = (if not_connected s then Hook.isLoading s else true)
  ∧ Hook.console (sendMessage uuid now content fileMentions s)
    = Hook.console s
        ++ (if not_connected s then ["WebSocket not connected"] else [])
  ∧ json_get "message" (chat_payload content fileMentions) = Some (JStr content)
  ∧ (if not_connected s then
       Hook.streamingStatus (sendMessage uuid now content fileMentions s)
       = Hook.streamingStatus s
       ∧ Hook.streamingMessageIdRef (sendMessage uuid now content fileMentions s)
         = Hook.streamingMessageIdRef s
       ∧ Hook.timerRunning (sendMessage uuid now content fileMentions s)
         = Hook.timerRunning s
     else Hook.timerRunning (sendMessage uuid now content fileMentions s) = true).
Proof.
  unfold sendMessage. destruct (not_connected s); cbn; rewrite ?app_nil_r.
  - repeat split; try done. by destruct fileMentions as [[|??]|].
  - repeat split; try done. by destruct fileMentions as [[|??]|].
Qed.

(** ** Accumulation of the streamed message (C8, C9) *)

(** *** Strings *)

Lemma append_assoc (a b c : string) : (a +:+ b) +:+ c = a +:+ b +:+ c.
Proof.
  induction a as [|ch a IH]; [done |].
  change (String ch ((a +:+ b) +:+ c) = String ch (a +:+ b +:+ c)).
  by rewrite IH.
Qed.

Lemma truthy_false (p : string) : truthy p = false → p = EmptyString.
Proof.
  unfold truthy. intros H. apply negb_false_iff in H.
  by apply String.eqb_eq in H.
Qed.

Lemma truthy_append (a b : string) : truthy a = true → truthy (a +:+ b) = true.
Proof. by destruct a. Qed.

Lemma concat_merge_head (sep a p : string) (rest : list string) :
  String.concat sep ((a +:+ sep +:+ p) :: rest) = String.concat sep (a :: p :: rest).
Proof.
  destruct rest as [|r rs]; cbn; [done |].
  by rewrite !append_assoc.
Qed.

Lemma accumulate_truthy (acc p : string) :
  truthy acc = true →
  accumulate acc p = acc +:+ LFLF +:+ p ∧ truthy (accumulate acc p) = true.
Proof.
  intros H. unfold accumulate. rewrite H. split; [done |].
  by apply truthy_append.
Qed.

Lemma foldl_accumulate_truthy (ps : list string) : ∀ acc,
  truthy acc = true →
  foldl accumulate acc ps = String.concat LFLF (acc :: ps).
Proof.
  induction ps as [|p rest IH]; intros acc Hacc; [done |].
  destruct (accumulate_truthy acc p Hacc) as [Heq Ht].
  cbn [foldl]. rewrite (IH _ Ht), Heq. apply concat_merge_head.
Qed.

(** Accumulating from the empty text gives the join of the pieces, the
    leading empty ones left out. *)
Lemma foldl_accumulate_joined (ps : list string) :
  foldl accumulate EmptyString ps = joined ps.
Proof.
  unfold joined. induction ps as [|p rest IH]; [done |].
  cbn [foldl drop_empty]. change (accumulate EmptyString p) with p.
  destruct (truthy p) eqn:Hp.
  - by apply foldl_accumulate_truthy.
  - apply truthy_false in Hp. by subst p.
Qed.

(** *** Pieces, keys and identifiers, event by event *)

Lemma expected_keys_cons uuid n e rest :
  expected_keys uuid n (e :: rest)
  = expected_keys uuid n [e] ++ expected_keys uuid (counter_after n e) rest.
Proof. unfold counter_after. cbn. by destruct (StreamEvent.type e). Qed.

Lemma tool_use_ids_cons uuid n e rest :
  tool_use_ids uuid n (e :: rest)
  = tool_use_ids uuid n [e] ++ tool_use_ids uuid (counter_after n e) rest.
Proof. unfold counter_after. cbn. by destruct (StreamEvent.type e). Qed.

Lemma pieces_cons e rest :
  pieces (e :: rest) = option_list (piece e) ++ pieces rest.
Proof. unfold pieces. cbn. by destruct (piece e). Qed.

Lemma insert_same_image {A B} (f : A → B) (l : list A) i x y :
  l !! i = Some x → f y = f x → f <$> <[i := y]> l = f <$> l.
Proof.
  intros Hl Hf. rewrite list_fmap_insert, Hf.
  apply list_insert_id. by rewrite list_lookup_fmap, Hl.
Qed.

Lemma last_map_current (f : Message.t → Message.t) mid l m :
  last l = Some m → Message.id m = mid →
  last (map (λ msg, if is_current (Some mid) msg then f msg else msg) l)
  = Some (f m).
Proof.
  intros Hl Hm.
  change (map ?g l) with (g <$> l). rewrite fmap_last, Hl. cbn.
  unfold is_current. by rewrite bool_decide_eq_true_2 by congruence.
Qed.

Lemma plain_joined events :
  Forall plain events → joined (pieces events) = claimed_content events.
Proof.
  unfold joined, claimed_content. intros H.
  assert (pieces events = text_contents events
          ∧ Forall (λ p, truthy p = true) (pieces events)) as [Heq Hall].
  { induction H as [|e rest [Hni Ht] _ [IH1 IH2]]; [done |].
    unfold pieces, text_contents, piece in *. cbn.
    destruct (StreamEvent.type e) eqn:Hty; try done.
    cbn. split; [by rewrite IH1 |]. constructor; [by apply Ht | done]. }
  rewrite <- Heq. f_equal.
  destruct Hall as [|p ps Hp _]; [done |]. cbn. by rewrite Hp.
Qed.

Lemma plain_keys uuid events : ∀ n,
  Forall plain events → expected_keys uuid n events = claimed_keys uuid n events.
Proof.
  induction events as [|e rest IH]; intros n H; [done |].
  apply Forall_cons in H as [[Hni _] H]. cbn.
  destruct (StreamEvent.type e); try done; by rewrite IH.
Qed.

(** *** The handlers on a stream in progress *)

Section Streaming.
Variable uuid : nat → string.
(** [crypto.randomUUID] never returns the empty string. *)
Hypothesis uuid_truthy : ∀ n, truthy (uuid n) = true.

Lemma start_fresh ts s :
  ref_truthy (Hook.streamingMessageIdRef s) = false →
  streaming (startStreamingMessage uuid ts s) (uuid (Hook.drawn s))
  ∧ Hook.accumulatedContentRef (startStreamingMessage uuid ts s) = EmptyString
  ∧ Hook.contentBlocksRef (startStreamingMessage uuid ts s) = []
  ∧ Hook.toolCallsRef (startStreamingMessage uuid ts s) = []
  ∧ Hook.drawn (startStreamingMessage uuid ts s) = S (Hook.drawn s)
  ∧ Hook.messages (startStreamingMessage uuid ts s)
    = Hook.messages s ++ [placeholder (uuid (Hook.drawn s)) ts].
Proof.
  intros Hf. unfold startStreamingMessage. rewrite Hf. cbn.
  repeat split; try done.
  eexists. split; [apply last_snoc | done].
Qed.

Lemma start_streaming ts s mid :
  streaming s mid → startStreamingMessage uuid ts s = s.
Proof.
  intros (Hid & Ht & _). unfold startStreamingMessage.
  by rewrite Hid; cbn; rewrite Ht.
Qed.

Lemma onStream_streaming e ts s mid :
  streaming s mid → onStream uuid e ts s = handleStreamEvent uuid e s.
Proof. intros H. unfold onStream. by rewrite (start_streaming ts s mid). Qed.

(** The effect of one event on a stream in progress. *)
Lemma handle_streaming e s mid :
  streaming s mid →
  streaming (handleStreamEvent uuid e s) mid
  ∧ Hook.accumulatedContentRef (handleStreamEvent uuid e s)
    = foldl accumulate (Hook.accumulatedContentRef s) (option_list (piece e))
  ∧ block_key <$> Hook.contentBlocksRef (handleStreamEvent uuid e s)
    = (block_key <$> Hook.contentBlocksRef s)
        ++ expected_keys uuid (Hook.drawn s) [e]
  ∧ ToolCall.id <$> Hook.toolCallsRef (handleStreamEvent uuid e s)
    = (ToolCall.id <$> Hook.toolCallsRef s)
        ++ tool_use_ids uuid (Hook.drawn s) [e]
  ∧ Hook.drawn (handleStreamEvent uuid e s) = counter_after (Hook.drawn s) e.
Proof.
  intros (Hid & Ht & m & Hlast & Hmid & Hcontent & Hblocks).
  unfold handleStreamEvent, piece, counter_after, streaming.
  rewrite Hid.
  destruct (StreamEvent.type e) eqn:Hty; cbn [expected_keys tool_use_ids].
  all: rewrite ?Hty; cbn [option_list foldl]; rewrite ?app_nil_r.
  all: try (repeat split; try done; by eexists; eauto).
  - (* text *)
    cbn. rewrite fmap_app. repeat split; try done.
    eexists. split; [by eapply last_map_current |]. done.
  - (* tool_use *)
    destruct (needs_uuid e); cbn; rewrite !fmap_app; repeat split; try done.
    all: eexists; split; [by eapply last_map_current |]; done.
  - (* tool_result *)
    destruct (list_find _ (Hook.toolCallsRef s)) as [[i tc]|] eqn:Hfind; cbn.
    2: { repeat split; try done. by eexists; eauto. }
    apply list_find_Some in Hfind as (Hi & Hmatch & _).
    assert (ToolCall.id <$> <[i := settle e tc]> (Hook.toolCallsRef s)
            = ToolCall.id <$> Hook.toolCallsRef s) as Hids
      by (by eapply insert_same_image).
    destruct (list_find _ (Hook.contentBlocksRef s)) as [[j b]|] eqn:Hfb; cbn.
    + apply list_find_Some in Hfb as (Hj & [Hbt Hbid] & _).
      assert (block_key
                <$> <[j := ContentBlock.mk (ContentBlock.type b)
                             (ContentBlock.text b) (Some (settle e tc))]>
                      (Hook.contentBlocksRef s)
              = block_key <$> Hook.contentBlocksRef s) as Hkeys.
      { eapply insert_same_image; [done |].
        unfold block_key. cbn. rewrite Hbid. by rewrite <- Hmatch. }
      repeat split; try done.
      eexists. split; [by eapply last_map_current |]. done.
    + repeat split; try done.
      eexists. split; [by eapply last_map_current |]. cbn. done.
  - (* interrupted *)
    cbn. rewrite fmap_app. repeat split; try done.
    eexists. split; [by eapply last_map_current |]. done.
Qed.

(** The effect of a sequence of events on a stream in progress. *)
Lemma runStream_streaming events : ∀ s mid,
  streaming s mid →
  streaming (runStream uuid events s) mid
  ∧ Hook.accumulatedContentRef (runStream uuid events s)
    = foldl accumulate (Hook.accumulatedContentRef s) (pieces events.*1)
  ∧ block_key <$> Hook.contentBlocksRef (runStream uuid events s)
    = (block_key <$> Hook.contentBlocksRef s)
        ++ expected_keys uuid (Hook.drawn s) events.*1
  ∧ ToolCall.id <$> Hook.toolCallsRef (runStream uuid events s)
    = (ToolCall.id <$> Hook.toolCallsRef s)
        ++ tool_use_ids uuid (Hook.drawn s) events.*1.
Proof.
  induction events as [|[e ts] rest IH]; intros s mid Hs.
  - cbn. by rewrite !app_nil_r.
  - cbn [runStream foldl fmap list_fmap fst].
    change (foldl _ ?s0 rest) with (runStream uuid rest s0).
    cbn [fst snd]. rewrite (onStream_streaming e ts s mid Hs).
    destruct (handle_streaming e s mid Hs) as (Hs' & Hacc & Hkeys & Hids & Hn).
    destruct (IH _ _ Hs') as (Hs'' & Hacc' & Hkeys' & Hids').
    split; [done |].
    rewrite pieces_cons, foldl_app.
    rewrite (expected_keys_cons _ _ e rest.*1), (tool_use_ids_cons _ _ e rest.*1).
    rewrite !app_assoc.
    by rewrite Hacc', Hkeys', Hids', Hacc, Hkeys, Hids, Hn.
Qed.

(** A stream that starts on a hook with no stream in progress. *)
Lemma runStream_fresh e ts rest s0 :
  ref_truthy (Hook.streamingMessageIdRef s0) = false →
  runStream uuid ((e, ts) :: rest) s0
  = runStream uuid ((e, ts) :: rest) (startStreamingMessage uuid ts s0).
Proof.
  intros Hf. destruct (start_fresh ts s0 Hf) as (Hs1 & _).
  cbn [runStream foldl fst snd].
  by rewrite (onStream_streaming e ts _ _ Hs1).
Qed.

Lemma stream_state events s0 :
  ref_truthy (Hook.streamingMessageIdRef s0) = false →
  events ≠ [] →
  streaming (runStream uuid events s0) (uuid (Hook.drawn s0))
  ∧ Hook.accumulatedContentRef (runStream uuid events s0)
    = joined (pieces events.*1)
  ∧ block_key <$> Hook.contentBlocksRef (runStream uuid events s0)
    = expected_keys uuid (S (Hook.drawn s0)) events.*1
  ∧ ToolCall.id <$> Hook.toolCallsRef (runStream uuid events s0)
    = tool_use_ids uuid (S (Hook.drawn s0)) events.*1.
Proof.
  intros Hf Hne. destruct events as [|[e ts] rest]; [done |].
  rewrite (runStream_fresh e ts rest s0 Hf).
  destruct (start_fresh ts s0 Hf) as (Hs1 & Hacc & Hbl & Htc & Hn & _).
  destruct (runStream_streaming ((e, ts) :: rest) _ _ Hs1)
    as (Hs & Hacc' & Hkeys & Hids).
  split; [done |].
  rewrite Hacc', Hkeys, Hids, Hacc, Hbl, Htc, Hn.
  by rewrite foldl_accumulate_joined.
Qed.

(** A [tool_result] that matches none of the tracked calls. *)
Lemma unmatched_tool_result e s :
  StreamEvent.type e = Ttool_result →
  StreamEvent.tool_use_id e ∉ (Some ∘ ToolCall.id <$> Hook.toolCallsRef s) →
  Hook.messages (handleStreamEvent uuid e s) = Hook.messages s
  ∧ Hook.toolCallsRef (handleStreamEvent uuid e s) = Hook.toolCallsRef s
  ∧ Hook.contentBlocksRef (handleStreamEvent uuid e s) = Hook.contentBlocksRef s
  ∧ Hook.accumulatedContentRef (handleStreamEvent uuid e s)
    = Hook.accumulatedContentRef s
  ∧ Hook.streamingMessageIdRef (handleStreamEvent uuid e s)
    = Hook.streamingMessageIdRef s.
Proof.
  intros Hty Hnot. unfold handleStreamEvent. rewrite Hty.
  destruct (list_find _ (Hook.toolCallsRef s)) as [[i tc]|] eqn:Hfind; [|done].
  apply list_find_Some in Hfind as (Hi & Hmatch & _).
  exfalso. apply Hnot. rewrite <- Hmatch.
  apply list_elem_of_fmap. exists tc. split; [done |].
  by eapply list_elem_of_lookup_2.
Qed.

(** A [tool_result] that matches a tracked call settles the first call with
    its id and leaves the other calls as they are. *)
Lemma matched_tool_result e s i tc :
  StreamEvent.type e = Ttool_result →
  list_find (call_matches (StreamEvent.tool_use_id e)) (Hook.toolCallsRef s)
  = Some (i, tc) →
  Hook.toolCallsRef (handleStreamEvent uuid e s)
  = <[i := settle e tc]> (Hook.toolCallsRef s)
  ∧ (∀ j, j ≠ i →
          Hook.toolCallsRef (handleStreamEvent uuid e s) !! j
          = Hook.toolCallsRef s !! j)
  ∧ length (Hook.contentBlocksRef (handleStreamEvent uuid e s))
    = length (Hook.contentBlocksRef s).
Proof.
  intros Hty Hfind. unfold handleStreamEvent. rewrite Hty, Hfind. cbn.
  destruct (list_find _ (Hook.contentBlocksRef s)) as [[j b]|]; cbn.
  - split; [done |]. split; [|by rewrite length_insert].
    intros k Hk. by rewrite list_lookup_insert_ne.
  - split; [done |]. split; [|done].
    intros k Hk. by rewrite list_lookup_insert_ne.
Qed.

(** C8 (amended): for a stream of events that starts on a hook with no
    stream in progress, the message shown (the last of the list) has as
    [content] the pieces of the events joined by two line feeds in arrival
    order, where a [text] event contributes its content and an
    [interrupted] event the notice [[Stopped by user]], and where no
    separator stands before the first non-empty piece; its [contentBlocks]
    are the blocks of the [text], [tool_use] and [interrupted] events in
    arrival order.  When no event is an interruption and no [text] event
    is empty, this is the join of the contents of the [text] events and
    the blocks of the [text] and [tool_use] events. *)
Theorem C8_content_accumulates events s0 :
  ref_truthy (Hook.streamingMessageIdRef s0) = false →
  events ≠ [] →
  ∃ m, last (Hook.messages (runStream uuid events s0)) = Some m
     ∧ Message.content m = joined (pieces events.*1)
     ∧ message_keys m
       = Some (expected_keys uuid (S (Hook.drawn s0)) events.*1)
     ∧ (Forall plain events.*1 →
        Message.content m = claimed_content events.*1
        ∧ message_keys m
          = Some (claimed_keys uuid (S (Hook.drawn s0)) events.*1)).
Proof.
  intros Hf Hne.
  destruct (stream_state events s0 Hf Hne)
    as ((_ & _ & m & Hlast & _ & Hc & Hb) & Hacc & Hkeys & _).
  exists m. unfold message_keys. rewrite Hc, Hb, Hacc, Hkeys.
  repeat split; try done.
  - by apply plain_joined.
  - by rewrite plain_keys.
Qed.

(** C9 (amended): a [tool_result] event whose [tool_use_id] is the id of
    none of the tool calls opened by the [tool_use] events received before
    it in the stream leaves the tool calls, the content blocks and the
    accumulated content as they are; the list of messages is left as it is
    when the stream has begun, and gets the empty streaming placeholder
    when the event is the first of the stream. *)
Theorem C9_unmatched_tool_result_frame events e ts s0 :
  ref_truthy (Hook.streamingMessageIdRef s0) = false →
  StreamEvent.type e = Ttool_result →
  StreamEvent.tool_use_id e
    ∉ (Some <$> tool_use_ids uuid (S (Hook.drawn s0)) events.*1) →
  Hook.messages (onStream uuid e ts (runStream uuid events s0))
  = Hook.messages (runStream uuid events s0)
      ++ match events with
         | [] => [placeholder (uuid (Hook.drawn s0)) ts]
         | _ => []
         end
  ∧ Hook.toolCallsRef (onStream uuid e ts (runStream uuid events s0))
    = match events with
      | [] => []
      | _ => Hook.toolCallsRef (runStream uuid events s0)
      end
  ∧ Hook.contentBlocksRef (onStream uuid e ts (runStream uuid events s0))
    = match events with
      | [] => []
      | _ => Hook.contentBlocksRef (runStream uuid events s0)
      end
  ∧ Hook.accumulatedContentRef (onStream uuid e ts (runStream uuid events s0))
    = match events with
      | [] => EmptyString
      | _ => Hook.accumulatedContentRef (runStream uuid events s0)
      end.
Proof.
  intros Hf Hty Hnot. destruct events as [|et rest].
  - cbn [runStream foldl]. unfold onStream.
    destruct (start_fresh ts s0 Hf) as (_ & Hacc & Hbl & Htc & _ & Hmsg).
    destruct (unmatched_tool_result e (startStreamingMessage uuid ts s0) Hty)
      as (-> & -> & -> & -> & _); [|done].
    rewrite Htc. apply not_elem_of_nil.
  - destruct (stream_state (et :: rest) s0 Hf) as (Hs & _ & _ & Hids); [done |].
    rewrite (onStream_streaming e ts _ _ Hs), app_nil_r.
    destruct (unmatched_tool_result e (runStream uuid (et :: rest) s0) Hty)
      as (-> & -> & -> & -> & _); [|done].
    by rewrite list_fmap_compose, Hids.
Qed.
End Streaming.

(** C8 (as stated, refuted): after a [text] event with content [a] and an
    [interrupted] event, the content of the message is [a], the separator and
    the notice, not the join of the [text] contents; and the message has a
    block that comes from neither a [text] nor a [tool_use] event. *)
Lemma C8_interrupted_counterexample :
  ∃ m, last (Hook.messages (runStream sample_uuid interrupted_stream Hook.initial))
       = Some m
     ∧ Message.content m = "a" +:+ LFLF +:+ STOPPED
     ∧ claimed_content interrupted_stream.*1 = "a"
     ∧ Message.content m ≠ claimed_content interrupted_stream.*1
     ∧ message_keys m
       ≠ Some (claimed_keys sample_uuid 1 interrupted_stream.*1).
Proof.
  eexists. split; [vm_compute; reflexivity |].
  repeat split; vm_compute; (reflexivity || discriminate).
Qed.

Lemma C8_content_accumulates_witness :
  (∀ n, truthy (sample_uuid n) = true)
  ∧ ref_truthy (Hook.streamingMessageIdRef Hook.initial) = false
  ∧ sample_stream ≠ []
  ∧ ∃ m, last (Hook.messages (runStream sample_uuid sample_stream Hook.initial))
         = Some m
       ∧ Message.content m = joined (pieces sample_stream.*1)
       ∧ message_keys m
         = Some (expected_keys sample_uuid (S (Hook.drawn Hook.initial))
                               sample_stream.*1)
       ∧ (Forall plain sample_stream.*1 →
          Message.content m = claimed_content sample_stream.*1
          ∧ message_keys m
            = Some (claimed_keys sample_uuid (S (Hook.drawn Hook.initial))
                                 sample_stream.*1)).
Proof.
  split; [intros n; reflexivity |].
  split; [reflexivity |].
  split; [discriminate |].
  apply (C8_content_accumulates sample_uuid (λ n, eq_refl) sample_stream
                                Hook.initial);
    [reflexivity | discriminate].
Defined.

(** C9 (as stated, refuted): a [tool_result] that is the first event of a
    stream matches no earlier [tool_use], and yet the list of messages
    changes: the streaming placeholder is appended. *)
Lemma C9_first_event_counterexample :
  (StreamEvent.tool_use_id (tool_result_event "t1" "ok")
     ∉ (Some <$> tool_use_ids sample_uuid 1 []))
  ∧ Hook.messages Hook.initial = []
  ∧ Hook.messages
      (onStream sample_uuid (tool_result_event "t1" "ok")
                "2026-01-01T00:00:00Z" Hook.initial)
    = [placeholder (sample_uuid 0) "2026-01-01T00:00:00Z"].
Proof.
  split; [apply not_elem_of_nil |].
  split; vm_compute; reflexivity.
Qed.

Lemma C9_unmatched_tool_result_frame_witness :
  (∀ n, truthy (sample_uuid n) = true)
  ∧ ref_truthy (Hook.streamingMessageIdRef Hook.initial) = false
  ∧ StreamEvent.type (tool_result_event "t2" "ok") = Ttool_result
  ∧ (StreamEvent.tool_use_id (tool_result_event "t2" "ok")
       ∉ (Some <$> tool_use_ids sample_uuid (S (Hook.drawn Hook.initial))
                                tool_stream.*1))
  ∧ Hook.messages
      (onStream sample_uuid (tool_result_event "t2" "ok") "2026-01-01T00:00:02Z"
                (runStream sample_uuid tool_stream Hook.initial))
    = Hook.messages (runStream sample_uuid tool_stream Hook.initial) ++ []
  ∧ Hook.toolCallsRef
      (onStream sample_uuid (tool_result_event "t2" "ok") "2026-01-01T00:00:02Z"
                (runStream sample_uuid tool_stream Hook.initial))
    = Hook.toolCallsRef (runStream sample_uuid tool_stream Hook.initial).
Proof.
  assert (StreamEvent.tool_use_id (tool_result_event "t2" "ok")
            ∉ (Some <$> tool_use_ids sample_uuid (S (Hook.drawn Hook.initial))
                                     tool_stream.*1)) as Hnot.
  { cbn. not_in_literal. }
  split; [intros n; reflexivity |].
  split; [reflexivity |].
  split; [reflexivity |].
  split; [exact Hnot |].
  destruct (C9_unmatched_tool_result_frame sample_uuid (λ n, eq_refl)
              tool_stream (tool_result_event "t2" "ok") "2026-01-01T00:00:02Z"
              Hook.initial eq_refl eq_refl Hnot)
    as (Hm & Ht & _).
  split; [exact Hm | exact Ht].
Defined.

(** ** C10: the file count of the current session *)

Section FileCount.
Import SessionHook.

Lemma setFileCount_ok currentId n s files' warmed' :
  (0 ≤ n)%Z → counts_ok s → counts_ok (setFileCount currentId n s files' warmed').
Proof.
  intros Hn [Hcur Hall]. split; cbn.
  - intros cur. destruct (session s); [|done]. cbn. by intros [= <-].
  - apply Forall_fmap. eapply Forall_impl; [exact Hall |].
    intros x Hx. cbn. by destruct (String.eqb _ _).
Qed.

(** A handler that has captured a session with a count that is not
    negative keeps the counts so, whatever the state it runs on. *)
Lemma closure_counts_ok captured s :
  counts_ok s → (0 ≤ Session.file_count captured)%Z →
  (∀ uploaded, counts_ok (handleUploadFiles_closure (Some captured) uploaded s))
  ∧ (∀ fileId ok, counts_ok (handleDeleteFile_closure (Some captured) fileId ok s)).
Proof.
  intros Hok Hcap. split.
  - intros [up|]; cbn; [|done]. apply setFileCount_ok; [lia | done].
  - intros fileId [|]; cbn; [|done]. apply setFileCount_ok; [lia | done].
Qed.

Lemma step_counts_ok op s : counts_ok s → counts_ok (step op s).
Proof.
  intros Hok. destruct op as [up | fileId ok]; cbn;
    unfold handleUploadFiles, handleDeleteFile;
    destruct (session s) as [cur|] eqn:Hs; try done.
  - apply closure_counts_ok; [done |]. destruct Hok as [Hcur _]. by apply Hcur.
  - apply closure_counts_ok; [done |]. destruct Hok as [Hcur _]. by apply Hcur.
Qed.

Lemma run_counts_ok ops : ∀ s, counts_ok s → counts_ok (run ops s).
Proof.
  induction ops as [|op ops IH]; intros s Hok; [done |].
  cbn. apply IH. by apply step_counts_ok.
Qed.

(** C10: deleting a file sets the count of the current session to
    [max(0, file_count - 1)], uploading adds the number of uploaded files,
    and after any sequence of uploads and deletions that starts from
    counts that are not negative, no count is negative; this also holds
    for a handler that computes the new count from a session captured
    earlier. *)
Theorem C10_file_count_nonneg (s : SessionHook.t) (ops : list FileOp)
    (fileId : string) (uploaded : list FileInfo.t) :
  counts_ok s →
  counts_ok (run ops s)
  ∧ current_file_count (handleDeleteFile fileId true s)
    = (λ n, Z.max 0 (n - 1)) <$> current_file_count s
  ∧ current_file_count (handleUploadFiles (Some uploaded) s)
    = (λ n, (n + Z.of_nat (length uploaded))%Z) <$> current_file_count s
  ∧ (∀ captured, (0 ≤ Session.file_count captured)%Z →
       counts_ok (handleDeleteFile_closure (Some captured) fileId true s)
       ∧ counts_ok (handleUploadFiles_closure (Some captured) (Some uploaded) s)).
Proof.
  intros Hok. split; [by apply run_counts_ok |].
  split; [|split].
  - unfold current_file_count, handleDeleteFile.
    destruct (session s) eqn:Hs; cbn; by rewrite Hs.
  - unfold current_file_count, handleUploadFiles.
    destruct (session s) eqn:Hs; cbn; by rewrite Hs.
  - intros captured Hcap.
    destruct (closure_counts_ok captured s Hok Hcap) as [Hup Hdel]. auto.
Qed.
End FileCount.

Lemma C10_file_count_nonneg_witness :
  SessionHook.counts_ok SessionHook.sample
  ∧ SessionHook.counts_ok
      (SessionHook.run
         [SessionHook.Delete "f1" true; SessionHook.Delete "f0" true;
          SessionHook.Upload (Some [FileInfo.mk "f2" "notes.txt"])]
         SessionHook.sample)
  ∧ SessionHook.current_file_count
      (SessionHook.handleDeleteFile "f1" true SessionHook.sample)
    = (λ n, Z.max 0 (n - 1)) <$> SessionHook.current_file_count SessionHook.sample
  ∧ SessionHook.current_file_count
      (SessionHook.handleUploadFiles (Some [FileInfo.mk "f2" "notes.txt"])
                                     SessionHook.sample)
    = (λ n, (n + Z.of_nat (length [FileInfo.mk "f2" "notes.txt"]))%Z)
        <$> SessionHook.current_file_count SessionHook.sample
  ∧ (∀ captured, (0 ≤ Session.file_count captured)%Z →
       SessionHook.counts_ok
         (SessionHook.handleDeleteFile_closure (Some captured) "f1" true
                                               SessionHook.sample)
       ∧ SessionHook.counts_ok
           (SessionHook.handleUploadFiles_closure
              (Some captured) (Some [FileInfo.mk "f2" "notes.txt"])
              SessionHook.sample)).
Proof.
  assert (SessionHook.counts_ok SessionHook.sample) as Hok.
  { split.
    - intros cur [= <-]. simpl. lia.
    - apply Forall_cons. split; [simpl; lia | apply Forall_nil_2]. }
  split; [exact Hok |].
  apply (C10_file_count_nonneg SessionHook.sample
           [SessionHook.Delete "f1" true; SessionHook.Delete "f0" true;
            SessionHook.Upload (Some [FileInfo.mk "f2" "notes.txt"])]
           "f1" [FileInfo.mk "f2" "notes.txt"] Hok).
Defined.

(** ** The Event Relay (C4) *)

Section Relay.
Import Protocol.
Variable parse : list Byte.byte → option Event.

Lemma is_newline_true b : is_newline b = true ↔ b = Byte.x0a.
Proof. split; [by destruct b | by intros ->]. Qed.

Lemma length_frame (line : list Byte.byte) : length (frame line) = S (length line).
Proof. unfold frame. rewrite length_app. cbn. lia. Qed.

Lemma scan_partial bs : ∀ line, unbroken bs → scan parse line bs = ([], 0).
Proof.
  induction bs as [|b bs IH]; intros line H; [done |].
  apply Forall_cons in H as [Hb H]. cbn. rewrite Hb. by apply IH.
Qed.

Lemma scan_record l1 : ∀ line rest,
  unbroken l1 →
  scan parse line (l1 ++ Byte.x0a :: rest)
  = match parse (rev line ++ l1) with
    | Some e =>
        let r := scan parse [] rest in
        (e :: r.1, S (length line + length l1) + r.2)
    | None => ([], 0)
    end.
Proof.
  induction l1 as [|b l1 IH]; intros line rest H.
  - cbn. rewrite app_nil_r, Nat.add_0_r. done.
  - apply Forall_cons in H as [Hb H]. cbn. rewrite Hb, (IH _ _ H). cbn.
    rewrite <- app_assoc. cbn.
    destruct (parse _); [|done]. cbn. do 2 f_equal. lia.
Qed.

(** A sequence of bytes holds no line feed, or begins with a record. *)
Lemma split_record (bs : list Byte.byte) :
  unbroken bs ∨ ∃ l1 rest, bs = l1 ++ Byte.x0a :: rest ∧ unbroken l1.
Proof.
  induction bs as [|b bs IH]; [left; constructor |].
  destruct (is_newline b) eqn:Hb.
  - apply is_newline_true in Hb as ->. right. exists [], bs.
    split; [done | constructor].
  - destruct IH as [H | (l1 & rest & -> & H)].
    + left. by constructor.
    + right. exists (b :: l1), rest. split; [done | by constructor].
Qed.

Lemma scan_bound bs : (scan parse [] bs).2 ≤ length bs.
Proof.
  remember (length bs) as n eqn:Hn. revert bs Hn.
  induction n as [n IH] using lt_wf_ind. intros bs ->.
  destruct (split_record bs) as [H | (l1 & rest & -> & H)].
  - rewrite scan_partial by done. cbn. lia.
  - rewrite scan_record by done. rewrite length_app. cbn.
    destruct (parse l1); cbn; [|lia].
    specialize (IH (length rest) ltac:(rewrite length_app; cbn; lia) rest eq_refl).
    lia.
Qed.

(** What a scan consumes is a sequence of whole records that parse to the
    events it returns. *)
Lemma scan_consumed bs :
  ∃ lines, take (scan parse [] bs).2 bs = mjoin (frame <$> lines)
         ∧ Forall unbroken lines
         ∧ parse <$> lines = Some <$> (scan parse [] bs).1.
Proof.
  remember (length bs) as n eqn:Hn. revert bs Hn.
  induction n as [n IH] using lt_wf_ind. intros bs ->.
  destruct (split_record bs) as [H | (l1 & rest & -> & H)].
  - rewrite scan_partial by done. by exists [].
  - rewrite scan_record by done. cbn.
    destruct (parse l1) as [e|] eqn:He; cbn; [|by exists []].
    destruct (IH (length rest) ltac:(rewrite length_app; cbn; lia) rest eq_refl)
      as (lines & Htake & Hun & Hparse).
    exists (l1 :: lines). split; [|split].
    + replace (S (length l1 + (scan parse [] rest).2))
        with (length l1 + S (scan parse [] rest).2) by lia.
      rewrite take_app_add. cbn [take]. rewrite Htake.
      cbn. unfold frame at 2. by rewrite <- app_assoc.
    + by constructor.
    + cbn. by rewrite He, Hparse.
Qed.

(** A scan does not go beyond a record that does not parse. *)
Lemma scan_stops pre : ∀ line rest,
  Forall unbroken pre → unbroken line → parse line = None →
  (scan parse [] (mjoin (frame <$> pre) ++ frame line ++ rest)).2
  ≤ length (mjoin (frame <$> pre)).
Proof.
  induction pre as [|p pre IH]; intros line rest Hpre Hline Hnone.
  - cbn. unfold frame. rewrite <- app_assoc. cbn.
    rewrite scan_record by done. cbn. by rewrite Hnone.
  - apply Forall_cons in Hpre as [Hp Hpre]. cbn.
    unfold frame at 1. rewrite <- !app_assoc. cbn.
    rewrite scan_record by done. cbn.
    destruct (parse p); cbn; [|lia].
    rewrite length_app, length_frame. cbn.
    apply le_n_S, Nat.add_le_mono_l, (IH line rest Hpre Hline Hnone).
Qed.

(** Scanning a log that has grown: the records found before are found
    again, and the scan goes on from where it had stopped. *)
Lemma scan_grown bs more :
  scan parse [] (bs ++ more)
  = let r := scan parse [] bs in
    let r' := scan parse [] (drop r.2 bs ++ more) in
    (r.1 ++ r'.1, r.2 + r'.2).
Proof.
  remember (length bs) as n eqn:Hn. revert bs Hn.
  induction n as [n IH] using lt_wf_ind. intros bs ->.
  destruct (split_record bs) as [H | (l1 & rest & -> & H)].
  - rewrite (scan_partial bs) by done. cbn. by destruct (scan _ _ _).
  - rewrite <- app_assoc. cbn. rewrite !scan_record by done. cbn.
    destruct (parse l1) as [e|] eqn:He; cbn.
    + rewrite (IH (length rest) ltac:(rewrite length_app; cbn; lia) rest eq_refl).
      cbn.
      replace (drop (S (length l1 + (scan parse [] rest).2))
                    (l1 ++ Byte.x0a :: rest))
        with (drop (scan parse [] rest).2 rest).
      { do 2 f_equal. lia. }
      replace (S (length l1 + (scan parse [] rest).2))
        with (length l1 + S (scan parse [] rest).2) by lia.
      by rewrite drop_app_add.
    + change (drop 0 ?l) with l. rewrite <- app_assoc. cbn.
      rewrite scan_record by done. cbn. by rewrite He.
Qed.

(** *** The relay loop *)

Variable threshold : nat.

Lemma upto_done_true events :
  (upto_done events).2 = true →
  ∃ body, (upto_done events).1 = body ++ [Done] ∧ Done ∉ body.
Proof.
  induction events as [|e rest IH]; [done |]. cbn.
  destruct (is_done e) eqn:He; cbn.
  - intros _. exists []. destruct e; try done.
    split; [done | apply not_elem_of_nil].
  - intros H. destruct (IH H) as (body & -> & Hn).
    exists (e :: body). split; [done |].
    apply not_elem_of_cons. split; [|done]. by intros <-.
Qed.

Lemma upto_done_false events :
  (upto_done events).2 = false → Done ∉ (upto_done events).1.
Proof.
  induction events as [|e rest IH]; [intros _; apply not_elem_of_nil |]. cbn.
  destruct (is_done e) eqn:He; cbn; [done |].
  intros H. apply not_elem_of_cons. split; [by intros <- | by apply IH].
Qed.

Lemma relay_run_cons chunk chunks r :
  relay_run parse threshold (chunk :: chunks) r
  = relay_run parse threshold chunks (relay_poll parse threshold chunk r).
Proof. done. Qed.

(** A relay that has stopped stays as it is. *)
Lemma relay_run_stopped chunks : ∀ r,
  Relay.stopped r = true → relay_run parse threshold chunks r = r.
Proof.
  induction chunks as [|c chunks IH]; intros r H; [done |].
  rewrite relay_run_cons. unfold relay_poll. rewrite H. by apply IH.
Qed.

(** Enough polls without new bytes stop the relay. *)
Lemma relay_run_silent k : ∀ r,
  0 < k → threshold < Relay.idle r + k →
  Relay.stopped (relay_run parse threshold (replicate k []) r) = true.
Proof.
  induction k as [|k IH]; intros r Hk Hth; [lia |].
  cbn [replicate]. rewrite relay_run_cons. unfold relay_poll.
  destruct (Relay.stopped r) eqn:Hst; [by rewrite relay_run_stopped |].
  destruct (threshold <? S (Relay.idle r)) eqn:Hlt.
  - by rewrite relay_run_stopped.
  - apply Nat.ltb_ge in Hlt. apply IH; cbn; lia.
Qed.

End Relay.

Section RelayState.
Import Protocol.
Variable parse : list Byte.byte → option Event.

(** Where a scan stops: in front of bytes that hold no whole record, or in
    front of a whole record that does not parse. *)
Lemma scan_rest bs :
  unbroken (drop (scan parse [] bs).2 bs)
  ∨ ∃ line tail, drop (scan parse [] bs).2 bs = frame line ++ tail
               ∧ unbroken line ∧ parse line = None.
Proof.
  remember (length bs) as n eqn:Hn. revert bs Hn.
  induction n as [n IH] using lt_wf_ind. intros bs ->.
  destruct (split_record bs) as [H | (l1 & rest & -> & H)].
  - rewrite (scan_partial parse) by done. by left.
  - rewrite (scan_record parse) by done. cbn.
    destruct (parse l1) as [e|] eqn:He; cbn.
    + replace (S (length l1 + (scan parse [] rest).2))
        with (length l1 + S (scan parse [] rest).2) by lia.
      rewrite drop_app_add. cbn [drop].
      apply (IH (length rest)); [rewrite length_app; cbn; lia | done].
    + right. exists l1, rest. unfold frame. rewrite <- app_assoc. done.
Qed.

(** *** What the relay has delivered *)
Variable threshold : nat.
Variable log0 : list Byte.byte.

Lemma is_done_true e : is_done e = true ↔ e = Done.
Proof. split; [by destruct e | by intros ->]. Qed.

Lemma upto_done_id events :
  (upto_done events).2 = false → (upto_done events).1 = events.
Proof.
  induction events as [|e rest IH]; [done |]. cbn.
  destruct (is_done e); cbn; [done |]. intros H. by rewrite IH.
Qed.

Lemma upto_done_app a b :
  Done ∉ a →
  upto_done (a ++ b) = (a ++ (upto_done b).1, (upto_done b).2).
Proof.
  induction a as [|e a IH]; intros Ha; cbn; [by destruct (upto_done b) |].
  apply not_elem_of_cons in Ha as [He Ha].
  destruct (is_done e) eqn:Hd; [apply is_done_true in Hd; congruence |].
  by rewrite IH.
Qed.

Lemma mjoin_quiet (p : list (list Byte.byte)) n :
  mjoin (p ++ replicate n []) = mjoin p.
Proof.
  rewrite join_app.
  replace (mjoin (replicate n ([] : list Byte.byte))) with ([] : list Byte.byte);
    [by rewrite app_nil_r |].
  induction n as [|n IH]; [done |]. done.
Qed.

Lemma replicate_snoc {A} n (x : A) : replicate n x ++ [x] = replicate (S n) x.
Proof. induction n as [|n IH]; [done |]. cbn. by rewrite IH. Qed.

Lemma relay_run_snoc chunks chunk r :
  relay_run parse threshold (chunks ++ [chunk]) r
  = relay_poll parse threshold chunk (relay_run parse threshold chunks r).
Proof. unfold relay_run. by rewrite foldl_app. Qed.

Lemma relay_run_app chunks more r :
  relay_run parse threshold (chunks ++ more) r
  = relay_run parse threshold more (relay_run parse threshold chunks r).
Proof. unfold relay_run. by rewrite foldl_app. Qed.

(** One poll of a running relay. *)
Lemma relay_poll_state chunks chunk r :
  Relay.stopped r = false →
  relay_running parse threshold log0 chunks r →
  (Relay.stopped (relay_poll parse threshold chunk r) = false →
   relay_running parse threshold log0 (chunks ++ [chunk])
                 (relay_poll parse threshold chunk r))
  ∧ relay_outcome parse threshold (chunks ++ [chunk])
                  (relay_poll parse threshold chunk r).
Proof.
  intros Hrun (Hlog & Hcur & Hdel & Hnd & Hidle & p & Hp).
  unfold relay_poll. rewrite Hrun.
  destruct chunk as [|b chunk].
  - (* a poll without new bytes *)
    assert (mjoin (chunks ++ [[]]) = mjoin chunks) as Hj
      by (rewrite join_app; cbn; by rewrite !app_nil_r).
    destruct (threshold <? S (Relay.idle r)) eqn:Hlt.
    + apply Nat.ltb_lt in Hlt. split; [done |].
      unfold relay_outcome. cbn [Relay.stopped Relay.delivered]. left.
      assert (Relay.idle r = threshold) as Hth by lia.
      exists p, []. rewrite app_nil_r. split; [|split].
      * rewrite Hp at 1. rewrite Hth, <- app_assoc. f_equal.
        apply replicate_snoc.
      * rewrite Hdel. do 2 f_equal. rewrite Hp at 1. by rewrite mjoin_quiet.
      * rewrite Hdel in Hnd. rewrite Hp, mjoin_quiet in Hnd. exact Hnd.
    + apply Nat.ltb_ge in Hlt. split.
      * intros _. unfold relay_running.
        cbn [Relay.log Relay.cursor Relay.delivered Relay.idle].
        rewrite Hj.
        split; [done |]. split; [done |]. split; [done |]. split; [done |].
        split; [lia |].
        exists p. rewrite Hp at 1. rewrite <- app_assoc. f_equal.
        apply replicate_snoc.
      * unfold relay_outcome. cbn [Relay.stopped Relay.delivered].
        rewrite Hj. by rewrite <- Hdel.
  - (* a poll with new bytes *)
    set (c := b :: chunk).
    assert (mjoin (chunks ++ [c]) = mjoin chunks ++ c) as Hj
      by (rewrite join_app; cbn; by rewrite app_nil_r).
    pose proof (scan_bound parse (mjoin chunks)) as Hb.
    assert (drop (Relay.cursor r) (Relay.log r ++ c)
            = drop (scan parse [] (mjoin chunks)).2 (mjoin chunks) ++ c) as Hdrop.
    { rewrite Hlog, Hcur, <- app_assoc, drop_app_add'  by done.
      by rewrite drop_app_le by lia. }
    pose proof (scan_grown parse (mjoin chunks) c) as Hg. cbn in Hg.
    unfold poll_events. cbn [fst snd]. rewrite Hdrop.
    set (r' := scan parse [] (drop (scan parse [] (mjoin chunks)).2 (mjoin chunks) ++ c)) in *.
    assert (upto_done (scan parse [] (mjoin (chunks ++ [c]))).1
            = (Relay.delivered r ++ (upto_done r'.1).1, (upto_done r'.1).2))
      as Hup.
    { rewrite Hj, Hg. cbn [fst]. rewrite <- Hdel. by apply upto_done_app. }
    destruct ((upto_done r'.1).2) eqn:Hd.
    + split; [done |].
      unfold relay_outcome. cbn [Relay.stopped Relay.delivered].
      right. exists chunks, c, []. rewrite Hup. cbn [fst snd].
      split; [done |]. split; [done |]. split; [done |]. by rewrite <- Hdel.
    + assert (scan parse [] (mjoin (chunks ++ [c]))
              = (Relay.delivered r ++ r'.1,
                 (scan parse [] (mjoin chunks)).2 + r'.2)) as Hs
        by (by rewrite Hj, Hg, <- Hdel).
      assert (Done ∉ Relay.delivered r ++ r'.1) as Hnd'.
      { rewrite <- (upto_done_id r'.1) by done.
        apply upto_done_false in Hd. rewrite elem_of_app. tauto. }
      split.
      * intros _. unfold relay_running.
        cbn [Relay.log Relay.cursor Relay.delivered Relay.idle Relay.stopped].
        rewrite Hs. cbn [fst snd]. rewrite (upto_done_id r'.1) by done.
        split; [by rewrite Hlog, Hj, app_assoc |].
        split; [rewrite Hcur; lia |]. split; [done |]. split; [done |].
        split; [lia |]. exists (chunks ++ [c]). by rewrite app_nil_r.
      * unfold relay_outcome. cbn [Relay.stopped Relay.delivered].
        rewrite Hs. cbn [fst]. by rewrite (upto_done_id r'.1) by done.
Qed.

Lemma relay_outcome_more chunks chunk r :
  Relay.stopped r = true →
  relay_outcome parse threshold chunks r →
  relay_outcome parse threshold (chunks ++ [chunk]) r.
Proof.
  unfold relay_outcome. intros ->.
  intros [(before & after & -> & H) | (before & c & after & -> & H)].
  - left. exists before, (after ++ [chunk]). by rewrite <- !app_assoc.
  - right. exists before, c, (after ++ [chunk]).
    by rewrite <- !app_assoc.
Qed.

(** The state of the relay after any polls. *)
Lemma relay_run_state chunks :
  (Relay.stopped (relay_run parse threshold chunks (Relay.init log0)) = false →
   relay_running parse threshold log0 chunks
                 (relay_run parse threshold chunks (Relay.init log0)))
  ∧ relay_outcome parse threshold chunks
                  (relay_run parse threshold chunks (Relay.init log0)).
Proof.
  induction chunks as [|chunk chunks IH] using rev_ind.
  - cbn. split.
    + intros _. unfold relay_running. cbn.
      rewrite app_nil_r, Nat.add_0_r.
      repeat split; try done; [apply not_elem_of_nil | lia | by exists []].
    + unfold relay_outcome. cbn. split; [done | apply not_elem_of_nil].
  - rewrite relay_run_snoc. destruct IH as [IHrun IHout].
    destruct (Relay.stopped (relay_run parse threshold chunks (Relay.init log0)))
      eqn:Hst.
    + assert (relay_poll parse threshold chunk
                (relay_run parse threshold chunks (Relay.init log0))
              = relay_run parse threshold chunks (Relay.init log0)) as ->
        by (unfold relay_poll; by rewrite Hst).
      split; [by rewrite Hst |]. by apply relay_outcome_more.
    + apply relay_poll_state; [done | by apply IHrun].
Qed.

(** *** A record that never parses, and records that are cut by the polls *)

Lemma upto_done_found events : (upto_done events).2 = true → Done ∈ events.
Proof.
  induction events as [|e rest IH]; [done |]. cbn.
  destruct (is_done e) eqn:Hd; cbn.
  - intros _. apply is_done_true in Hd as ->. apply list_elem_of_here.
  - intros H. apply list_elem_of_further. by apply IH.
Qed.

(** The records in front of a whole record that does not parse are all
    that a scan finds. *)
Lemma scan_blocked pre : ∀ line rest events,
  Forall unbroken pre → unbroken line → parse line = None →
  parse <$> pre = Some <$> events →
  scan parse [] (mjoin (frame <$> pre) ++ frame line ++ rest)
  = (events, length (mjoin (frame <$> pre))).
Proof.
  induction pre as [|p pre IH]; intros line rest events Hpre Hline Hnone Hev.
  - destruct events; [|done]. cbn. unfold frame. rewrite <- app_assoc. cbn.
    rewrite (scan_record parse) by done. cbn. by rewrite Hnone.
  - destruct events as [|e events]; [done |].
    apply Forall_cons in Hpre as [Hp Hpre]. cbn in Hev.
    injection Hev as He Hev.
    change (mjoin (frame <$> p :: pre)) with (frame p ++ mjoin (frame <$> pre)).
    rewrite <- app_assoc, length_app, length_frame.
    pose proof (IH line rest events Hpre Hline Hnone Hev) as Htl.
    set (tl := mjoin (frame <$> pre) ++ frame line ++ rest) in *.
    unfold frame at 1. rewrite <- app_assoc. cbn [app].
    rewrite (scan_record parse) by done. cbn [rev app].
    rewrite He, Htl. cbn. done.
Qed.

(** What is found in a beginning of the bytes is a beginning of what is
    found in all of them. *)
Lemma scan_prefix a b :
  (scan parse [] a).1 `prefix_of` (scan parse [] (a ++ b)).1.
Proof. rewrite (scan_grown parse). cbn. by eexists. Qed.

Lemma relay_blocked chunks pre line rest events :
  mjoin chunks = mjoin (frame <$> pre) ++ frame line ++ rest →
  Forall unbroken pre → unbroken line → parse line = None →
  parse <$> pre = Some <$> events → Done ∉ events →
  let r := relay_run parse threshold (chunks ++ replicate (S threshold) [])
                     (Relay.init log0) in
  Relay.stopped r = true
  ∧ ∃ body, Relay.delivered r = body ++ [Error WORKER_STALLED]
          ∧ body `prefix_of` events.
Proof.
  intros Hlog Hpre Hline Hnone Hev Hnd r.
  assert (∀ before after, chunks ++ replicate (S threshold) [] = before ++ after →
            (scan parse [] (mjoin before)).1 `prefix_of` events) as Hfound.
  { intros before after Heq.
    assert (mjoin before ++ mjoin after = mjoin chunks) as Hj.
    { rewrite <- join_app, <- Heq. apply mjoin_quiet. }
    pose proof (scan_prefix (mjoin before) (mjoin after)) as Hp.
    by rewrite Hj, Hlog, (scan_blocked pre line rest events) in Hp. }
  assert (Relay.stopped r = true) as Hst.
  { subst r. rewrite relay_run_app. apply relay_run_silent; lia. }
  split; [done |].
  pose proof (proj2 (relay_run_state
                       (chunks ++ replicate (S threshold) []))) as Hout.
  fold r in Hout. unfold relay_outcome in Hout. rewrite Hst in Hout.
  destruct Hout as [(before & after & Heq & Hdel & _)
                   | (before & chunk & after & Heq & Hflag & _)].
  - exists (scan parse [] (mjoin before)).1. split; [done |].
    by apply (Hfound before (replicate (S threshold) [] ++ after)).
  - exfalso. apply Hnd. apply upto_done_found in Hflag.
    destruct (Hfound (before ++ [chunk]) after) as [k Hk];
      [by rewrite <- app_assoc |].
    rewrite Hk. apply elem_of_app. by left.
Qed.

Lemma upto_done_prefix a b :
  (upto_done a).2 = true → upto_done (a ++ b) = upto_done a.
Proof.
  induction a as [|e a IH]; [done |]. cbn.
  destruct (is_done e); [done |]. cbn. intros H. by rewrite IH.
Qed.

(** Whole records that parse are all found. *)
Lemma scan_whole lines : ∀ events,
  Forall unbroken lines → parse <$> lines = Some <$> events →
  scan parse [] (mjoin (frame <$> lines))
  = (events, length (mjoin (frame <$> lines))).
Proof.
  induction lines as [|p lines IH]; intros events Hun Hev.
  - by destruct events.
  - destruct events as [|e events]; [done |].
    apply Forall_cons in Hun as [Hp Hun]. injection Hev as He Hev.
    change (mjoin (frame <$> p :: lines)) with (frame p ++ mjoin (frame <$> lines)).
    rewrite length_app, length_frame.
    pose proof (IH events Hun Hev) as Htl.
    set (tl := mjoin (frame <$> lines)) in *.
    unfold frame. rewrite <- app_assoc. cbn [app].
    rewrite (scan_record parse) by done. cbn [rev app].
    rewrite He, Htl. cbn. done.
Qed.

Lemma relay_whole chunks lines events :
  mjoin chunks = mjoin (frame <$> lines) →
  Forall unbroken lines → parse <$> lines = Some <$> events →
  Forall (λ chunk, chunk ≠ []) chunks →
  let r := relay_run parse threshold chunks (Relay.init log0) in
  Relay.delivered r = (upto_done events).1
  ∧ Relay.stopped r = (upto_done events).2.
Proof.
  intros Hlog Hun Hev Hbusy r.
  pose proof (scan_whole lines events Hun Hev) as Hscan. rewrite <- Hlog in Hscan.
  pose proof (proj2 (relay_run_state chunks)) as Hout.
  fold r in Hout. unfold relay_outcome in Hout.
  destruct (Relay.stopped r) eqn:Hst.
  - destruct Hout as [(before & after & Heq & _)
                     | (before & chunk & after & Heq & Hflag & Hdel & _)].
    + exfalso. rewrite Heq in Hbusy.
      apply Forall_app in Hbusy as [_ Hbusy]. cbn in Hbusy.
      apply Forall_cons in Hbusy as [Hne _]. done.
    + assert (mjoin chunks = mjoin (before ++ [chunk]) ++ mjoin after) as Hj
        by (by rewrite <- join_app, <- app_assoc, Heq).
      destruct (scan_prefix (mjoin (before ++ [chunk])) (mjoin after)) as [k Hk].
      rewrite <- Hj, Hscan in Hk. cbn [fst] in Hk.
      rewrite Hk, (upto_done_prefix _ _ Hflag). by rewrite Hdel, Hflag.
  - destruct Hout as [Hdel Hnd]. rewrite Hscan in Hdel, Hnd. cbn [fst] in *.
    destruct ((upto_done events).2) eqn:Hflag.
    + exfalso. by apply Hnd, upto_done_found.
    + by rewrite upto_done_id.
Qed.

(** C4 (amended): [poll_events] returns events and a cursor for every log
    and cursor, never an error.  The cursor does not move back; the bytes
    it passes are whole records that parse to the returned events; it
    stops exactly in front of the first record that is not yet whole or
    that fails to parse, and never behind a record that fails to parse.
    That record is read again by the next poll: polling the grown log from
    the new cursor completes what one poll of the grown log returns.  A
    record that is read before it is whole is not fatal to the stream: it
    is delivered by the next poll once its missing bytes are written and
    it parses, and however the bytes of whole records that parse are cut
    by the polls that bring them, the relay delivers the events of all of
    them, up to [done].  A whole record that fails to parse is fatal to
    the stream: whatever is appended, the next poll returns no event and
    the same cursor, so that the relay delivers none of the events behind
    that record and, when the record stands before the [done] of the
    request, ends the stream with the [worker_stalled] error once the log
    has stopped growing. *)
Theorem C4_poll_events_holds_unparsable (log more : list Byte.byte)
    (cursor : nat) :
  let polled := poll_events parse log cursor in
  cursor ≤ polled.2
  ∧ (∃ lines,
       drop cursor (take polled.2 log) = mjoin (frame <$> lines)
       ∧ Forall unbroken lines
       ∧ parse <$> lines = Some <$> polled.1)
  ∧ (unbroken (drop polled.2 log)
     ∨ ∃ line tail, drop polled.2 log = frame line ++ tail
                  ∧ unbroken line ∧ parse line = None)
  ∧ (∀ pre line rest,
       drop cursor log = mjoin (frame <$> pre) ++ frame line ++ rest →
       Forall unbroken pre → unbroken line → parse line = None →
       polled.2 ≤ cursor + length (mjoin (frame <$> pre)))
  ∧ poll_events parse (log ++ more) cursor
    = (polled.1 ++ (poll_events parse (log ++ more) polled.2).1,
       (poll_events parse (log ++ more) polled.2).2)
  ∧ (∀ tail e,
       cursor ≤ length log →
       unbroken (drop polled.2 log) → unbroken tail →
       parse (drop polled.2 log ++ tail) = Some e →
       ∃ events,
         (poll_events parse (log ++ frame tail ++ more) polled.2).1
         = e :: events)
  ∧ (∀ line tail,
       drop polled.2 log = frame line ++ tail →
       unbroken line → parse line = None →
       poll_events parse (log ++ more) polled.2 = ([], polled.2))
  ∧ (∀ chunks lines events,
       mjoin chunks = mjoin (frame <$> lines) →
       Forall unbroken lines → parse <$> lines = Some <$> events →
       Forall (λ chunk, chunk ≠ []) chunks →
       let r := relay_run parse threshold chunks (Relay.init log0) in
       Relay.delivered r = (upto_done events).1
       ∧ Relay.stopped r = (upto_done events).2)
  ∧ (∀ chunks pre line rest events,
       mjoin chunks = mjoin (frame <$> pre) ++ frame line ++ rest →
       Forall unbroken pre → unbroken line → parse line = None →
       parse <$> pre = Some <$> events → Done ∉ events →
       let r := relay_run parse threshold (chunks ++ replicate (S threshold) [])
                          (Relay.init log0) in
       Relay.stopped r = true
       ∧ ∃ body, Relay.delivered r = body ++ [Error WORKER_STALLED]
               ∧ body `prefix_of` events).
Proof.
  intros polled. subst polled. unfold poll_events. cbn [fst snd].
  pose proof (scan_bound parse (drop cursor log)) as Hbound.
  rewrite length_drop in Hbound.
  split; [lia |]. split; [|split; [|split; [|split; [|split; [|split; [|split]]]]]].
  - destruct (scan_consumed parse (drop cursor log)) as (lines & Htake & Hun & Hp).
    exists lines. by rewrite <- take_drop_commute.
  - rewrite <- drop_drop. apply scan_rest.
  - intros pre line rest -> Hpre Hline Hnone.
    apply Nat.add_le_mono_l. by apply scan_stops.
  - destruct (decide (cursor ≤ length log)) as [Hle | Hgt].
    + rewrite !drop_app_le by lia.
      rewrite (scan_grown parse). cbn. rewrite drop_drop.
      f_equal. lia.
    + rewrite (drop_ge log cursor) by lia. cbn.
      rewrite Nat.add_0_r. by destruct (scan _ _ _).
  - intros tail e Hle Hpart Htail He.
    rewrite drop_app_le by lia. unfold frame. rewrite <- app_assoc.
    assert (unbroken (drop (cursor + (scan parse [] (drop cursor log)).2) log
                        ++ tail)) as Hline by (by apply Forall_app).
    rewrite app_assoc. cbn.
    rewrite (scan_record parse) by done. cbn. rewrite He. cbn. by eexists.
  - intros line tail Hrest Hline Hnone.
    assert (cursor + (scan parse [] (drop cursor log)).2 ≤ length log) as Hle.
    { destruct (decide (cursor ≤ length log)); [lia |].
      rewrite drop_ge in Hrest by lia. by destruct line. }
    rewrite drop_app_le by lia. rewrite Hrest. unfold frame.
    rewrite <- !app_assoc. cbn.
    rewrite (scan_record parse) by done. cbn. rewrite Hnone. cbn.
    f_equal. lia.
  - apply relay_whole.
  - apply relay_blocked.
Qed.
End RelayState.

(** A record that does not parse holds the cursor: the poll returns the
    record before it and stops in front of it. *)
Example poll_events_stops_at_unparsable :
  Protocol.poll_events Protocol.sample_parse
    (Protocol.sample_line "Ta" ++ Protocol.sample_line "?"
       ++ Protocol.sample_line "D") 0
  = ([Protocol.Text "a"], 3).
Proof. vm_compute. reflexivity. Qed.

(** A record that is read before its line feed is written is delivered by
    the poll that follows. *)
Example poll_events_retries_partial :
  Protocol.poll_events Protocol.sample_parse
    (Protocol.sample_line "Ta" ++ String.list_byte_of_string "Tb") 0
  = ([Protocol.Text "a"], 3)
  ∧ Protocol.poll_events Protocol.sample_parse
      (Protocol.sample_line "Ta" ++ String.list_byte_of_string "Tb"
         ++ Protocol.sample_line "c") 3
    = ([Protocol.Text "bc"], 7).
Proof. split; vm_compute; reflexivity. Qed.

(** C4 (as stated, refuted): a whole record that does not parse is fatal
    to the stream.  The first poll stops in front of it, every later poll
    returns nothing and the same cursor, and the relay ends the stream
    with the [worker_stalled] error although a [text] record and the
    [done] record stand behind the malformed one. *)
Lemma C4_unparsable_record_is_fatal_counterexample :
  let log := Protocol.sample_line "Ta" ++ Protocol.sample_line "?"
               ++ Protocol.sample_line "Tb" ++ Protocol.sample_line "D" in
  Protocol.sample_parse (String.list_byte_of_string "?") = None
  ∧ Protocol.poll_events Protocol.sample_parse log 0 = ([Protocol.Text "a"], 3)
  ∧ Protocol.poll_events Protocol.sample_parse log 3 = ([], 3)
  ∧ Protocol.Relay.delivered
      (Protocol.relay_run Protocol.sample_parse 3 (log :: replicate 4 [])
                          (Protocol.Relay.init []))
    = [Protocol.Text "a"; Protocol.Error Protocol.WORKER_STALLED].
Proof. repeat split; vm_compute; reflexivity. Qed.

Lemma C4_poll_events_holds_unparsable_witness :
  let log := Protocol.sample_line "Ta" ++ Protocol.sample_line "?"
               ++ Protocol.sample_line "Tb" ++ Protocol.sample_line "D" in
  drop 3 log
  = Protocol.frame (String.list_byte_of_string "?")
      ++ Protocol.sample_line "Tb" ++ Protocol.sample_line "D"
  ∧ Protocol.unbroken (String.list_byte_of_string "?")
  ∧ Protocol.sample_parse (String.list_byte_of_string "?") = None
  ∧ Protocol.poll_events Protocol.sample_parse
      (log ++ Protocol.sample_line "Tc") 3
    = ([], 3)
  ∧ Protocol.Relay.stopped
      (Protocol.relay_run Protocol.sample_parse 3 ([log] ++ replicate 4 [])
                          (Protocol.Relay.init []))
    = true.
Proof.
  intros log.
  assert (Protocol.unbroken (String.list_byte_of_string "?")) as Hline
    by (repeat constructor).
  assert (Protocol.sample_parse (String.list_byte_of_string "?") = None)
    as Hnone by reflexivity.
  destruct (C4_poll_events_holds_unparsable Protocol.sample_parse 3 []
              log (Protocol.sample_line "Tc") 0)
    as (_ & _ & _ & _ & _ & _ & Hstuck & _ & Hfatal).
  split; [reflexivity |]. split; [exact Hline |]. split; [exact Hnone |].
  split.
  - exact (Hstuck (String.list_byte_of_string "?")
                  (Protocol.sample_line "Tb" ++ Protocol.sample_line "D")
                  eq_refl Hline Hnone).
  - refine (proj1 (Hfatal [log] [String.list_byte_of_string "Ta"]
                     (String.list_byte_of_string "?")
                     (Protocol.sample_line "Tb" ++ Protocol.sample_line "D")
                     [Protocol.Text "a"] _ _ Hline Hnone _ _)).
    + reflexivity.
    + repeat constructor.
    + reflexivity.
    + intros Hin. apply list_elem_of_singleton in Hin. discriminate Hin.
Defined.

(** ** The worker and cancellation (C2) *)

Section Turn.
Import Protocol.

Lemma busy_no_stop request_id incs outcome : ∀ i,
  busy request_id no_stop i incs outcome = (event_of <$> incs) ++ ending outcome.
Proof.
  induction incs as [|inc rest IH]; intros i; cbn; [done |].
  by rewrite IH.
Qed.

Lemma stop_hit_request_stop request_id k i :
  stop_hit request_id (request_stop request_id k i) = bool_decide (k ≤ i).
Proof.
  unfold stop_hit, request_stop.
  destruct (decide (k ≤ i)).
  - by rewrite !bool_decide_eq_true_2.
  - by rewrite !bool_decide_eq_false_2.
Qed.

(** Under a stop request the worker appends the increments it gets
    before it sees the flag, and then the interruption, unless the turn
    has ended before. *)
Lemma busy_request_stop request_id k incs outcome : ∀ i,
  busy request_id (request_stop request_id k) i incs outcome
  = (event_of <$> take (k - i) incs)
      ++ (if decide (k ≤ i + length incs)
          then [Interrupted STOP_REASON; Done] else ending outcome).
Proof.
  induction incs as [|inc rest IH]; intros i.
  - cbn [busy]. rewrite stop_hit_request_stop, take_nil. cbn.
    rewrite Nat.add_0_r.
    destruct (decide (k ≤ i)).
    + by rewrite bool_decide_eq_true_2.
    + by rewrite bool_decide_eq_false_2.
  - cbn [busy]. rewrite stop_hit_request_stop.
    destruct (decide (k ≤ i)) as [Hle | Hgt].
    + rewrite bool_decide_eq_true_2 by done.
      replace (k - i) with 0 by lia. cbn.
      by rewrite decide_True by lia.
    + rewrite bool_decide_eq_false_2 by done.
      rewrite IH. replace (k - i) with (S (k - S i)) by lia. cbn.
      f_equal. f_equal. repeat case_decide; done || lia.
Qed.

Lemma worker_events_stopped env svc k :
  worker_events env svc (request_stop (Envelope.request_id env) k)
  = (Init (default (Service.conversation svc) (Envelope.resume_token env))
          (bool_decide (Envelope.resume_token env = None))
       :: (event_of <$> take k (Service.increments svc)))
      ++ (if decide (k ≤ length (Service.increments svc))
          then [Interrupted STOP_REASON; Done]
          else ending (Service.outcome svc)).
Proof.
  unfold worker_events. rewrite busy_request_stop.
  by rewrite Nat.sub_0_r.
Qed.

Lemma event_of_plain (incs : list Increment) :
  Forall (λ e, is_interrupted e = false) (event_of <$> incs).
Proof. apply Forall_fmap, Forall_true. by intros []. Qed.

Lemma ending_plain outcome :
  Forall (λ e, is_interrupted e = false) (ending outcome).
Proof. destruct outcome; by repeat constructor. Qed.

Lemma no_interrupted_in (l pre post : list Event) reason :
  Forall (λ e, is_interrupted e = false) l →
  l ≠ pre ++ Interrupted reason :: post.
Proof.
  intros H ->. apply Forall_app in H as [_ H].
  by apply Forall_cons in H as [? _].
Qed.

(** The interruption that ends a body without interruptions is the only
    one. *)
Lemma interrupted_unique (body pre post : list Event) reason :
  Forall (λ e, is_interrupted e = false) body →
  body ++ [Interrupted STOP_REASON; Done] = pre ++ Interrupted reason :: post →
  pre = body ∧ post = [Done].
Proof.
  revert pre. induction body as [|b body IH]; intros pre Hb Heq.
  - destruct pre as [|x [|y pre]]; simplify_eq/=; [done |].
    by destruct pre.
  - apply Forall_cons in Hb as [Hb Hbody].
    destruct pre as [|x pre]; simplify_eq/=.
    destruct (IH pre Hbody) as [-> ->]; done.
Qed.

(** C2: in the stream that the caller receives for a request, an
    [interrupted] event is followed by [done] and by nothing else, so that
    no [text] or [tool_use] event stands behind it; and the
    [stop_acknowledged] event of the stop request stands before it. *)
Theorem C2_no_content_after_interrupted env svc stop pre reason post :
  caller_stream env svc stop = pre ++ Interrupted reason :: post →
  post = [Done]
  ∧ Forall (λ e, is_content e = false) post
  ∧ StopAcknowledged ∈ pre.
Proof.
  unfold caller_stream.
  destruct stop as [[k a]|]; cbn [flag_of Stop.seen_at Stop.received].
  2: { unfold worker_events. rewrite busy_no_stop. intros H. exfalso.
       eapply no_interrupted_in; [|exact H].
       constructor; [done |]. apply Forall_app.
       split; [apply event_of_plain | apply ending_plain]. }
  rewrite worker_events_stopped.
  set (body := Init _ _ :: _).
  assert (Forall (λ e, is_interrupted e = false) body) as Hbody
    by (constructor; [done | apply event_of_plain]).
  assert (a `min` S k ≤ S k) as Hpos by lia.
  destruct (decide (k ≤ length (Service.increments svc))) as [Hk | Hk].
  - assert (length body = S k) as Hlen.
    { unfold body. cbn. rewrite length_fmap, length_take. lia. }
    rewrite take_app_le, drop_app_le by lia.
    intros Heq.
    change (?x :: ?l ++ ?t) with ((x :: l) ++ t) in Heq.
    rewrite app_assoc in Heq.
    apply interrupted_unique in Heq as [-> ->].
    + repeat split; [by repeat constructor |].
      rewrite elem_of_app, elem_of_cons. auto.
    + apply Forall_app. split; [by apply Forall_take |].
      constructor; [done | by apply Forall_drop].
  - intros H. exfalso. eapply no_interrupted_in; [|exact H].
    assert (Forall (λ e, is_interrupted e = false)
                   (body ++ ending (Service.outcome svc))) as Hall
      by (apply Forall_app; split; [done | apply ending_plain]).
    apply Forall_app. split; [by apply Forall_take |].
    constructor; [done | by apply Forall_drop].
Qed.

(** *** The [init] and the token of a turn *)

Lemma omap_insert_skipped {A B} (f : A → option B) (l : list A) (x : A) n :
  f x = None → omap f (take n l ++ x :: drop n l) = omap f l.
Proof.
  intros Hx. rewrite omap_app. cbn. rewrite Hx, <- omap_app.
  by rewrite take_drop.
Qed.

Lemma increments_no_token (incs : list Increment) :
  omap token_of (event_of <$> incs) = [].
Proof. induction incs as [|[] rest IH]; cbn; done. Qed.

Lemma completed_token (ref : string) (is_new : bool) incs d n tok :
  turn_summary_token
    (Init ref is_new :: (event_of <$> incs) ++ ending (Completed d n tok))
  = Some tok.
Proof.
  unfold turn_summary_token. cbn.
  by rewrite omap_app, increments_no_token.
Qed.

Lemma busy_no_init request_id flag incs outcome : ∀ i,
  omap init_of (busy request_id flag i incs outcome) = [].
Proof.
  induction incs as [|inc rest IH]; intros i; cbn [busy].
  - destruct (stop_hit _ _); [done | by destruct outcome].
  - destruct (stop_hit _ _); [done |]. cbn. rewrite IH. by destruct inc.
Qed.

(** The stream of a request holds one [init], which tells whether a
    resume token came with the envelope. *)
Lemma caller_stream_inits env svc stop :
  omap init_of (caller_stream env svc stop)
  = [(default (Service.conversation svc) (Envelope.resume_token env),
      bool_decide (Envelope.resume_token env = None))].
Proof.
  unfold caller_stream.
  assert (∀ flag, omap init_of (worker_events env svc flag)
                  = [(default (Service.conversation svc)
                              (Envelope.resume_token env),
                      bool_decide (Envelope.resume_token env = None))]) as H.
  { intros flag. unfold worker_events. cbn. by rewrite busy_no_init. }
  destruct stop as [st|]; [|apply H].
  by rewrite omap_insert_skipped.
Qed.

Lemma turn_summary_token_ack (events : list Event) n :
  turn_summary_token (take n events ++ StopAcknowledged :: drop n events)
  = turn_summary_token events.
Proof. unfold turn_summary_token. by rewrite omap_insert_skipped. Qed.

Lemma caller_stream_completed env svc stop d n tok :
  uninterrupted svc stop →
  Service.outcome svc = Completed d n tok →
  turn_summary_token (caller_stream env svc stop) = Some tok.
Proof.
  intros Hun Hout. unfold caller_stream.
  destruct stop as [[k a]|]; cbn in Hun |- *.
  - rewrite turn_summary_token_ack.
    rewrite worker_events_stopped, decide_False by lia.
    rewrite take_ge by lia. rewrite Hout. apply completed_token.
  - unfold worker_events. rewrite busy_no_stop, Hout. apply completed_token.
Qed.

End Turn.

Lemma C2_no_content_after_interrupted_witness :
  Protocol.caller_stream Protocol.sample_envelope Protocol.sample_service
                         (Some (Protocol.Stop.mk 1 2))
  = [Protocol.Init "conv-1" true; Protocol.Text "a"; Protocol.StopAcknowledged]
      ++ Protocol.Interrupted Protocol.STOP_REASON :: [Protocol.Done]
  ∧ [Protocol.Done] = [Protocol.Done]
  ∧ Forall (λ e, Protocol.is_content e = false) [Protocol.Done]
  ∧ Protocol.StopAcknowledged
      ∈ [Protocol.Init "conv-1" true; Protocol.Text "a";
         Protocol.StopAcknowledged].
Proof.
  assert (Protocol.caller_stream Protocol.sample_envelope Protocol.sample_service
                                 (Some (Protocol.Stop.mk 1 2))
          = [Protocol.Init "conv-1" true; Protocol.Text "a";
             Protocol.StopAcknowledged]
              ++ Protocol.Interrupted Protocol.STOP_REASON :: [Protocol.Done])
    as Hstream by (vm_compute; reflexivity).
  split; [exact Hstream |].
  exact (C2_no_content_after_interrupted _ _ _ _ _ _ Hstream).
Defined.

(** ** The Stop Flag (C5) *)

Section StopFlag.
Import Protocol.

Lemma stop_hit_other_tag request_id other k i :
  other ≠ request_id →
  stop_hit other (request_stop request_id k i) = false.
Proof.
  intros Hne. unfold stop_hit, request_stop.
  destruct (decide (k ≤ i)); apply bool_decide_eq_false_2; congruence.
Qed.

(** A worker ignores a flag that is tagged with another request. *)
Lemma busy_other_tag request_id other k incs outcome : ∀ i,
  other ≠ request_id →
  busy other (request_stop request_id k) i incs outcome
  = busy other no_stop i incs outcome.
Proof.
  induction incs as [|inc rest IH]; intros i Hne; cbn [busy];
    rewrite stop_hit_other_tag by done;
    change (stop_hit other (no_stop i)) with false; cbn; [done |].
  by rewrite IH.
Qed.

(** C5: the stop request of the caller for the request in flight writes
    the Stop Flag with the [request_id] of that request as its tag: the
    flag shows no other tag, and it shows this one from the moment it is
    written.  The worker checks the tag: the worker of the request that is
    meant appends the increments it got before it saw the flag and then
    [interrupted] and [done], and a worker that serves a request with
    another [request_id] goes on as if there were no flag.  It is this
    flag that the worker of the request sees when the caller asks to
    stop. *)
Theorem C5_stop_flag_tagged (env : Envelope.t) (svc : Service.t) (st : Stop.t) :
  let flag := flag_of (Envelope.request_id env) (Some st) in
  (∀ i tag, flag i = Some tag →
            tag = Envelope.request_id env ∧ Stop.seen_at st ≤ i)
  ∧ (∀ i, Stop.seen_at st ≤ i → flag i = Some (Envelope.request_id env))
  ∧ worker_events env svc flag
    = (Init (default (Service.conversation svc) (Envelope.resume_token env))
            (bool_decide (Envelope.resume_token env = None))
         :: (event_of <$> take (Stop.seen_at st) (Service.increments svc)))
        ++ (if decide (Stop.seen_at st ≤ length (Service.increments svc))
            then [Interrupted STOP_REASON; Done]
            else ending (Service.outcome svc))
  ∧ (∀ (other : Envelope.t) (svc' : Service.t),
       Envelope.request_id other ≠ Envelope.request_id env →
       worker_events other svc' flag = worker_events other svc' no_stop)
  ∧ caller_stream env svc (Some st)
    = (let pos := Stop.received st `min` S (Stop.seen_at st) in
       take pos (worker_events env svc flag)
         ++ StopAcknowledged :: drop pos (worker_events env svc flag)).
Proof.
  intros flag. subst flag. cbn [flag_of].
  split; [|split; [|split; [|split; [|done]]]].
  - intros i tag. unfold request_stop.
    destruct (decide (Stop.seen_at st ≤ i)); [|done]. by intros [= <-].
  - intros i Hi. unfold request_stop. by rewrite decide_True.
  - apply worker_events_stopped.
  - intros other svc' Hne. unfold worker_events.
    by rewrite busy_other_tag.
Qed.
End StopFlag.

Lemma C5_stop_flag_tagged_witness :
  Protocol.Envelope.request_id
    (Protocol.Envelope.mk "r2" "s2" None "Hi" [])
  ≠ Protocol.Envelope.request_id Protocol.sample_envelope
  ∧ Protocol.worker_events Protocol.sample_envelope Protocol.sample_service
      (Protocol.flag_of "r1" (Some (Protocol.Stop.mk 1 2)))
    = [Protocol.Init "conv-1" true; Protocol.Text "a";
       Protocol.Interrupted Protocol.STOP_REASON; Protocol.Done]
  ∧ Protocol.worker_events (Protocol.Envelope.mk "r2" "s2" None "Hi" [])
      Protocol.sample_service
      (Protocol.flag_of "r1" (Some (Protocol.Stop.mk 1 2)))
    = Protocol.worker_events (Protocol.Envelope.mk "r2" "s2" None "Hi" [])
        Protocol.sample_service Protocol.no_stop.
Proof.
  assert (Protocol.Envelope.request_id
            (Protocol.Envelope.mk "r2" "s2" None "Hi" [])
          ≠ Protocol.Envelope.request_id Protocol.sample_envelope) as Hne
    by discriminate.
  destruct (C5_stop_flag_tagged Protocol.sample_envelope
              Protocol.sample_service (Protocol.Stop.mk 1 2))
    as (_ & _ & Hworker & Hother & _).
  split; [exact Hne |]. split; [exact Hworker |].
  exact (Hother (Protocol.Envelope.mk "r2" "s2" None "Hi" [])
                Protocol.sample_service Hne).
Defined.

(** ** The dispatch of a request, end to end (C1, C7) *)

Section Dispatch.
Import Protocol.
Variable parse : list Byte.byte → option Event.
Variable encode : Event → list Byte.byte.
Variable threshold : nat.
Variable log0 : list Byte.byte.

(** *** Records written with the record format *)

Lemma response_bytes_cons e events :
  response_bytes encode (e :: events)
  = encode e ++ Byte.x0a :: response_bytes encode events.
Proof. unfold response_bytes, frame. cbn. by rewrite <- app_assoc. Qed.


(** The records found in the first bytes of the log of a request are the
    first events of the request. *)
Lemma scan_events_prefix events :
  codec parse encode events →
  ∀ n, ∃ j, (scan parse [] (take n (response_bytes encode events))).1
            = take j events.
Proof.
  induction 1 as [|e events [Hp Hu] _ IH]; intros n.
  - exists 0. unfold response_bytes. cbn. by rewrite take_nil.
  - rewrite response_bytes_cons.
    destruct (decide (n ≤ length (encode e))) as [Hle | Hgt].
    + exists 0. rewrite take_app_le by done.
      rewrite (scan_partial parse); [done |]. by apply Forall_take.
    + rewrite take_app_ge by lia.
      replace (n - length (encode e)) with (S (n - S (length (encode e))))
        by lia.
      cbn [take]. rewrite (scan_record parse) by done. cbn. rewrite Hp. cbn.
      destruct (IH (n - S (length (encode e)))) as [j Hj].
      exists (S j). cbn. by rewrite Hj.
Qed.

Lemma mjoin_cut sizes : ∀ bytes,
  mjoin (cut sizes bytes) = take (sum_list sizes) bytes.
Proof.
  induction sizes as [|n sizes IH]; intros bytes; [by rewrite take_0 |].
  cbn. by rewrite IH, take_take_drop.
Qed.

Lemma mjoin_polls sizes bytes :
  mjoin (request_polls threshold sizes bytes) = take (sum_list sizes) bytes.
Proof. unfold request_polls. by rewrite mjoin_quiet, mjoin_cut. Qed.

(** What has been written before some poll is a beginning of the log. *)
Lemma polls_before sizes bytes before after :
  request_polls threshold sizes bytes = before ++ after →
  mjoin before = take (length (mjoin before)) bytes.
Proof.
  intros H. pose proof (mjoin_polls sizes bytes) as Hj.
  rewrite H, join_app in Hj.
  assert (length (mjoin before) ≤ sum_list sizes) as Hlen.
  { apply (f_equal length) in Hj. rewrite length_app, length_take in Hj. lia. }
  apply (f_equal (take (length (mjoin before)))) in Hj.
  rewrite take_app_length, take_take in Hj.
  by rewrite Nat.min_l in Hj by done.
Qed.

(** *** The events of a request *)

Lemma upto_done_flag events : Done ∈ events → (upto_done events).2 = true.
Proof.
  induction events as [|e rest IH]; [by intros ?%elem_of_nil |].
  intros Hin. cbn. destruct (is_done e) eqn:Hd; [done |]. cbn.
  apply elem_of_cons in Hin as [He | Hin]; [by subst e | by apply IH].
Qed.

Lemma upto_done_split events :
  ∃ tail, events = (upto_done events).1 ++ tail.
Proof.
  induction events as [|e rest [tail IH]]; [by exists [] |]. cbn.
  destruct (is_done e); cbn; [by exists rest |].
  exists tail. by rewrite <- IH.
Qed.

(** A beginning of the events that holds a [done] ends where the events
    do. *)
Lemma upto_done_take events : ∀ j,
  (upto_done (take j events)).2 = true →
  upto_done (take j events) = upto_done events.
Proof.
  induction events as [|e rest IH]; intros j; [by rewrite take_nil |].
  destruct j as [|j]; [done |]. cbn.
  destruct (is_done e); [done |]. cbn. intros H. by rewrite IH.
Qed.

Lemma busy_ends request_id flag incs outcome : ∀ i,
  ∃ body, busy request_id flag i incs outcome = body ++ [Done]
        ∧ (Done ∉ body)
        ∧ omap init_of body = [].
Proof.
  induction incs as [|inc rest IH]; intros i; cbn [busy].
  - destruct (stop_hit _ _).
    + exists [Interrupted STOP_REASON]. split; [done |].
      split; [|done]. by apply not_elem_of_cons; split; [|apply not_elem_of_nil].
    + destruct outcome as [d n tok | msg].
      * exists [Result d n tok]. split; [done |]. split; [|done].
        by apply not_elem_of_cons; split; [|apply not_elem_of_nil].
      * exists [Error msg]. split; [done |]. split; [|done].
        by apply not_elem_of_cons; split; [|apply not_elem_of_nil].
  - destruct (stop_hit _ _).
    + exists [Interrupted STOP_REASON]. split; [done |].
      split; [|done]. by apply not_elem_of_cons; split; [|apply not_elem_of_nil].
    + destruct (IH (S i)) as (body & -> & Hnd & Hni).
      exists (event_of inc :: body). split; [done |]. split.
      * apply not_elem_of_cons. split; [by destruct inc | done].
      * cbn. rewrite Hni. by destruct inc.
Qed.

(** The events of a request hold one [done]; behind it stands nothing, or
    the acknowledgement of a stop that was asked for after the turn had
    ended. *)
Lemma caller_stream_done env svc stop :
  ∃ body tail,
    caller_stream env svc stop = body ++ Done :: tail
    ∧ (Done ∉ body)
    ∧ (tail = [] ∨ tail = [StopAcknowledged])
    ∧ (upto_done (caller_stream env svc stop)) = (body ++ [Done], true).
Proof.
  assert (∀ body tail, Done ∉ body →
            upto_done (body ++ Done :: tail) = (body ++ [Done], true)) as Hup.
  { intros body tail Hnd. rewrite (upto_done_app _ _ Hnd). done. }
  assert (∀ flag, ∃ w, worker_events env svc flag = w ++ [Done] ∧ Done ∉ w)
    as Hw.
  { intros flag. unfold worker_events.
    destruct (busy_ends (Envelope.request_id env) flag (Service.increments svc)
                (Service.outcome svc) 0) as (body & -> & Hnd & _).
    exists (Init (default (Service.conversation svc) (Envelope.resume_token env))
                 (bool_decide (Envelope.resume_token env = None)) :: body).
    split; [done |]. by apply not_elem_of_cons. }
  unfold caller_stream.
  destruct (Hw (flag_of (Envelope.request_id env) stop)) as (w & -> & Hnd).
  destruct stop as [st|].
  2: { exists w, []. split; [done |]. split; [done |]. split; [by left |].
       by apply Hup. }
  set (pos := Stop.received st `min` S (Stop.seen_at st)).
  destruct (decide (pos ≤ length w)) as [Hle | Hgt].
  - exists (take pos w ++ StopAcknowledged :: drop pos w), [].
    rewrite take_app_le, drop_app_le by done.
    assert (Done ∉ take pos w ++ StopAcknowledged :: drop pos w) as Hnd'.
    { rewrite elem_of_app, elem_of_cons.
      intros [H | [H | H]]; [| done |].
      - by apply Hnd, (subseteq_take pos w).
      - by apply Hnd, (subseteq_drop pos w). }
    split; [by rewrite <- !app_assoc |]. split; [done |]. split; [by left |].
    rewrite <- (Hup _ [] Hnd'). by rewrite <- !app_assoc.
  - exists w, [StopAcknowledged].
    rewrite take_ge, drop_ge by (rewrite length_app; cbn; lia).
    split; [by rewrite <- app_assoc |]. split; [done |]. split; [by right |].
    rewrite <- app_assoc. by apply Hup.
Qed.

Lemma caller_stream_upto_done env svc stop :
  omap init_of (upto_done (caller_stream env svc stop)).1
  = omap init_of (caller_stream env svc stop)
  ∧ turn_summary_token (upto_done (caller_stream env svc stop)).1
    = turn_summary_token (caller_stream env svc stop).
Proof.
  destruct (caller_stream_done env svc stop)
    as (body & tail & Heq & _ & Htail & Hup).
  rewrite Hup, Heq. cbn [fst]. unfold turn_summary_token.
  rewrite !omap_app. cbn. by destruct Htail as [-> | ->].
Qed.

Lemma omap_take_prefix {A B} (f : A → option B) (l : list A) j :
  omap f (take j l) `prefix_of` omap f l.
Proof.
  exists (omap f (drop j l)). by rewrite <- omap_app, take_drop.
Qed.

(** *** The stream of a request that is relayed *)

Lemma relayed_stopped sizes bytes :
  Relay.stopped
    (relay_run parse threshold (request_polls threshold sizes bytes) (Relay.init log0))
  = true.
Proof.
  unfold request_polls. rewrite relay_run_app. apply relay_run_silent; lia.
Qed.

(** The relay of a request ends with the [worker_stalled] error behind
    the first events of the request, after [threshold + 1] polls without
    new bytes, or it delivers the events of the request up to [done]. *)
Lemma relayed_cases sizes events :
  codec parse encode events →
  (∃ before after j,
     request_polls threshold sizes (response_bytes encode events)
     = before ++ replicate (S threshold) [] ++ after
     ∧ relayed parse encode threshold log0 sizes events
       = take j events ++ [Error WORKER_STALLED]
     ∧ take j events = (scan parse [] (mjoin before)).1
     ∧ Done ∉ take j events)
  ∨ ((upto_done events).2 = true
     ∧ relayed parse encode threshold log0 sizes events = (upto_done events).1).
Proof.
  intros Hcodec. unfold relayed.
  set (bytes := response_bytes encode events).
  destruct (relay_run_state parse threshold log0 (request_polls threshold sizes bytes))
    as [_ Hout].
  unfold relay_outcome in Hout. rewrite relayed_stopped in Hout.
  destruct Hout as [(before & after & Hps & Hdel & Hnd)
                   | (before & chunk & after & Hps & Hflag & Hdel & Hnd)].
  - left. pose proof (polls_before _ _ _ _ Hps) as Hpre.
    destruct (scan_events_prefix events Hcodec (length (mjoin before)))
      as [j Hj].
    fold bytes in Hj. rewrite <- Hpre in Hj.
    exists before, after, j. rewrite Hj. by rewrite <- Hj.
  - right.
    assert (request_polls threshold sizes bytes = (before ++ [chunk]) ++ after) as Hps'
      by (by rewrite <- app_assoc).
    pose proof (polls_before _ _ _ _ Hps') as Hpre.
    destruct (scan_events_prefix events Hcodec
                (length (mjoin (before ++ [chunk])))) as [j Hj].
    fold bytes in Hj. rewrite <- Hpre in Hj.
    rewrite Hj in Hflag, Hdel.
    pose proof (upto_done_take _ _ Hflag) as Htake.
    rewrite Htake in Hflag, Hdel. done.
Qed.


(** The stream of a dispatched request is the events of the request up
    to [done]; or, on the warm path, a beginning of them without [done]
    and the [worker_stalled] error, after [threshold + 1] polls without new
    bytes; or the [dispatch_failed] error alone, when the write to the
    mailbox failed. *)
Lemma dispatch_stream (sizes : list nat)
    (store : gmap string string) (ready write_ok : bool)
    (request_id session_id prompt : string) (attachments : list string)
    (svc : Service.t) (stop : option Stop.t) :
  let events :=
    caller_stream (Envelope.mk request_id session_id (store !! session_id)
                               prompt attachments) svc stop in
  let stream :=
    (dispatch parse encode threshold log0 sizes store ready write_ok
              request_id session_id prompt attachments svc stop).1 in
  codec parse encode events →
  stream = (upto_done events).1
  ∨ (ready = true ∧ write_ok = true
     ∧ ∃ j before after,
         stream = take j events ++ [Error WORKER_STALLED]
         ∧ (Done ∉ take j events)
         ∧ request_polls threshold sizes (response_bytes encode events)
           = before ++ replicate (S threshold) [] ++ after
         ∧ take j events = (scan parse [] (mjoin before)).1)
  ∨ (ready = true ∧ write_ok = false ∧ stream = [Error DISPATCH_FAILED]).
Proof.
  intros events stream Hcodec. subst stream. unfold dispatch. cbn [fst].
  fold events. destruct ready, write_ok; [| by right; right | by left..].
  destruct (relayed_cases sizes events Hcodec)
    as [(before & after & j & Hps & Hrel & Hj & Hnd) | [_ Hrel]]; [|by left].
  right. left. split; [done |]. split; [done |]. by exists j, before, after.
Qed.


Lemma singleton_prefix {A} (l : list A) (x : A) :
  l `prefix_of` [x] → l = [] ∨ l = [x].
Proof.
  intros [k Hk]. destruct l as [|y [|z l]]; [by left | | done].
  right. by simplify_eq/=.
Qed.

(** C7 (amended): the stream of a dispatch holds at most one [init] event,
    and that event tells the truth about the store: its [is_new] is [false]
    when a resume token is stored for the session and [true] when none is.
    A stream that ends with [done] holds exactly that [init].  When no
    token is stored, the stream ends with [done], the turn was not
    interrupted and the service completed it, the token of the turn
    summary is stored for the session: the store has exactly one record
    more, that of the session, and the records of the other sessions are
    as before.  A stream that does not end with [done] leaves the store as
    it was. *)
Theorem C7_resume_init_and_record (sizes : list nat)
    (store : gmap string string) (ready write_ok : bool)
    (request_id session_id prompt : string) (attachments : list string)
    (svc : Service.t) (stop : option Stop.t) :
  let events :=
    caller_stream (Envelope.mk request_id session_id (store !! session_id)
                               prompt attachments) svc stop in
  let result :=
    dispatch parse encode threshold log0 sizes store ready write_ok
             request_id session_id prompt attachments svc stop in
  let init :=
    (default (Service.conversation svc) (store !! session_id),
     bool_decide (store !! session_id = None)) in
  codec parse encode events →
  (omap init_of result.1 = [] ∨ omap init_of result.1 = [init])
  ∧ (last result.1 = Some Done → omap init_of result.1 = [init])
  ∧ (∀ T, store !! session_id = Some T →
          last result.1 = Some Done →
          omap init_of result.1 = [(T, false)])
  ∧ (∀ d n tok,
       store !! session_id = None →
       last result.1 = Some Done →
       uninterrupted svc stop →
       Service.outcome svc = Completed d n tok →
       omap init_of result.1 = [(Service.conversation svc, true)]
       ∧ result.2 = <[session_id := tok]> store
       ∧ size result.2 = S (size store)
       ∧ ∀ other, other ≠ session_id → result.2 !! other = store !! other)
  ∧ (last result.1 ≠ Some Done → result.2 = store).
Proof.
  intros events result init Hcodec.
  set (env := Envelope.mk request_id session_id (store !! session_id)
                          prompt attachments) in *.
  pose proof (caller_stream_inits env svc stop) as Hinits.
  cbn [Envelope.resume_token env] in Hinits. fold events init in Hinits.
  destruct (caller_stream_upto_done env svc stop) as [Hui Hut].
  fold events in Hui, Hut.
  pose proof (dispatch_stream sizes store ready write_ok request_id session_id
                prompt attachments svc stop Hcodec) as Hcases.
  fold env events in Hcases. fold result in Hcases.
  assert (last result.1 = Some Done → result.1 = (upto_done events).1) as Hdone.
  { destruct Hcases as [H | [(_ & _ & j & before & after & H & _)
                            | (_ & _ & H)]]; [done |..];
      rewrite H; [rewrite last_snoc |]; done. }
  assert (last result.1 = Some Done → omap init_of result.1 = [init]) as Hone.
  { intros H. by rewrite (Hdone H), Hui. }
  split; [|split; [done |split; [|split]]].
  - destruct Hcases as [H | [(_ & _ & j & before & after & H & _)
                            | (_ & _ & H)]]; rewrite H.
    + right. by rewrite Hui.
    + rewrite omap_app.
      change (omap init_of [Error WORKER_STALLED]) with (@nil (string * bool)).
      rewrite app_nil_r.
      apply singleton_prefix. rewrite <- Hinits. apply omap_take_prefix.
    + by left.
  - intros T HT H. rewrite (Hone H). unfold init. by rewrite HT.
  - intros d n tok Hnone H Hun Hout.
    assert (result.2 = <[session_id := tok]> store) as Hstore.
    { unfold result, dispatch. cbn [snd].
      change (if ready then _ else _) with result.1.
      pose proof (caller_stream_completed env svc stop d n tok Hun Hout)
        as Htok.
      fold events in Htok. by rewrite H, (Hdone H), Hut, Htok. }
    rewrite (Hone H), Hstore. unfold init. rewrite Hnone.
    split; [done |]. split; [done |].
    split; [by apply map_size_insert_None |].
    intros other Hne. by apply lookup_insert_ne.
  - intros H. unfold result, dispatch. cbn [snd].
    change (if ready then _ else _) with result.1.
    destruct (last result.1) as [[]|]; done.
Qed.
End Dispatch.

(** The sample format reads back the events of the sample turn. *)
Lemma sample_codec_first :
  Protocol.codec Protocol.sample_parse Protocol.sample_encode
    (Protocol.caller_stream
       (Protocol.Envelope.mk "r1" "s1" ((∅ : gmap string string) !! "s1")
                             "Hello" [])
       Protocol.sample_service None).
Proof.
  change ((∅ : gmap string string) !! "s1") with (@None string).
  vm_compute Protocol.caller_stream. unfold Protocol.codec.
  repeat (constructor; [split; [vm_compute; reflexivity | repeat constructor] |]).
  constructor.
Qed.



(** A worker that stops writing in the middle of its second record: the
    stream ends with the [worker_stalled] error behind the [init]. *)
Example dispatch_stalled_worker :
  (Protocol.dispatch Protocol.sample_parse Protocol.sample_encode 3 []
     [9; 1] ∅ true true "r1" "s1" "Hello" []
     Protocol.sample_service None).1
  = [Protocol.Init "conv-1" true; Protocol.Error Protocol.WORKER_STALLED].
Proof. vm_compute. reflexivity. Qed.

(** C7 (as stated, refuted): a resume token is stored for the session, and
    yet the dispatch produces no [init] event: the write to the mailbox
    fails and the stream is the [dispatch_failed] error alone; or the
    worker writes nothing for more polls than the threshold and the stream
    is the [worker_stalled] error alone. *)
Lemma C7_failed_write_counterexample :
  (<["s1" := "conv-1"]> (∅ : gmap string string)) !! "s1" = Some "conv-1"
  ∧ (Protocol.dispatch Protocol.sample_parse Protocol.sample_encode 3 [] [40]
       (<["s1" := "conv-1"]> ∅) true false "r2" "s1" "What did I just say?" []
       Protocol.sample_service None).1
    = [Protocol.Error Protocol.DISPATCH_FAILED]
  ∧ omap Protocol.init_of [Protocol.Error Protocol.DISPATCH_FAILED] = []
  ∧ (Protocol.dispatch Protocol.sample_parse Protocol.sample_encode 3 [] [0; 0; 0; 0; 40]
       (<["s1" := "conv-1"]> ∅) true true "r2" "s1" "What did I just say?" []
       Protocol.sample_service None).1
    = [Protocol.Error Protocol.WORKER_STALLED].
Proof. repeat split; vm_compute; reflexivity. Qed.

(** The sample format reads back the events of the turn that follows. *)
Lemma sample_codec_second :
  Protocol.codec Protocol.sample_parse Protocol.sample_encode
    (Protocol.caller_stream
       (Protocol.Envelope.mk "r2" "s1"
          ((<["s1" := "conv-1"]> (∅ : gmap string string)) !! "s1")
          "What did I just say?" [])
       Protocol.sample_service None).
Proof.
  change ((<["s1" := "conv-1"]> (∅ : gmap string string)) !! "s1")
    with (Some "conv-1").
  vm_compute Protocol.caller_stream. unfold Protocol.codec.
  repeat (constructor; [split; [vm_compute; reflexivity | repeat constructor] |]).
  constructor.
Qed.

Lemma C7_resume_init_and_record_witness :
  let first :=
    Protocol.dispatch Protocol.sample_parse Protocol.sample_encode 3 []
      [40] ∅ true true "r1" "s1" "Hello" [] Protocol.sample_service None in
  let second :=
    Protocol.dispatch Protocol.sample_parse Protocol.sample_encode 3 []
      [40] (<["s1" := "conv-1"]> ∅) true true "r2" "s1"
      "What did I just say?" [] Protocol.sample_service None in
  (∅ : gmap string string) !! "s1" = None
  ∧ last first.1 = Some Protocol.Done
  ∧ Protocol.uninterrupted Protocol.sample_service None
  ∧ omap Protocol.init_of first.1 = [("conv-1", true)]
  ∧ first.2 = <["s1" := "conv-1"]> ∅
  ∧ size first.2 = 1
  ∧ (<["s1" := "conv-1"]> (∅ : gmap string string)) !! "s1" = Some "conv-1"
  ∧ last second.1 = Some Protocol.Done
  ∧ omap Protocol.init_of second.1 = [("conv-1", false)].
Proof.
  intros first second.
  assert (last first.1 = Some Protocol.Done) as Hdone1
    by (vm_compute; reflexivity).
  assert (last second.1 = Some Protocol.Done) as Hdone2
    by (vm_compute; reflexivity).
  destruct (C7_resume_init_and_record Protocol.sample_parse
              Protocol.sample_encode 3 [] [40] ∅ true true "r1" "s1"
              "Hello" [] Protocol.sample_service None sample_codec_first)
    as (_ & _ & _ & Hfirst & _).
  destruct (Hfirst 1500%Z 1%Z "conv-1" eq_refl Hdone1 I eq_refl)
    as (Hinit & Hstore & Hsize & _).
  destruct (C7_resume_init_and_record Protocol.sample_parse
              Protocol.sample_encode 3 [] [40] (<["s1" := "conv-1"]> ∅)
              true true "r2" "s1" "What did I just say?" []
              Protocol.sample_service None sample_codec_second)
    as (_ & _ & Hsecond & _).
  split; [reflexivity |]. split; [exact Hdone1 |]. split; [exact I |].
  split; [exact Hinit |]. split; [exact Hstore |]. split; [exact Hsize |].
  split; [reflexivity |]. split; [exact Hdone2 |].
  exact (Hsecond "conv-1" eq_refl Hdone2).
Defined.

(** The second turn of the session finds the token of the first and is
    no new conversation. *)
Example dispatch_second_turn :
  omap Protocol.init_of
       (Protocol.dispatch Protocol.sample_parse Protocol.sample_encode 3 []
          [40] (<["s1" := "conv-1"]> ∅) true true "r2" "s1"
          "What did I just say?" [] Protocol.sample_service None).1
  = [("conv-1", false)].
Proof. vm_compute. reflexivity. Qed.

(** ** A streamed turn, from the first event to the [complete] frame *)

Lemma map_current_snoc (f : Message.t → Message.t) mid old m :
  Forall (λ x, Message.id x ≠ mid) old → Message.id m = mid →
  map (λ msg, if is_current (Some mid) msg then f msg else msg) (old ++ [m])
  = old ++ [f m].
Proof.
  intros Hold Hm. rewrite map_app. cbn. f_equal.
  - induction Hold as [|x old Hx _ IH]; [done |]. cbn. rewrite IH. f_equal.
    unfold is_current. rewrite bool_decide_eq_false_2; [done |]. congruence.
  - unfold is_current. by rewrite bool_decide_eq_true_2 by congruence.
Qed.

Lemma find_block_of_call u blocks : ∀ i tc,
  Forall block_wf blocks →
  list_find (call_matches u) (calls_of blocks) = Some (i, tc) →
  ∃ j b, list_find (block_matches u) blocks = Some (j, b)
       ∧ ContentBlock.toolCall b = Some tc
       ∧ ∀ upd, calls_of (<[j := ContentBlock.mk (ContentBlock.type b)
                                   (ContentBlock.text b) (Some upd)]> blocks)
                = <[i := upd]> (calls_of blocks)
              ∧ Forall block_wf
                  (<[j := ContentBlock.mk (ContentBlock.type b)
                             (ContentBlock.text b) (Some upd)]> blocks).
Proof.
  induction blocks as [|b0 rest IH]; intros i tc Hwf Hfind; [done |].
  apply Forall_cons in Hwf as [Hb0 Hwf].
  unfold calls_of in *. cbn in Hfind. unfold block_wf in Hb0.
  destruct (ContentBlock.toolCall b0) as [c|] eqn:Hc.
  - cbn in Hfind. destruct (decide (call_matches u c)) as [Hm | Hm].
    + simplify_eq. exists 0, b0. cbn.
      rewrite decide_True by (split; [done | by rewrite Hc]).
      split; [done |]. split; [done |]. intros upd. cbn. rewrite Hc. cbn.
      split; [done |]. constructor; [by unfold block_wf | done].
    + destruct (list_find _ (omap _ rest)) as [[i' tc']|] eqn:Hrest; [|done].
      cbn in Hfind. simplify_eq.
      destruct (IH _ _ Hwf eq_refl) as (j & b & Hj & Hb & Hupd).
      exists (S j), b. cbn.
      rewrite decide_False by (intros [_ H]; rewrite Hc in H; by apply Hm).
      rewrite Hj. cbn. split; [done |]. split; [done |]. intros upd.
      destruct (Hupd upd) as [H1 H2]. cbn. rewrite Hc. cbn.
      split; [f_equal; exact H1 |].
      constructor; [by unfold block_wf; rewrite Hc | done].
  - destruct (IH _ _ Hwf Hfind) as (j & b & Hj & Hb & Hupd).
    exists (S j), b. cbn.
    rewrite decide_False by (intros [H _]; congruence).
    rewrite Hj. cbn. split; [done |]. split; [done |]. intros upd.
    destruct (Hupd upd) as [H1 H2]. cbn. rewrite Hc.
    split; [exact H1 |]. constructor; [by unfold block_wf; rewrite Hc | done].
Qed.

Section StreamedTurn.
Variable uuid : nat → string.
Hypothesis uuid_truthy : ∀ n, truthy (uuid n) = true.

Lemma handle_turn_inv e mid s :
  turn_inv mid s → turn_inv mid (handleStreamEvent uuid e s).
Proof.
  intros (Hid & Ht & Hsync & Hwf & m & Hlast & Hmid & Hrole & Hstr & Hc & Hb & Htc).
  unfold handleStreamEvent, turn_inv. rewrite Hid.
  destruct (StreamEvent.type e) eqn:Hty.
  all: try (cbn; repeat split; try done; by eexists; eauto 10).
  - (* text *)
    cbn. rewrite (last_map_current _ mid _ m Hlast Hmid).
    unfold calls_of in *. rewrite omap_app. cbn. rewrite app_nil_r.
    repeat split; try done.
    + apply Forall_app. split; [done |]. by repeat constructor.
    + eexists. split; [done |]. cbn. repeat split; done.
  - (* tool_use *)
    assert (∀ s0,
      Hook.toolCallsRef s0 = Hook.toolCallsRef s →
      Hook.contentBlocksRef s0 = Hook.contentBlocksRef s →
      Hook.messages s0 = Hook.messages s →
      Hook.streamingMessageIdRef s0 = Some mid →
      Hook.accumulatedContentRef s0 = Hook.accumulatedContentRef s →
      turn_inv mid
        (Hook.setStreamingStatus
           (λ _, StreamingStatus.mk true (StreamEvent.tool e) (StreamEvent.input e))
           (updateMessageContentBlocks (Some mid)
              (Hook.setContentBlocks
                 (Hook.contentBlocksRef
                    (Hook.setToolCalls
                       (Hook.toolCallsRef s0 ++ [newToolCall uuid (Hook.drawn s) e]) s0)
                  ++ [ContentBlock.mk tool_call None
                        (Some (newToolCall uuid (Hook.drawn s) e))])
                 (Hook.setToolCalls
                    (Hook.toolCallsRef s0 ++ [newToolCall uuid (Hook.drawn s) e]) s0))))) as Hgen.
    { intros s0 H1 H2 H3 H4 H5. unfold turn_inv. cbn.
      rewrite H1, H2, H3, (last_map_current _ mid _ m Hlast Hmid).
      unfold calls_of in *. rewrite omap_app. cbn. rewrite Hsync.
      repeat split; try done.
      - apply Forall_app. split; [done |]. by repeat constructor.
      - eexists. split; [done |]. cbn. rewrite H5. repeat split; done. }
    destruct (needs_uuid e); apply Hgen; done.
  - (* tool_result *)
    destruct (list_find _ (Hook.toolCallsRef s)) as [[i tc]|] eqn:Hfind.
    2: { cbn. repeat split; try done. by eexists; eauto 10. }
    rewrite Hsync in Hfind.
    destruct (find_block_of_call _ _ _ _ Hwf Hfind) as (j & b & Hj & Hbtc & Hupd).
    destruct (Hupd (settle e tc)) as [Hcalls Hwf'].
    cbn. rewrite Hj. cbn.
    rewrite (last_map_current _ mid _ m Hlast Hmid).
    split; [done |]. split; [done |].
    split; [rewrite Hsync; symmetry; exact Hcalls |].
    split; [exact Hwf' |].
    eexists. split; [done |]. cbn. repeat split; done.
  - (* interrupted *)
    cbn. rewrite (last_map_current _ mid _ m Hlast Hmid).
    unfold calls_of in *. rewrite omap_app. cbn. rewrite app_nil_r.
    repeat split; try done.
    + apply Forall_app. split; [done |]. by repeat constructor.
    + eexists. split; [done |]. cbn. repeat split; done.
Qed.

Lemma start_turn_inv ts s :
  ref_truthy (Hook.streamingMessageIdRef s) = false →
  turn_inv (uuid (Hook.drawn s)) (startStreamingMessage uuid ts s).
Proof.
  intros Hf. unfold startStreamingMessage, turn_inv. rewrite Hf. cbn.
  repeat split; try done.
  eexists. split; [apply last_snoc |]. done.
Qed.

Lemma turn_inv_started ts mid s :
  turn_inv mid s → startStreamingMessage uuid ts s = s.
Proof.
  intros (Hid & Ht & _). unfold startStreamingMessage.
  by rewrite Hid; cbn; rewrite Ht.
Qed.

Lemma runStream_turn_inv events : ∀ mid s,
  turn_inv mid s → turn_inv mid (runStream uuid events s).
Proof.
  induction events as [|[e ts] rest IH]; intros mid s Hs; [done |].
  cbn [runStream foldl fst snd].
  change (foldl _ ?s0 rest) with (runStream uuid rest s0).
  apply IH. unfold onStream. rewrite (turn_inv_started ts mid s Hs).
  by apply handle_turn_inv.
Qed.

Lemma stream_turn_inv events s0 :
  ref_truthy (Hook.streamingMessageIdRef s0) = false →
  events ≠ [] →
  turn_inv (uuid (Hook.drawn s0)) (runStream uuid events s0).
Proof.
  intros Hf Hne. destruct events as [|[e ts] rest]; [done |].
  rewrite (runStream_fresh uuid uuid_truthy e ts rest s0 Hf).
  apply runStream_turn_inv. by apply start_turn_inv.
Qed.

(** The messages before the streaming one are not touched. *)
Lemma handle_history e mid old m s :
  Hook.streamingMessageIdRef s = Some mid →
  Forall (λ x, Message.id x ≠ mid) old →
  Hook.messages s = old ++ [m] → Message.id m = mid →
  ∃ m', Hook.messages (handleStreamEvent uuid e s) = old ++ [m']
      ∧ Message.id m' = mid.
Proof.
  intros Hid Hold Hmsgs Hmid. unfold handleStreamEvent. rewrite Hid.
  destruct (StreamEvent.type e) eqn:Hty; cbn.
  all: try (by exists m).
  - rewrite Hmsgs, (map_current_snoc _ mid old m Hold Hmid). by eexists.
  - destruct (needs_uuid e); cbn;
      rewrite Hmsgs, (map_current_snoc _ mid old m Hold Hmid); by eexists.
  - destruct (list_find _ (Hook.toolCallsRef s)) as [[i tc]|]; cbn; [|by exists m].
    destruct (list_find _ (Hook.contentBlocksRef s)) as [[j b]|]; cbn;
      rewrite Hmsgs, (map_current_snoc _ mid old m Hold Hmid); by eexists.
  - rewrite Hmsgs, (map_current_snoc _ mid old m Hold Hmid). by eexists.
Qed.

Lemma runStream_history events : ∀ mid old m s,
  turn_inv mid s →
  Forall (λ x, Message.id x ≠ mid) old →
  Hook.messages s = old ++ [m] → Message.id m = mid →
  ∃ m', Hook.messages (runStream uuid events s) = old ++ [m']
      ∧ Message.id m' = mid.
Proof.
  induction events as [|[e ts] rest IH]; intros mid old m s Hs Hold Hmsgs Hmid.
  - by exists m.
  - cbn [runStream foldl fst snd].
    change (foldl _ ?s0 rest) with (runStream uuid rest s0).
    unfold onStream. rewrite (turn_inv_started ts mid s Hs).
    destruct (handle_history e mid old m s) as (m1 & Hm1 & Hid1); try done.
    { by destruct Hs. }
    eapply IH; [by apply handle_turn_inv | done | exact Hm1 | done].
Qed.

Lemma runStream_appends events s0 :
  ref_truthy (Hook.streamingMessageIdRef s0) = false →
  events ≠ [] →
  Forall (λ x, Message.id x ≠ uuid (Hook.drawn s0)) (Hook.messages s0) →
  ∃ m, Hook.messages (runStream uuid events s0) = Hook.messages s0 ++ [m]
     ∧ Message.id m = uuid (Hook.drawn s0).
Proof.
  intros Hf Hne Hold.
  destruct events as [|[e ts] rest]; [done |].
  rewrite (runStream_fresh uuid uuid_truthy e ts rest s0 Hf).
  destruct (start_fresh uuid uuid_truthy ts s0 Hf) as (_ & _ & _ & _ & _ & Hmsgs).
  apply (runStream_history ((e, ts) :: rest) (uuid (Hook.drawn s0))
           (Hook.messages s0) (placeholder (uuid (Hook.drawn s0)) ts)
           (startStreamingMessage uuid ts s0)); try done.
  by apply start_turn_inv.
Qed.

(** X1: a stream of events that starts with no message in progress appends
    exactly one message, the streaming assistant message with the fresh
    id, and leaves every earlier message as it was. *)
Theorem stream_appends_one_message events s0 :
  ref_truthy (Hook.streamingMessageIdRef s0) = false →
  events ≠ [] →
  Forall (λ x, Message.id x ≠ uuid (Hook.drawn s0)) (Hook.messages s0) →
  ∃ m, Hook.messages (runStream uuid events s0) = Hook.messages s0 ++ [m]
     ∧ Message.id m = uuid (Hook.drawn s0)
     ∧ Message.role m = assistant
     ∧ Message.isStreaming m = Some true.
Proof.
  intros Hf Hne Hold.
  destruct (runStream_appends events s0 Hf Hne Hold) as (m & Hm & Hidm).
  exists m. split; [exact Hm |]. split; [exact Hidm |].
  destruct (stream_turn_inv events s0 Hf Hne)
    as (_ & _ & _ & _ & m' & Hlast & _ & Hrole & Hstr & _).
  rewrite Hm, last_snoc in Hlast. by simplify_eq.
Qed.

(** X2: during a stream the list of tool calls is the list of calls held by
    the content blocks, in the same order and with the same status, in the
    refs and in the streaming message alike. *)
Theorem tool_calls_match_blocks events s0 :
  ref_truthy (Hook.streamingMessageIdRef s0) = false →
  events ≠ [] →
  Hook.toolCallsRef (runStream uuid events s0)
  = calls_of (Hook.contentBlocksRef (runStream uuid events s0))
  ∧ Forall block_wf (Hook.contentBlocksRef (runStream uuid events s0))
  ∧ ∃ m, last (Hook.messages (runStream uuid events s0)) = Some m
       ∧ Message.contentBlocks m
         = Some (Hook.contentBlocksRef (runStream uuid events s0))
       ∧ Message.toolCalls m
         = Some (calls_of (Hook.contentBlocksRef (runStream uuid events s0))).
Proof.
  intros Hf Hne.
  destruct (stream_turn_inv events s0 Hf Hne)
    as (_ & _ & Hsync & Hwf & m & Hlast & _ & _ & _ & _ & Hb & Htc).
  split; [done |]. split; [done |]. exists m. by rewrite <- Hsync.
Qed.

Lemma handle_sent e s :
  Hook.sent (handleStreamEvent uuid e s) = Hook.sent s
  ∧ Hook.isLoading (handleStreamEvent uuid e s) = Hook.isLoading s
  ∧ Hook.timerRunning (handleStreamEvent uuid e s) = Hook.timerRunning s
  ∧ Hook.wsRef (handleStreamEvent uuid e s) = Hook.wsRef s.
Proof.
  unfold handleStreamEvent.
  destruct (StreamEvent.type e); cbn; try done.
  - by destruct (needs_uuid e).
  - destruct (list_find _ (Hook.toolCallsRef s)) as [[i tc]|]; cbn; [|done].
    by destruct (list_find _ (Hook.contentBlocksRef s)) as [[j b]|].
Qed.

Lemma runStream_sent events : ∀ s,
  Hook.sent (runStream uuid events s) = Hook.sent s
  ∧ Hook.isLoading (runStream uuid events s) = Hook.isLoading s
  ∧ Hook.timerRunning (runStream uuid events s) = Hook.timerRunning s
  ∧ Hook.wsRef (runStream uuid events s) = Hook.wsRef s.
Proof.
  induction events as [|[e ts] rest IH]; intros s; [done |].
  cbn [runStream foldl fst snd].
  change (foldl _ ?s0 rest) with (runStream uuid rest s0).
  destruct (IH (onStream uuid e ts s)) as (-> & -> & -> & ->).
  unfold onStream.
  destruct (handle_sent e (startStreamingMessage uuid ts s)) as (-> & -> & -> & ->).
  unfold startStreamingMessage.
  by destruct (ref_truthy _).
Qed.

(** X4: a whole turn on an open socket, [sendMessage], the streamed events
    and the [complete] frame, adds two messages to the history: the user
    message and one assistant message, which carries the content of the
    [complete] frame and the blocks built from the events, and is no longer
    streaming; one frame was sent, and loading, timer and streaming id are
    reset. *)
Theorem turn_round_trip (now text : string)
    (mentions : option (list (string * string))) (role : Role)
    (content ts : string) events s :
  not_connected s = false →
  events ≠ [] →
  Forall (λ x, Message.id x ≠ uuid (S (Hook.drawn s))) (Hook.messages s) →
  uuid (Hook.drawn s) ≠ uuid (S (Hook.drawn s)) →
  ∃ m, Hook.messages
         (onComplete uuid role content ts
            (runStream uuid events (sendMessage uuid now text mentions s)))
       = Hook.messages s
           ++ [userMessage (uuid (Hook.drawn s)) now text mentions; m]
     ∧ Message.id m = uuid (S (Hook.drawn s))
     ∧ Message.role m = assistant
     ∧ Message.content m = content
     ∧ Message.isStreaming m = Some false
     ∧ message_keys m
       = Some (expected_keys uuid (S (S (Hook.drawn s))) events.*1)
     ∧ Message.toolCalls m = calls_of <$> Message.contentBlocks m
     ∧ Hook.isLoading
         (onComplete uuid role content ts
            (runStream uuid events (sendMessage uuid now text mentions s)))
       = false
     ∧ Hook.timerRunning
         (onComplete uuid role content ts
            (runStream uuid events (sendMessage uuid now text mentions s)))
       = false
     ∧ Hook.streamingMessageIdRef
         (onComplete uuid role content ts
            (runStream uuid events (sendMessage uuid now text mentions s)))
       = None
     ∧ Hook.sent
         (onComplete uuid role content ts
            (runStream uuid events (sendMessage uuid now text mentions s)))
       = Hook.sent s ++ [chat_payload text mentions].
Proof.
  intros Hopen Hne Hold Hdiff.
  set (s1 := sendMessage uuid now text mentions s).
  assert (Hook.messages s1
          = Hook.messages s ++ [userMessage (uuid (Hook.drawn s)) now text mentions]
          ∧ Hook.streamingMessageIdRef s1 = None
          ∧ Hook.drawn s1 = S (Hook.drawn s)
          ∧ Hook.sent s1 = Hook.sent s ++ [chat_payload text mentions])
    as (Hm1 & Hid1 & Hn1 & Hsent1).
  { unfold s1, sendMessage. rewrite Hopen. done. }
  assert (ref_truthy (Hook.streamingMessageIdRef s1) = false) as Hf
    by (by rewrite Hid1).
  assert (Forall (λ x, Message.id x ≠ uuid (Hook.drawn s1)) (Hook.messages s1))
    as Hold1.
  { rewrite Hm1, Hn1. apply Forall_app. split; [done |].
    by repeat constructor. }
  destruct (runStream_appends events s1 Hf Hne Hold1) as (m0 & Hm0 & Hidm0).
  destruct (stream_turn_inv events s1 Hf Hne)
    as (Hid2 & Ht2 & Hsync & _ & m0' & Hlast & _ & Hrole0 & _ & _ & Hb & _).
  rewrite Hm0, last_snoc in Hlast. simplify_eq.
  destruct (stream_state uuid uuid_truthy events s1 Hf Hne) as (_ & _ & Hkeys & _).
  destruct (runStream_sent events s1) as (Hsent2 & _).
  unfold onComplete. rewrite Hid2. cbn [ref_truthy]. rewrite Ht2.
  cbn. rewrite Hm0, (map_current_snoc _ _ _ _ Hold1 Hidm0).
  eexists. split.
  { rewrite Hm1, <- app_assoc. cbn. reflexivity. }
  cbn. unfold message_keys. cbn.
  rewrite Hn1 in Hidm0, Hkeys. rewrite Hkeys, <- Hsync, Hsent2, Hsent1.
  repeat split; done.
Qed.

(** X3: a [tool_result] whose id was announced by a [tool_use] of the stream
    settles the first tool call with that id, and no other, and the calls
    of the content blocks follow. *)
Theorem matching_tool_result_settles_first events e ts s0 i :
  ref_truthy (Hook.streamingMessageIdRef s0) = false →
  events ≠ [] →
  StreamEvent.type e = Ttool_result →
  StreamEvent.tool_use_id e = Some i →
  i ∈ tool_use_ids uuid (S (Hook.drawn s0)) events.*1 →
  ∃ idx tc,
    Hook.toolCallsRef (runStream uuid events s0) !! idx = Some tc
    ∧ ToolCall.id tc = i
    ∧ (∀ j tc', j < idx →
          Hook.toolCallsRef (runStream uuid events s0) !! j = Some tc' →
          ToolCall.id tc' ≠ i)
    ∧ Hook.toolCallsRef (onStream uuid e ts (runStream uuid events s0))
      = <[idx := settle e tc]> (Hook.toolCallsRef (runStream uuid events s0))
    ∧ Hook.toolCallsRef (onStream uuid e ts (runStream uuid events s0))
      = calls_of
          (Hook.contentBlocksRef (onStream uuid e ts (runStream uuid events s0))).
Proof.
  intros Hf Hne Hty Hid Hin.
  destruct (stream_state uuid uuid_truthy events s0 Hf Hne) as (Hs & _ & _ & Hids).
  pose proof (stream_turn_inv events s0 Hf Hne) as Hinv.
  rewrite <- Hids in Hin. apply list_elem_of_fmap in Hin as (tc0 & Hi0 & Hin).
  destruct (list_find_elem_of (call_matches (StreamEvent.tool_use_id e))
              (Hook.toolCallsRef (runStream uuid events s0)) tc0 Hin)
    as [[idx tc] Hfind].
  { unfold call_matches. by rewrite Hid, Hi0. }
  pose proof Hfind as Hfind'.
  apply list_find_Some in Hfind' as (Hidx & Hmatch & Hfirst).
  exists idx, tc. split; [done |].
  unfold call_matches in Hmatch. rewrite Hid in Hmatch.
  split; [congruence |]. split.
  { intros j tc' Hj Hl Heq. apply (Hfirst j tc' Hl Hj).
    unfold call_matches. by rewrite Hid, Heq. }
  rewrite (onStream_streaming uuid e ts _ _ Hs).
  destruct (matched_tool_result uuid e _ idx tc Hty Hfind) as (Hupd & _).
  split; [done |].
  by destruct (handle_turn_inv e _ _ Hinv) as (_ & _ & Hsync & _).
Qed.
End StreamedTurn.


Lemma stream_appends_one_message_witness :
  (∀ n, truthy (sample_uuid n) = true)
  ∧ ref_truthy (Hook.streamingMessageIdRef (onopen Hook.initial)) = false
  ∧ sample_stream ≠ []
  ∧ Forall (λ x, Message.id x ≠ sample_uuid (Hook.drawn (onopen Hook.initial)))
           (Hook.messages (onopen Hook.initial))
  ∧ ∃ m, Hook.messages (runStream sample_uuid sample_stream (onopen Hook.initial))
         = Hook.messages (onopen Hook.initial) ++ [m]
       ∧ Message.id m = sample_uuid (Hook.drawn (onopen Hook.initial))
       ∧ Message.role m = assistant
       ∧ Message.isStreaming m = Some true.
Proof.
  split; [intros n; reflexivity |].
  split; [reflexivity |].
  split; [discriminate |].
  split; [apply Forall_nil_2 |].
  apply (stream_appends_one_message sample_uuid (λ n, eq_refl) sample_stream
                                    (onopen Hook.initial));
    [reflexivity | discriminate | apply Forall_nil_2].
Defined.

Lemma tool_calls_match_blocks_witness :
  (∀ n, truthy (sample_uuid n) = true)
  ∧ ref_truthy (Hook.streamingMessageIdRef Hook.initial) = false
  ∧ sample_stream ≠ []
  ∧ Hook.toolCallsRef (runStream sample_uuid sample_stream Hook.initial)
    = calls_of (Hook.contentBlocksRef
                  (runStream sample_uuid sample_stream Hook.initial))
  ∧ Forall block_wf
      (Hook.contentBlocksRef (runStream sample_uuid sample_stream Hook.initial))
  ∧ ∃ m, last (Hook.messages (runStream sample_uuid sample_stream Hook.initial))
         = Some m
       ∧ Message.contentBlocks m
         = Some (Hook.contentBlocksRef
                   (runStream sample_uuid sample_stream Hook.initial))
       ∧ Message.toolCalls m
         = Some (calls_of (Hook.contentBlocksRef
                             (runStream sample_uuid sample_stream Hook.initial))).
Proof.
  split; [intros n; reflexivity |].
  split; [reflexivity |].
  split; [discriminate |].
  apply (tool_calls_match_blocks sample_uuid (λ n, eq_refl) sample_stream
                                 Hook.initial);
    [reflexivity | discriminate].
Defined.

Lemma matching_tool_result_settles_first_witness :
  (∀ n, truthy (sample_uuid n) = true)
  ∧ ref_truthy (Hook.streamingMessageIdRef Hook.initial) = false
  ∧ tool_stream ≠ []
  ∧ StreamEvent.type (tool_result_event "t1" "ok") = Ttool_result
  ∧ StreamEvent.tool_use_id (tool_result_event "t1" "ok") = Some "t1"
  ∧ "t1" ∈ tool_use_ids sample_uuid (S (Hook.drawn Hook.initial)) tool_stream.*1
  ∧ ∃ idx tc,
      Hook.toolCallsRef (runStream sample_uuid tool_stream Hook.initial) !! idx
      = Some tc
      ∧ ToolCall.id tc = "t1"
      ∧ (∀ j tc', j < idx →
            Hook.toolCallsRef (runStream sample_uuid tool_stream Hook.initial) !! j
            = Some tc' →
            ToolCall.id tc' ≠ "t1")
      ∧ Hook.toolCallsRef
          (onStream sample_uuid (tool_result_event "t1" "ok")
                    "2026-01-01T00:00:02Z"
                    (runStream sample_uuid tool_stream Hook.initial))
        = <[idx := settle (tool_result_event "t1" "ok") tc]>
            (Hook.toolCallsRef (runStream sample_uuid tool_stream Hook.initial))
      ∧ Hook.toolCallsRef
          (onStream sample_uuid (tool_result_event "t1" "ok")
                    "2026-01-01T00:00:02Z"
                    (runStream sample_uuid tool_stream Hook.initial))
        = calls_of
            (Hook.contentBlocksRef
               (onStream sample_uuid (tool_result_event "t1" "ok")
                         "2026-01-01T00:00:02Z"
                         (runStream sample_uuid tool_stream Hook.initial))).
Proof.
  assert ("t1" ∈ tool_use_ids sample_uuid (S (Hook.drawn Hook.initial))
                              tool_stream.*1) as Hin
    by (vm_compute; apply list_elem_of_here).
  split; [intros n; reflexivity |].
  split; [reflexivity |].
  split; [discriminate |].
  split; [reflexivity |].
  split; [reflexivity |].
  split; [exact Hin |].
  apply (matching_tool_result_settles_first sample_uuid (λ n, eq_refl)
           tool_stream (tool_result_event "t1" "ok") "2026-01-01T00:00:02Z"
           Hook.initial "t1");
    [reflexivity | discriminate | reflexivity | reflexivity | exact Hin].
Defined.

Lemma turn_round_trip_witness :
  (∀ n, truthy (sample_uuid n) = true)
  ∧ not_connected (onopen Hook.initial) = false
  ∧ sample_stream ≠ []
  ∧ Forall (λ x, Message.id x
                 ≠ sample_uuid (S (Hook.drawn (onopen Hook.initial))))
           (Hook.messages (onopen Hook.initial))
  ∧ sample_uuid (Hook.drawn (onopen Hook.initial))
    ≠ sample_uuid (S (Hook.drawn (onopen Hook.initial)))
  ∧ ∃ m, Hook.messages
           (onComplete sample_uuid assistant "ab" "2026-01-01T00:00:03Z"
              (runStream sample_uuid sample_stream
                 (sendMessage sample_uuid "2026-01-01T00:00:00Z" "hello" None
                              (onopen Hook.initial))))
         = Hook.messages (onopen Hook.initial)
             ++ [userMessage (sample_uuid (Hook.drawn (onopen Hook.initial)))
                             "2026-01-01T00:00:00Z" "hello" None; m]
       ∧ Message.id m = sample_uuid (S (Hook.drawn (onopen Hook.initial)))
       ∧ Message.content m = "ab"
       ∧ Message.isStreaming m = Some false.
Proof.
  split; [intros n; reflexivity |].
  split; [reflexivity |].
  split; [discriminate |].
  split; [apply Forall_nil_2 |].
  split; [vm_compute; discriminate |].
  destruct (turn_round_trip sample_uuid (λ n, eq_refl)
              "2026-01-01T00:00:00Z" "hello" None assistant "ab"
              "2026-01-01T00:00:03Z" sample_stream (onopen Hook.initial))
    as (m & Hm & Hid & _ & Hcontent & Hstreaming & _);
    [reflexivity | discriminate | apply Forall_nil_2
    | vm_compute; discriminate |].
  exists m. split; [exact Hm |]. split; [exact Hid |].
  split; [exact Hcontent | exact Hstreaming].
Defined.

(** *** [parseTimestamp] *)
Lemma index_suffix_found (pat t : string) :
  String.prefix pat pat = true →
  pat ≠ EmptyString →
  String.index 0 pat (t +:+ pat) ≠ None.
Proof.
  intros Hp Hne. induction t as [|a t IH].
  - change (EmptyString +:+ pat) with pat.
    destruct pat as [|c pat]; [done |]. cbn [String.index]. by rewrite Hp.
  - change (String a t +:+ pat) with (String a (t +:+ pat)).
    cbn [String.index].
    destruct (String.prefix pat (String a (t +:+ pat))); [done |].
    by destruct (String.index 0 pat (t +:+ pat)).
Qed.

(** X5: the string from which [parseTimestamp] builds the date is the
    timestamp itself or the timestamp followed by ["Z"], and it always
    carries zone information: a ["+"], a ["Z"], or a ["-"] from index 10
    on. *)
Theorem parseTimestamp_has_zone (timestamp : string) :
  (parseTimestamp timestamp = timestamp
   ∨ parseTimestamp timestamp = timestamp +:+ "Z")
  ∧ includes_from 0 "+" (parseTimestamp timestamp)
    || includes_from 0 "Z" (parseTimestamp timestamp)
    || includes_from 10 "-" (parseTimestamp timestamp) = true.
Proof.
  assert (includes_from 0 "Z" (timestamp +:+ "Z") = true) as HZ.
  { unfold includes_from.
    pose proof (index_suffix_found "Z" timestamp eq_refl) as H.
    destruct (String.index 0 "Z" (timestamp +:+ "Z")); [done |].
    by destruct H. }
  unfold parseTimestamp.
  destruct (includes_from 0 "+" timestamp) eqn:H1; cbn [negb andb].
  { rewrite H1. split; [by left | done]. }
  destruct (includes_from 0 "Z" timestamp) eqn:H2; cbn [negb andb].
  { rewrite H1, H2. split; [by left | done]. }
  destruct (includes_from 10 "-" timestamp) eqn:H3; cbn [negb andb].
  - rewrite H1, H2, H3. split; [by left | done].
  - rewrite HZ. split; [by right |]. by rewrite orb_true_r.
Qed.

(** ** The session hook: warm-up, first selection, current session *)

Section SessionList.
Import SessionHook UseSession.

(** *** Warm-up *)
Lemma triggerWarmup_called sid ok s :
  (triggerWarmup sid ok s).2 = bool_decide (sid ∉ warmedSessions s)
  ∧ (sid ∈ warmedSessions (triggerWarmup sid ok s).1
     ↔ sid ∈ warmedSessions s ∨ ok = true).
Proof.
  unfold triggerWarmup. destruct (decide (sid ∈ warmedSessions s)) as [Hin | Hnin]; cbn.
  - rewrite bool_decide_eq_false_2 by tauto. tauto.
  - rewrite bool_decide_eq_true_2 by done.
    destruct ok; cbn.
    + rewrite elem_of_union, elem_of_singleton. intuition.
    + rewrite elem_of_difference, elem_of_union, elem_of_singleton.
      intuition congruence.
Qed.

Lemma warmups_warmed sid outcomes : ∀ s,
  sid ∈ warmedSessions s → (warmups sid outcomes s).2 = [].
Proof.
  induction outcomes as [|ok rest IH]; intros s Hin; [done |].
  cbn. unfold triggerWarmup at 1 2. rewrite decide_True by done. cbn.
  unfold triggerWarmup. rewrite decide_True by done. by apply IH.
Qed.

(** X6: however often [triggerWarmup] is called for a session, at most one
    warm-up request succeeds; none is made for a session already marked,
    and the first call for an unmarked session does make one. *)
Theorem warmup_succeeds_at_most_once sid outcomes s :
  length (filter (λ ok, ok = true) (warmups sid outcomes s).2) ≤ 1
  ∧ (sid ∈ warmedSessions s → (warmups sid outcomes s).2 = [])
  ∧ (∀ ok rest, outcomes = ok :: rest → sid ∉ warmedSessions s →
       head (warmups sid outcomes s).2 = Some ok).
Proof.
  split; [|split].
  - revert s. induction outcomes as [|ok rest IH]; intros s; [cbn; lia |].
    cbn [warmups]. cbn [fst snd].
    destruct (triggerWarmup_called sid ok s) as [Hc Hw].
    destruct ((triggerWarmup sid ok s).2) eqn:Hcall; [|apply IH].
    destruct ok.
    + rewrite warmups_warmed by (apply Hw; auto).
      rewrite filter_cons_True by done. cbn. lia.
    + rewrite filter_cons_False by done. apply IH.
  - apply warmups_warmed.
  - intros ok rest -> Hnin. cbn [warmups]. cbn [fst snd].
    destruct (triggerWarmup_called sid ok s) as [Hc _].
    rewrite Hc, bool_decide_eq_true_2 by done. done.
Qed.

(** X7: a successful upload takes the mark of the current session back, so
    that the next [triggerWarmup] requests a warm-up again; the marks of
    the other sessions are kept. *)
Theorem upload_clears_warmed uploaded cur s sid ok :
  session s = Some cur →
  (Session.id cur ∉ warmedSessions (handleUploadFiles (Some uploaded) s))
  ∧ (triggerWarmup (Session.id cur) ok (handleUploadFiles (Some uploaded) s)).2 = true
  ∧ (sid ≠ Session.id cur →
     (sid ∈ warmedSessions (handleUploadFiles (Some uploaded) s)
      ↔ sid ∈ warmedSessions s)).
Proof.
  intros Hs. unfold handleUploadFiles. rewrite Hs. cbn.
  assert (Session.id cur ∉ warmedSessions s ∖ {[Session.id cur]}) as Hnot.
  { rewrite elem_of_difference, elem_of_singleton. tauto. }
  split; [done |]. split.
  - unfold triggerWarmup. cbn. by rewrite decide_False.
  - intros Hne. rewrite elem_of_difference, elem_of_singleton. tauto.
Qed.

(** *** [initSessions] *)
Lemma head_insertByFiles x l :
  head (insertByFiles x l)
  = Some match head l with
         | Some y =>
             if (Session.file_count y <=? Session.file_count x)%Z then x else y
         | None => x
         end.
Proof. destruct l as [|y rest]; cbn; [done |]. by destruct (_ <=? _)%Z. Qed.

Lemma head_sortedByFiles l : head (sortedByFiles l) = first_max l.
Proof.
  induction l as [|x rest IH]; [done |].
  change (sortedByFiles (x :: rest)) with (insertByFiles x (sortedByFiles rest)).
  rewrite head_insertByFiles, IH. cbn. by destruct (first_max rest) as [y|]; [destruct (_ <=? _)%Z |].
Qed.

Lemma insertByFiles_perm x l : insertByFiles x l ≡ₚ x :: l.
Proof.
  induction l as [|y rest IH]; cbn; [done |].
  destruct (_ <=? _)%Z; [done |]. rewrite IH. apply Permutation_swap.
Qed.

Lemma sortedByFiles_perm l : sortedByFiles l ≡ₚ l.
Proof.
  induction l as [|x rest IH]; [done |].
  change (sortedByFiles (x :: rest)) with (insertByFiles x (sortedByFiles rest)).
  by rewrite insertByFiles_perm, IH.
Qed.

Lemma first_max_spec l best :
  first_max l = Some best →
  ∃ pre post, l = pre ++ best :: post
    ∧ Forall (λ y, (Session.file_count y < Session.file_count best)%Z) pre
    ∧ Forall (λ y, (Session.file_count y ≤ Session.file_count best)%Z) post.
Proof.
  revert best. induction l as [|x rest IH]; intros best Hbest; [done |].
  cbn in Hbest. destruct (first_max rest) as [y|] eqn:Hrest.
  - destruct (IH y eq_refl) as (pre & post & -> & Hpre & Hpost).
    destruct (Session.file_count y <=? Session.file_count x)%Z eqn:Hle;
      simplify_eq.
    + apply Z.leb_le in Hle. exists [], (pre ++ y :: post).
      split; [done |]. split; [constructor |].
      apply Forall_app. split.
      * eapply Forall_impl; [exact Hpre |]. cbn. intros; lia.
      * constructor; [done |]. eapply Forall_impl; [exact Hpost |]. cbn. intros; lia.
    + apply Z.leb_gt in Hle. exists (x :: pre), post.
      split; [done |]. split; [constructor; [lia | exact Hpre] | exact Hpost].
  - simplify_eq. destruct rest as [|z rest']; [|cbn in Hrest; destruct (first_max rest') as [w|];
        [destruct (_ <=? _)%Z |]; done].
    exists [], []. repeat split; constructor.
Qed.

(** X8: when sessions exist, [initSessions] lists them as received and
    selects the first one among those with the largest file count; its
    files are loaded only when that count is positive. *)
Theorem initSessions_selects_most_files ex fileList created s :
  ex ≠ [] →
  sessions (initSessions (Some ex) fileList created s) = ex
  ∧ ∃ best pre post,
      session (initSessions (Some ex) fileList created s) = Some best
      ∧ ex = pre ++ best :: post
      ∧ Forall (λ y, (Session.file_count y < Session.file_count best)%Z) pre
      ∧ Forall (λ y, (Session.file_count y ≤ Session.file_count best)%Z) post
      ∧ files (initSessions (Some ex) fileList created s)
        = (if (0 <? Session.file_count best)%Z
           then default (files s) fileList else files s).
Proof.
  intros Hne. unfold initSessions.
  destruct ex as [|x rest]; [done |].
  rewrite head_sortedByFiles.
  destruct (first_max (x :: rest)) as [best|] eqn:Hbest.
  2: { cbn in Hbest. by destruct (first_max rest) as [y|]; [destruct (_ <=? _)%Z |]. }
  destruct (first_max_spec _ _ Hbest) as (pre & post & Heq & Hpre & Hpost).
  destruct (0 <? Session.file_count best)%Z eqn:Hpos.
  - destruct fileList as [fl|]; cbn; (split; [done |]);
      exists best, pre, post; rewrite Hpos; done.
  - cbn. split; [done |]. exists best, pre, post. rewrite Hpos. done.
Qed.

(** *** The current session stays listed *)
Lemma setFileCount_listed cur n s files' warmed' :
  session s = Some cur →
  current_listed s →
  current_listed (setFileCount (Session.id cur) n s files' warmed').
Proof.
  intros Hs [Hin | Hnil]; [left | right; cbn; by rewrite Hnil].
  cbn. rewrite Hs. cbn. intros ? [= <-].
  apply list_elem_of_fmap. exists cur. split; [|by apply Hin].
  by rewrite String.eqb_refl.
Qed.

Lemma apply_current_listed op s : current_listed s → current_listed (apply op s).
Proof.
  intros Hinv. destruct op; cbn.
  - (* initSessions *)
    unfold initSessions. destruct existing as [ex|]; [|done].
    destruct ex as [|x rest].
    + destruct created; [|by right]. left. cbn. intros ? [= <-].
      apply list_elem_of_here.
    + rewrite head_sortedByFiles.
      destruct (first_max (x :: rest)) as [best|] eqn:Hbest; [|by left].
      destruct (first_max_spec _ _ Hbest) as (pre & post & Heq & _).
      assert (best ∈ x :: rest) as Hin.
      { rewrite Heq. apply elem_of_app. right. apply list_elem_of_here. }
      destruct (0 <? Session.file_count best)%Z; [destruct fileList |];
        left; cbn; by intros ? [= <-].
  - (* switchSession *)
    unfold switchSession, find_session.
    destruct (list_find _ (sessions s)) as [[i target]|] eqn:Hfind; cbn; [|done].
    apply list_find_Some in Hfind as (Hi & _). left. cbn. intros ? [= <-].
    by eapply list_elem_of_lookup_2.
  - (* create *)
    unfold handleCreateSession. destruct created as [new|]; [|done].
    left. cbn. intros ? [= <-]. apply elem_of_app. right. apply list_elem_of_here.
  - (* rename *)
    unfold handleRenameSession. destruct updated as [u|]; [|done].
    destruct Hinv as [Hin | Hnil].
    2: { right. destruct (has_id _ _); cbn; by rewrite Hnil. }
    left. unfold has_id. destruct (session s) as [cur|] eqn:Hs;
      [|cbn; by rewrite Hs].
    specialize (Hin cur eq_refl).
    destruct (String.eqb (Session.id cur) sessionId) eqn:Heq; cbn.
    + intros ? [= <-]. apply list_elem_of_fmap. exists cur. by rewrite Heq.
    + rewrite Hs. intros ? [= <-]. apply list_elem_of_fmap. exists cur.
      by rewrite Heq.
  - (* delete session *)
    unfold handleDeleteSession. destruct ok; [|done].
    unfold has_id. destruct (session s) as [cur|] eqn:Hs.
    2: { left. cbn. by rewrite Hs. }
    destruct (String.eqb (Session.id cur) sessionId) eqn:Heq.
    + destruct (filter _ (sessions s)) as [|first rest] eqn:Hf.
      * destruct created as [new|]; [|right; cbn; by rewrite Hf].
        left. cbn. intros ? [= <-]. apply list_elem_of_here.
      * destruct fileList; left; cbn; rewrite Hf; intros ? [= <-];
          apply list_elem_of_here.
    + destruct Hinv as [Hin | Hnil]; [|right; cbn; by rewrite Hnil].
      left. cbn. rewrite Hs. intros ? [= <-].
      apply list_elem_of_filter. split; [|by apply Hin].
      apply String.eqb_neq in Heq. done.
  - (* refresh *)
    unfold refreshFiles. by destruct (session s), fileList.
  - (* upload *)
    unfold handleUploadFiles, handleUploadFiles_closure.
    destruct (session s) as [cur|] eqn:Hs; [|done].
    destruct uploaded; [|done]. by apply setFileCount_listed.
  - (* delete file *)
    unfold handleDeleteFile, handleDeleteFile_closure.
    destruct (session s) as [cur|] eqn:Hs; [|done].
    destruct ok; [|done]. by apply setFileCount_listed.
  - (* warm *)
    unfold triggerWarmup. by destruct (decide _).
Qed.

(** X9: after any sequence of calls of the hook, from its initial state, the
    current session is one of the listed sessions, unless the list is
    empty. *)
Theorem current_session_stays_listed ops :
  current_listed (UseSession.run ops UseSession.initial).
Proof.
  assert (∀ s, current_listed s → current_listed (UseSession.run ops s)) as H.
  { induction ops as [|op ops IH]; intros s Hs; [done |].
    cbn. apply IH. by apply apply_current_listed. }
  apply H. by right.
Qed.

End SessionList.

Lemma upload_clears_warmed_witness :
  SessionHook.session
    (UseSession.triggerWarmup "s1" true SessionHook.sample).1
  = Some (Session.mk "s1" "Curious Quest" 1)
  ∧ ("s1" ∈ SessionHook.warmedSessions
              (UseSession.triggerWarmup "s1" true SessionHook.sample).1)
  ∧ (UseSession.triggerWarmup "s1" true
       (SessionHook.handleUploadFiles (Some [FileInfo.mk "f2" "notes.txt"])
          (UseSession.triggerWarmup "s1" true SessionHook.sample).1)).2
    = true.
Proof.
  split; [reflexivity |].
  split; [vm_compute; reflexivity |].
  pose proof (upload_clears_warmed [FileInfo.mk "f2" "notes.txt"]
                (Session.mk "s1" "Curious Quest" 1)
                (UseSession.triggerWarmup "s1" true SessionHook.sample).1
                "s2" true eq_refl) as (_ & Hcall & _).
  exact Hcall.
Defined.

Lemma initSessions_selects_most_files_witness :
  [Session.mk "a" "Bold Task" 1; Session.mk "b" "Swift Quest" 3;
   Session.mk "c" "Jolly Chat" 3] ≠ []
  ∧ SessionHook.session
      (UseSession.initSessions
         (Some [Session.mk "a" "Bold Task" 1; Session.mk "b" "Swift Quest" 3;
                Session.mk "c" "Jolly Chat" 3])
         (Some [FileInfo.mk "f0" "data.csv"]) None UseSession.initial)
    = Some (Session.mk "b" "Swift Quest" 3)
  ∧ ∃ best pre post,
      SessionHook.session
        (UseSession.initSessions
           (Some [Session.mk "a" "Bold Task" 1; Session.mk "b" "Swift Quest" 3;
                  Session.mk "c" "Jolly Chat" 3])
           (Some [FileInfo.mk "f0" "data.csv"]) None UseSession.initial)
      = Some best
      ∧ [Session.mk "a" "Bold Task" 1; Session.mk "b" "Swift Quest" 3;
         Session.mk "c" "Jolly Chat" 3] = pre ++ best :: post
      ∧ Forall (λ y, (Session.file_count y < Session.file_count best)%Z) pre
      ∧ Forall (λ y, (Session.file_count y ≤ Session.file_count best)%Z) post.
Proof.
  split; [discriminate |].
  split; [vm_compute; reflexivity |].
  destruct (initSessions_selects_most_files
              [Session.mk "a" "Bold Task" 1; Session.mk "b" "Swift Quest" 3;
               Session.mk "c" "Jolly Chat" 3]
              (Some [FileInfo.mk "f0" "data.csv"]) None UseSession.initial)
    as (_ & best & pre & post & Hbest & Hsplit & Hpre & Hpost & _);
    [discriminate |].
  exists best, pre, post.
  split; [exact Hbest |]. split; [exact Hsplit |].
  split; [exact Hpre | exact Hpost].
Defined.

(** ** Mention detection in the chat input *)

Section MentionDetection.
Import MentionInput.


Lemma clamp_of_nat (n : nat) (s : Text) :
  clamp (Z.of_nat n) s = Nat.min n (length s).
Proof. unfold clamp. lia. Qed.

Lemma substring_prefix (n : nat) (s : Text) :
  substring 0 (Z.of_nat n) s = take n s.
Proof.
  unfold substring. rewrite (clamp_of_nat n), (clamp_of_nat 0).
  rewrite Nat.min_0_l, Nat.max_0_l, Nat.min_0_l, Nat.sub_0_r, drop_0.
  destruct (decide (n ≤ length s)).
  - by rewrite Nat.min_l by lia.
  - rewrite Nat.min_r by lia. by rewrite !take_ge by lia.
Qed.

Lemma substring_from_drop (n : nat) (s : Text) :
  substring_from (Z.of_nat n) s = drop n s.
Proof.
  unfold substring_from, substring. rewrite !clamp_of_nat, Nat.min_id.
  destruct (decide (n ≤ length s)).
  - rewrite (Nat.min_l n), Nat.min_l, Nat.max_r by lia.
    rewrite take_ge; [done |]. rewrite length_drop. lia.
  - rewrite (Nat.min_r n) by lia.
    rewrite Nat.min_id, Nat.max_id, Nat.sub_diag.
    rewrite !drop_ge by lia. done.
Qed.

Lemma lastIndexOf_range c s : (-1 ≤ lastIndexOf c s < Z.of_nat (length s))%Z.
Proof.
  induction s as [|x rest IH]; cbn [lastIndexOf length]; [lia |].
  destruct (0 <=? lastIndexOf c rest)%Z eqn:Hr; [lia |].
  destruct (Ascii.eqb x c); lia.
Qed.

Lemma lastIndexOf_found c s i :
  lastIndexOf c s = Z.of_nat i →
  s = take i s ++ c :: drop (S i) s ∧ c ∉ drop (S i) s.
Proof.
  revert i. induction s as [|x rest IH]; intros i; cbn [lastIndexOf]; [lia |].
  destruct (0 <=? lastIndexOf c rest)%Z eqn:Hr.
  - intros Hi. destruct i as [|j]; [pose proof (lastIndexOf_range c rest); lia |].
    destruct (IH j) as [Heq Hnot]; [lia |]. cbn. split; [by f_equal | done].
  - apply Z.leb_gt in Hr. destruct (Ascii.eqb x c) eqn:Hx; [|lia].
    apply Ascii.eqb_eq in Hx as ->. intros Hi.
    destruct i as [|j]; [|lia]. cbn. rewrite drop_0. split; [done |].
    clear IH Hi. induction rest as [|y rest IH]; [apply not_elem_of_nil |].
    cbn [lastIndexOf] in Hr.
    destruct (0 <=? lastIndexOf c rest)%Z eqn:Hr'; [lia |].
    destruct (Ascii.eqb y c) eqn:Hy; [lia |].
    apply Ascii.eqb_neq in Hy. apply not_elem_of_cons. split; [done |].
    apply IH. by apply Z.leb_gt in Hr'.
Qed.

Lemma cut_query (before query after t : Text) :
  t = before ++ AT :: query ++ after →
  substring 0 (Z.of_nat (length before)) t
  ++ substring_from (Z.of_nat (length before) + 1 + Z.of_nat (length query)) t
  = before ++ after.
Proof.
  intros ->. rewrite substring_prefix.
  replace (Z.of_nat (length before) + 1 + Z.of_nat (length query))%Z
    with (Z.of_nat (length before + 1 + length query)) by lia.
  rewrite substring_from_drop, take_app_length. f_equal.
  rewrite drop_app_ge by lia.
  replace (length before + 1 + length query - length before)
    with (S (length query)) by lia.
  cbn. by rewrite drop_app_length.
Qed.

(** X10: when [handleInputChange] opens the dropdown, the text reads
    [before ++ "@" ++ query ++ after] with the caret right after the query,
    and [selectMention] removes exactly ["@" ++ query]. *)
Theorem selectMention_cuts_query text selectionStart files s file :
  showMentionDropdown (handleInputChange text selectionStart files s) = true →
  let s' := handleInputChange text selectionStart files s in
  ∃ before after,
    text = before ++ AT :: mentionQuery s' ++ after
    ∧ mentionIndex s' = Z.of_nat (length before)
    ∧ after = drop (default 0 selectionStart) text
    ∧ (AT ∉ mentionQuery s') ∧ (SPACE ∉ mentionQuery s')
    ∧ (before = [] ∨ last before = Some SPACE ∨ last before = Some NEWLINE)
    ∧ files ≠ []
    ∧ input (selectMention file s') = before ++ after
    ∧ mentions (selectMention file s')
      = mentions s ++ [(FileInfo.id file, FileInfo.name file)]
    ∧ showMentionDropdown (selectMention file s') = false.
Proof.
  intros Hshow s'. subst s'. revert Hshow. unfold handleInputChange.
  set (cursor := default 0 selectionStart).
  rewrite substring_prefix.
  pose proof (lastIndexOf_range AT (take cursor text)) as Hrange.
  destruct (lastIndexOf AT (take cursor text) =? -1)%Z eqn:Hnone; [done |].
  apply Z.eqb_neq in Hnone.
  destruct (Z_of_nat_complete (lastIndexOf AT (take cursor text))) as [i Hi];
    [lia |].
  rewrite Hi in *.
  destruct (lastIndexOf_found _ _ _ Hi) as [Hsplit Hnot].
  replace (Z.of_nat i + 1)%Z with (Z.of_nat (S i)) by lia.
  rewrite substring_from_drop.
  set (query := drop (S i) (take cursor text)) in *.
  set (before := take i (take cursor text)) in *.
  assert (length before = i) as Hlen.
  { subst before. rewrite !length_take. rewrite length_take in Hrange. lia. }
  assert (text = before ++ AT :: query ++ drop cursor text) as Htext.
  { rewrite <- (take_drop cursor text) at 1. rewrite Hsplit at 1.
    by rewrite <- app_assoc. }
  match goal with |- context [if ?c then _ else _] => destruct c eqn:Hcond end;
    [|done].
  destruct (includes SPACE query) eqn:Hincl; [done |].
  destruct (0 <? length files) eqn:Hfiles; [|done].
  cbn. intros _. exists before, (drop cursor text).
  split; [exact Htext |]. split; [by rewrite Hlen |]. split; [done |].
  split; [exact Hnot |].
  split; [unfold includes in Hincl; by apply bool_decide_eq_false in Hincl |].
  split.
  { destruct (0 <? Z.of_nat i)%Z eqn:Hpos.
    - apply Z.ltb_lt in Hpos.
      replace (Z.to_nat (Z.of_nat i - 1)) with (i - 1) in Hcond by lia.
      assert (text !! (i - 1) = last before) as Hlast.
      { rewrite last_lookup, Hlen. replace (Nat.pred i) with (i - 1) by lia.
        transitivity ((before ++ AT :: query ++ drop cursor text) !! (i - 1)).
        - f_equal. exact Htext.
        - apply lookup_app_l. lia. }
      rewrite Hlast in Hcond.
      apply orb_true_iff in Hcond as [Hcond | Hz]; [|apply Z.eqb_eq in Hz; lia].
      apply orb_true_iff in Hcond as [H1 | H1]; apply bool_decide_eq_true in H1;
        auto.
    - apply Z.ltb_ge in Hpos. left. apply nil_length_inv. lia. }
  split; [destruct files; [done | done] |].
  split; [|done].
  rewrite <- Hlen. by apply cut_query.
Qed.

Lemma arrowDown_mod n prev :
  (0 ≤ prev < n)%Z → arrowDown n prev = ((prev + 1) mod n)%Z.
Proof.
  intros Hp. unfold arrowDown. destruct (prev <? n - 1)%Z eqn:Hlt.
  - apply Z.ltb_lt in Hlt. by rewrite Z.mod_small by lia.
  - apply Z.ltb_ge in Hlt. replace (prev + 1)%Z with n by lia.
    by rewrite Z.mod_same by lia.
Qed.

Lemma arrowDown_iter n prev k :
  (0 ≤ prev < n)%Z →
  Nat.iter k (arrowDown n) prev = ((prev + Z.of_nat k) mod n)%Z.
Proof.
  intros Hp. induction k as [|k IH].
  - cbn. rewrite Z.add_0_r. by rewrite Z.mod_small by lia.
  - rewrite Nat.iter_succ, IH.
    rewrite arrowDown_mod by (apply Z.mod_pos_bound; lia).
    rewrite Z.add_mod_idemp_l by lia. f_equal. lia.
Qed.

(** X11: the arrow keys move the highlighted entry inside the dropdown, undo
    each other, and ArrowDown comes back to the start after [n] presses
    and not before. *)
Theorem dropdown_arrows_cycle n prev :
  (0 ≤ prev < n)%Z →
  (0 ≤ arrowDown n prev < n)%Z ∧ (0 ≤ arrowUp n prev < n)%Z
  ∧ arrowUp n (arrowDown n prev) = prev
  ∧ arrowDown n (arrowUp n prev) = prev
  ∧ (∀ k, (0 < k < Z.to_nat n)%nat → Nat.iter k (arrowDown n) prev ≠ prev)
  ∧ Nat.iter (Z.to_nat n) (arrowDown n) prev = prev.
Proof.
  intros Hp.
  assert (arrowDown n prev = if (prev <? n - 1)%Z then (prev + 1)%Z else 0%Z)
    as Hdown by done.
  assert (arrowUp n prev = if (0 <? prev)%Z then (prev - 1)%Z else (n - 1)%Z)
    as Hup by done.
  split; [rewrite Hdown; destruct (Z.ltb_spec prev (n - 1)); lia |].
  split; [rewrite Hup; destruct (Z.ltb_spec 0 prev); lia |].
  split.
  { rewrite Hdown. unfold arrowUp.
    destruct (prev <? n - 1)%Z eqn:H1;
      [apply Z.ltb_lt in H1 | apply Z.ltb_ge in H1].
    - destruct (Z.ltb_spec 0 (prev + 1)); lia.
    - cbn. lia. }
  split.
  { rewrite Hup. unfold arrowDown.
    destruct (0 <? prev)%Z eqn:H1;
      [apply Z.ltb_lt in H1 | apply Z.ltb_ge in H1].
    - destruct (Z.ltb_spec (prev - 1) (n - 1)); lia.
    - rewrite Z.ltb_irrefl. lia. }
  clear Hdown Hup. split.
  - intros k Hk. rewrite arrowDown_iter by done.
    destruct (decide (prev + Z.of_nat k < n)%Z).
    + rewrite Z.mod_small by lia. lia.
    + replace (prev + Z.of_nat k)%Z with ((prev + Z.of_nat k - n) + 1 * n)%Z
        by lia.
      rewrite Z.mod_add by lia. rewrite Z.mod_small by lia. lia.
  - rewrite arrowDown_iter by done.
    rewrite Z2Nat.id by lia.
    replace (prev + n)%Z with (prev + 1 * n)%Z by lia.
    rewrite Z.mod_add by lia. by rewrite Z.mod_small by lia.
Qed.

End MentionDetection.

Lemma selectMention_cuts_query_witness :
  MentionInput.showMentionDropdown
    (MentionInput.handleInputChange
       (MentionInput.of_string "see @no now") (Some 7)
       [FileInfo.mk "f1" "notes.txt"]
       (MentionInput.mk [] [] false [] (-1) 0)) = true
  ∧ MentionInput.mentionQuery
      (MentionInput.handleInputChange
         (MentionInput.of_string "see @no now") (Some 7)
         [FileInfo.mk "f1" "notes.txt"]
         (MentionInput.mk [] [] false [] (-1) 0))
    = MentionInput.of_string "no"
  ∧ MentionInput.input
      (MentionInput.selectMention (FileInfo.mk "f1" "notes.txt")
         (MentionInput.handleInputChange
            (MentionInput.of_string "see @no now") (Some 7)
            [FileInfo.mk "f1" "notes.txt"]
            (MentionInput.mk [] [] false [] (-1) 0)))
    = MentionInput.of_string "see  now"
  ∧ ∃ before after,
      MentionInput.of_string "see @no now"
      = before ++ MentionInput.AT
          :: MentionInput.mentionQuery
               (MentionInput.handleInputChange
                  (MentionInput.of_string "see @no now") (Some 7)
                  [FileInfo.mk "f1" "notes.txt"]
                  (MentionInput.mk [] [] false [] (-1) 0))
          ++ after
      ∧ MentionInput.input
          (MentionInput.selectMention (FileInfo.mk "f1" "notes.txt")
             (MentionInput.handleInputChange
                (MentionInput.of_string "see @no now") (Some 7)
                [FileInfo.mk "f1" "notes.txt"]
                (MentionInput.mk [] [] false [] (-1) 0)))
        = before ++ after.
Proof.
  split; [vm_compute; reflexivity |].
  split; [vm_compute; reflexivity |].
  split; [vm_compute; reflexivity |].
  destruct (selectMention_cuts_query
              (MentionInput.of_string "see @no now") (Some 7)
              [FileInfo.mk "f1" "notes.txt"]
              (MentionInput.mk [] [] false [] (-1) 0)
              (FileInfo.mk "f1" "notes.txt"))
    as (before & after & Htext & _ & _ & _ & _ & _ & _ & Hinput & _);
    [vm_compute; reflexivity |].
  exists before, after. split; [exact Htext | exact Hinput].
Defined.

Lemma dropdown_arrows_cycle_witness :
  (0 ≤ 2 < 3)%Z
  ∧ MentionInput.arrowDown 3 2 = 0%Z
  ∧ MentionInput.arrowUp 3 (MentionInput.arrowDown 3 2) = 2%Z
  ∧ Nat.iter (Z.to_nat 3) (MentionInput.arrowDown 3) 2%Z = 2%Z.
Proof.
  split; [lia |].
  split; [reflexivity |].
  destruct (dropdown_arrows_cycle 3 2) as (_ & _ & Hud & _ & _ & Hcycle);
    [lia |].
  split; [exact Hud | exact Hcycle].
Defined.

(** ** Rendering of inline mentions *)

Section Rendering.
Import MentionInput Render.


Lemma name_run_no_bracket s : RBRACKET ∉ name_run s.
Proof.
  induction s as [|c rest IH]; cbn; [apply not_elem_of_nil |].
  destruct (Ascii.eqb c RBRACKET) eqn:Hc; [apply not_elem_of_nil |].
  apply Ascii.eqb_neq in Hc. apply not_elem_of_cons. split; [done | exact IH].
Qed.

Lemma name_run_prefix s : take (length (name_run s)) s = name_run s.
Proof.
  induction s as [|c rest IH]; cbn; [done |].
  destruct (Ascii.eqb c RBRACKET); cbn; [done | by f_equal].
Qed.

Lemma match_here_shape s name :
  match_here s = Some name →
  name ≠ [] ∧ (RBRACKET ∉ name)
  ∧ ∃ rest, s = AT :: LBRACKET :: name ++ RBRACKET :: rest.
Proof.
  unfold match_here. destruct s as [|a [|b rest]]; [done | done |].
  destruct (Ascii.eqb a AT) eqn:Ha; [|done].
  destruct (Ascii.eqb b LBRACKET) eqn:Hb; [|done].
  apply Ascii.eqb_eq in Ha as ->. apply Ascii.eqb_eq in Hb as ->. cbn.
  pose proof (name_run_no_bracket rest) as Hno.
  pose proof (name_run_prefix rest) as Hpre.
  destruct (name_run rest) as [|n0 name'] eqn:Hrun; [done |].
  cbn [length] in Hpre.
  destruct (drop (S (length name')) rest) as [|c rest'] eqn:Hdrop; [done |].
  destruct (Ascii.eqb c RBRACKET) eqn:Hc; [|done].
  apply Ascii.eqb_eq in Hc as ->. intros [= <-].
  split; [done |]. split; [done |]. exists rest'.
  do 2 f_equal. rewrite <- Hpre, <- Hdrop. by rewrite take_drop.
Qed.

Lemma substring_mid (a b : nat) (s : Text) :
  a ≤ b → b ≤ length s →
  substring (Z.of_nat a) (Z.of_nat b) s = take (b - a) (drop a s).
Proof.
  intros Hab Hb. unfold substring. rewrite !clamp_of_nat.
  rewrite (Nat.min_l a), (Nat.min_l b) by lia.
  by rewrite Nat.max_r, Nat.min_l by lia.
Qed.

Lemma keys_app (l1 l2 : list Part) : keys (l1 ++ l2) = keys l1 ++ keys l2.
Proof. apply omap_app. Qed.

Lemma source_app (l1 l2 : list Part) :
  concat (source <$> (l1 ++ l2)) = concat (source <$> l1) ++ concat (source <$> l2).
Proof. by rewrite fmap_app, concat_app. Qed.

Lemma push_match_keys text ms parts lastIndex :
  keys (foldl (push_match text) (parts, lastIndex) ms).1 = keys parts ++ ms.*1.
Proof.
  revert parts lastIndex. induction ms as [|m ms IH]; intros parts lastIndex.
  - cbn. by rewrite app_nil_r.
  - cbn [foldl].
    rewrite (surjective_pairing (push_match text (parts, lastIndex) m)), IH.
    unfold push_match. cbn [fst snd].
    rewrite keys_app. change (keys [Chip m.1 m.2]) with [m.1].
    rewrite fmap_cons, <- app_assoc. f_equal.
    destruct (lastIndex <? m.1); [|done].
    rewrite keys_app. change (keys [Plain _]) with (@nil nat).
    by rewrite app_nil_r.
Qed.

Lemma matchAll_from_sorted s pos skip :
  Forall (λ m, pos ≤ m.1) (matchAll_from s pos skip)
  ∧ StronglySorted lt (matchAll_from s pos skip).*1.
Proof.
  revert pos skip. induction s as [|c rest IH]; intros pos skip.
  - cbn. split; constructor.
  - cbn [matchAll_from]. destruct skip as [|k].
    + destruct (match_here (c :: rest)) as [name|].
      * destruct (IH (S pos) (length name + 2)) as [Hge Hs].
        split.
        -- constructor; [done |]. eapply Forall_impl; [exact Hge |].
           cbn. intros; lia.
        -- cbn. constructor; [exact Hs |]. apply Forall_fmap.
           eapply Forall_impl; [exact Hge |]. cbn. intros; lia.
      * destruct (IH (S pos) 0) as [Hge Hs]. split; [|done].
        eapply Forall_impl; [exact Hge |]. cbn. intros; lia.
    + destruct (IH (S pos) k) as [Hge Hs]. split; [|done].
      eapply Forall_impl; [exact Hge |]. cbn. intros; lia.
Qed.

Lemma name_run_app name rest :
  RBRACKET ∉ name → name_run (name ++ RBRACKET :: rest) = name.
Proof.
  induction name as [|c name IH]; intros Hno; cbn; [done |].
  apply not_elem_of_cons in Hno as [Hc Hno].
  destruct (Ascii.eqb c RBRACKET) eqn:Heq;
    [apply Ascii.eqb_eq in Heq; congruence |].
  by rewrite IH.
Qed.

Lemma match_here_intro name rest :
  name ≠ [] → RBRACKET ∉ name →
  match_here (AT :: LBRACKET :: name ++ RBRACKET :: rest) = Some name.
Proof.
  intros Hne Hno. unfold match_here.
  rewrite !Ascii.eqb_refl. cbn [andb]. rewrite name_run_app by done.
  destruct name as [|n0 name']; [done |].
  rewrite drop_app_length. by rewrite Ascii.eqb_refl.
Qed.

Lemma match_here_extend b c name :
  match_here b = Some name → match_here (b ++ c) = Some name.
Proof.
  intros Hm. destruct (match_here_shape _ _ Hm) as (Hne & Hno & rest & ->).
  replace ((AT :: LBRACKET :: name ++ RBRACKET :: rest) ++ c)
    with (AT :: LBRACKET :: name ++ RBRACKET :: (rest ++ c))
    by (cbn; by rewrite <- app_assoc).
  by apply match_here_intro.
Qed.

Lemma plain_mention_free text lastIndex pos :
  lastIndex ≤ pos → pos ≤ length text →
  (∀ p, lastIndex ≤ p < pos → match_here (drop p text) = None) →
  mention_free (Plain (take (pos - lastIndex) (drop lastIndex text))).
Proof.
  intros Hle Hpos Hnone a b Hab.
  destruct (match_here b) as [name|] eqn:Hm; [|done].
  assert (drop (lastIndex + length a) text = b ++ drop pos text) as Hdrop.
  { rewrite <- drop_drop.
    rewrite <- (take_drop (pos - lastIndex) (drop lastIndex text)) at 1.
    rewrite Hab, drop_drop, <- app_assoc, drop_app_length.
    do 2 f_equal. lia. }
  assert (length a + length b = pos - lastIndex) as Hlen.
  { rewrite <- length_app, <- Hab, length_take, length_drop. lia. }
  assert (b ≠ []) as Hb by (by intros ->).
  assert (0 < length b) by (destruct b; [done | cbn; lia]).
  rewrite <- (Hnone (lastIndex + length a)) by lia.
  rewrite Hdrop. symmetry. by apply match_here_extend.
Qed.

Lemma render_loop text s pos skip parts lastIndex pre :
  text = pre ++ s → length pre = pos → skip ≤ length s →
  lastIndex = pos + skip ∨ (skip = 0 ∧ lastIndex ≤ pos) →
  concat (source <$> parts) = take lastIndex text →
  Forall (well_formed text) parts →
  Forall mention_free parts →
  (∀ p, lastIndex ≤ p < pos → match_here (drop p text) = None) →
  let r := foldl (push_match text) (parts, lastIndex) (matchAll_from s pos skip) in
  concat (source <$> r.1) = take r.2 text ∧ r.2 ≤ length text
  ∧ Forall (well_formed text) r.1
  ∧ Forall mention_free r.1
  ∧ (∀ p, r.2 ≤ p < length text → match_here (drop p text) = None).
Proof.
  revert pos skip parts lastIndex pre.
  induction s as [|c rest IH]; intros pos skip parts lastIndex pre
    Htext Hpos Hskip Hlast Hsrc Hwf Hfree Hnone.
  - assert (length text = pos) as Hlen
      by (rewrite Htext, length_app; cbn; lia).
    cbn. split; [done |]. split; [cbn in *; lia |].
    split; [done |]. split; [done |]. rewrite Hlen. exact Hnone.
  - assert (text = (pre ++ [c]) ++ rest) as Htext'
      by (by rewrite <- app_assoc).
    assert (length (pre ++ [c]) = S pos) as Hpos'
      by (rewrite length_app; cbn; lia).
    cbn [matchAll_from]. destruct skip as [|k].
    + assert (lastIndex ≤ pos) as Hle by lia.
      destruct (match_here (c :: rest)) as [name|] eqn:Hm.
      * destruct (match_here_shape _ _ Hm) as (Hne & Hnob & rest' & Hshape).
        cbn [foldl].
        assert (pos + (length name + 3) ≤ length text) as Hend.
        { rewrite Htext, Hshape, length_app. cbn. rewrite length_app. cbn. lia. }
        assert (take (pos + (length name + 3)) text
                = take pos text ++ AT :: LBRACKET :: name ++ [RBRACKET]) as Htake.
        { rewrite Htext, Hshape, <- Hpos.
          rewrite take_app_length, take_app_add'  by done.
          f_equal.
          replace (length name + 3) with (S (S (length name + 1))) by lia.
          cbn. do 2 f_equal.
          replace (RBRACKET :: rest') with ([RBRACKET] ++ rest') by done.
          rewrite app_assoc.
          replace (length name + 1) with (length (name ++ [RBRACKET]))
            by (rewrite length_app; cbn; lia).
          by rewrite take_app_length. }
        injection Hshape as -> ->.
        set (parts1 := if lastIndex <? pos
                       then parts ++ [Plain (substring (Z.of_nat lastIndex)
                                               (Z.of_nat pos) text)]
                       else parts).
        change (push_match text (parts, lastIndex) (pos, name))
          with (parts1 ++ [Chip pos name], pos + (length name + 3)).
        assert (concat (source <$> parts1) = take pos text
                ∧ Forall (well_formed text) parts1
                ∧ Forall mention_free parts1) as (Hsrc1 & Hwf1 & Hfree1).
        { subst parts1. destruct (lastIndex <? pos) eqn:Hlt.
          - apply Nat.ltb_lt in Hlt. rewrite source_app. cbn.
            rewrite app_nil_r, Hsrc, substring_mid by lia.
            rewrite take_take_drop. split; [f_equal; lia |].
            split; apply Forall_app; (split; [done |]); (constructor; [|done]).
            + left. intros Hnil. apply (f_equal length) in Hnil.
              rewrite length_take, length_drop in Hnil. cbn in Hnil. lia.
            + apply plain_mention_free; [lia | lia | exact Hnone].
          - apply Nat.ltb_ge in Hlt. rewrite Hsrc. split; [f_equal; lia | done]. }
        apply (IH (S pos) (length name + 2) (parts1 ++ [Chip pos name])
                 (pos + (length name + 3)) (pre ++ [AT]) Htext' Hpos').
        -- cbn. rewrite length_app. cbn. lia.
        -- left. lia.
        -- rewrite source_app, Hsrc1, Htake. cbn. by rewrite app_nil_r.
        -- apply Forall_app. split; [done |]. constructor; [|done]. done.
        -- apply Forall_app. split; [done |]. constructor; [|done]. done.
        -- intros p Hp. lia.
      * apply (IH (S pos) 0 parts lastIndex (pre ++ [c]) Htext' Hpos');
          try done; [cbn in Hskip; lia | right; lia |].
        intros p Hp. destruct (decide (p = pos)) as [-> | Hne];
          [|apply Hnone; lia].
        by rewrite Htext, <- Hpos, drop_app_length.
    + apply (IH (S pos) k parts lastIndex (pre ++ [c]) Htext' Hpos');
          try done; [cbn in Hskip; lia | left; lia |].
        intros p Hp. lia.
Qed.

(** X12: the nodes produced by [renderTextWithMentions] spell out the text
    again, a chip standing for ["@[" ++ name ++ "]"]; every chip names a
    non-empty file name without ["]"], no plain node is empty unless the
    text is, no mention is left in a plain node, and the React keys of the
    chips are strictly increasing. *)
Theorem renderTextWithMentions_round_trip text :
  concat (source <$> renderTextWithMentions text) = text
  ∧ Forall (well_formed text) (renderTextWithMentions text)
  ∧ Forall mention_free (renderTextWithMentions text)
  ∧ StronglySorted lt (keys (renderTextWithMentions text)).
Proof.
  unfold renderTextWithMentions, matchAll.
  destruct (render_loop text text 0 0 [] 0 [] eq_refl eq_refl (Nat.le_0_l _)
              (or_introl eq_refl) eq_refl (Forall_nil_2 _) (Forall_nil_2 _))
    as (Hsrc & Hle & Hwf & Hfree & Hnone); [intros p Hp; lia |].
  pose proof (push_match_keys text (matchAll_from text 0 0) [] 0) as Hkeys.
  destruct (matchAll_from_sorted text 0 0) as [_ Hsorted].
  destruct (foldl (push_match text) ([], 0) (matchAll_from text 0 0))
    as [parts lastIndex].
  cbn [fst snd] in *.
  set (parts' := if lastIndex <? length text
                 then parts ++ [Plain (substring_from (Z.of_nat lastIndex) text)]
                 else parts).
  assert (concat (source <$> parts') = text
          ∧ Forall (well_formed text) parts'
          ∧ Forall mention_free parts'
          ∧ keys parts' = keys parts) as (Hsrc' & Hwf' & Hfree' & Hkeys').
  { subst parts'. destruct (lastIndex <? length text) eqn:Hlt.
    - apply Nat.ltb_lt in Hlt. rewrite source_app, keys_app. cbn.
      rewrite !app_nil_r, substring_from_drop, Hsrc, take_drop.
      split; [done |].
      split; [|split; [|done]]; apply Forall_app; (split; [done |]);
        (constructor; [|done]).
      + left. intros Hnil. apply (f_equal length) in Hnil.
        rewrite length_drop in Hnil. cbn in Hnil. lia.
      + rewrite <- (take_ge (drop lastIndex text) (length text - lastIndex))
          by (rewrite length_drop; lia).
        apply plain_mention_free; [lia | lia | exact Hnone].
    - apply Nat.ltb_ge in Hlt. rewrite Hsrc.
      split; [by rewrite take_ge by lia | done]. }
  destruct parts' as [|p ps] eqn:Hparts.
  - cbn in Hsrc'. subst text. cbn. split; [done |].
    split; [constructor; [by right | done] |].
    split; [|constructor].
    constructor; [|done]. intros a b Hab.
    symmetry in Hab. apply app_eq_nil in Hab as [_ ->]. done.
  - split; [done |]. split; [done |]. split; [done |].
    by rewrite Hkeys', Hkeys.
Qed.

End Rendering.

(** ** The sandbox badge *)

Section SandboxBadge.
Import App.


Lemma fetch_session_id polled a :
  session_id (fetchSandboxStatus polled a) = session_id a.
Proof.
  unfold fetchSandboxStatus.
  destruct (negb (ref_truthy (session_id a))); [done |]. by destruct polled.
Qed.

Lemma polls_app l1 l2 a : polls (l1 ++ l2) a = polls l2 (polls l1 a).
Proof. apply foldl_app. Qed.

Lemma polls_keep_warming answers a :
  ref_truthy (session_id a) = true →
  sandboxStatus a = Some WARMING →
  Forall (λ p, ∃ st, p = Some st ∧ SandboxStatus.status st ≠ "running") answers →
  sandboxStatus (polls answers a) = Some WARMING
  ∧ session_id (polls answers a) = session_id a.
Proof.
  intros Hid Hw Hall. revert a Hid Hw.
  induction Hall as [|p answers (st & -> & Hst) _ IH]; intros a Hid Hw; [done |].
  cbn [polls foldl]. fold (polls answers (fetchSandboxStatus (Some st) a)).
  assert (sandboxStatus (fetchSandboxStatus (Some st) a) = Some WARMING) as Hw'.
  { unfold fetchSandboxStatus. rewrite Hid. cbn. rewrite Hw. cbn.
    apply String.eqb_neq in Hst. by rewrite Hst. }
  destruct (IH (fetchSandboxStatus (Some st) a)) as [H1 H2];
    [by rewrite fetch_session_id | done |].
  split; [done |]. by rewrite H2, fetch_session_id.
Qed.

(** X13: once the session-change effect has seen a sandbox that is not
    running, the badge shows warming through every poll that answers with
    another status, and the first poll that answers running, or fails, is
    shown as it is; a warm-up that succeeded has marked the session. *)
Theorem warming_shown_until_running polled warmed quiet final a sid :
  session_id a = Some sid → truthy sid = true →
  is_status "running" polled = false →
  Forall (λ p, ∃ st, p = Some st ∧ SandboxStatus.status st ≠ "running") quiet →
  is_status "running" final = true ∨ final = None →
  let a1 := onSessionChange polled warmed a in
  sandboxStatus a1 = Some WARMING
  ∧ sandboxStatus (polls quiet a1) = Some WARMING
  ∧ sandboxStatus (polls (quiet ++ [final]) a1)
    = Some (default FETCH_FAILED final)
  ∧ (warmed = true → sid ∈ SessionHook.warmedSessions (hook a1)).
Proof.
  intros Hsid Htruthy Hpolled Hquiet Hfinal a1.
  assert (session_id a1 = Some sid) as Hsid1.
  { subst a1. unfold onSessionChange. rewrite Hsid, Htruthy, Hpolled.
    unfold session_id in *. cbn. unfold UseSession.triggerWarmup.
    by destruct (decide _). }
  assert (sandboxStatus a1 = Some WARMING) as Hw1.
  { subst a1. unfold onSessionChange. by rewrite Hsid, Htruthy, Hpolled. }
  assert (ref_truthy (session_id a1) = true) as Href by (by rewrite Hsid1).
  destruct (polls_keep_warming quiet a1 Href Hw1 Hquiet) as [Hw2 Hsid2].
  split; [done |]. split; [done |]. split.
  - rewrite polls_app. cbn. unfold fetchSandboxStatus.
    rewrite Hsid2, Href. cbn. destruct Hfinal as [Hrun | ->]; [|done].
    destruct final as [st|]; [|done]. cbn in Hrun. cbn.
    by rewrite Hw2, Hrun.
  - intros ->. subst a1. unfold onSessionChange.
    rewrite Hsid, Htruthy, Hpolled. cbn. unfold UseSession.triggerWarmup.
    destruct (decide _) as [Hin | Hnin]; [done |]. cbn.
    apply elem_of_union. right. by apply elem_of_singleton.
Qed.

End SandboxBadge.

Lemma warming_shown_until_running_witness :
  App.session_id (App.mk SessionHook.sample None) = Some "s1"
  ∧ truthy "s1" = true
  ∧ App.is_status "running" (Some (SandboxStatus.mk "not_found" None)) = false
  ∧ Forall (λ p, ∃ st, p = Some st ∧ SandboxStatus.status st ≠ "running")
           [Some (SandboxStatus.mk "not_found" None);
            Some (SandboxStatus.mk "terminated" None)]
  ∧ App.sandboxStatus
      (App.polls [Some (SandboxStatus.mk "not_found" None);
                  Some (SandboxStatus.mk "terminated" None)]
         (App.onSessionChange (Some (SandboxStatus.mk "not_found" None)) true
            (App.mk SessionHook.sample None)))
    = Some App.WARMING
  ∧ App.sandboxStatus
      (App.polls ([Some (SandboxStatus.mk "not_found" None);
                   Some (SandboxStatus.mk "terminated" None)]
                  ++ [Some (SandboxStatus.mk "running" None)])
         (App.onSessionChange (Some (SandboxStatus.mk "not_found" None)) true
            (App.mk SessionHook.sample None)))
    = Some (SandboxStatus.mk "running" None).
Proof.
  assert (Forall (λ p, ∃ st, p = Some st ∧ SandboxStatus.status st ≠ "running")
                 [Some (SandboxStatus.mk "not_found" None);
                  Some (SandboxStatus.mk "terminated" None)]) as Hquiet
    by (repeat constructor; eexists; (split; [reflexivity | discriminate])).
  split; [reflexivity |].
  split; [reflexivity |].
  split; [reflexivity |].
  split; [exact Hquiet |].
  destruct (warming_shown_until_running
              (Some (SandboxStatus.mk "not_found" None)) true
              [Some (SandboxStatus.mk "not_found" None);
               Some (SandboxStatus.mk "terminated" None)]
              (Some (SandboxStatus.mk "running" None))
              (App.mk SessionHook.sample None) "s1")
    as (_ & Hwarming & Hfinal & _);
    [reflexivity | reflexivity | reflexivity | exact Hquiet
    | left; reflexivity |].
  split; [exact Hwarming | exact Hfinal].
Defined.

(** ** The streamed text *)

Section StreamedText.
Import MentionInput StreamingText.


Lemma count_app f l1 l2 : count f (l1 ++ l2) = count f l1 + count f l2.
Proof. unfold count. by rewrite filter_app, length_app. Qed.

Lemma units_cons r start c l :
  imap (unit_at r start) (c :: l)
  = unit_at r start 0 c :: imap (unit_at r (S start)) l.
Proof.
  cbn. f_equal. apply imap_ext. intros i x _. unfold unit_at. cbn.
  by replace (start + S i) with (S (start + i)) by lia.
Qed.

Lemma units_shown r start l :
  concat (shown <$> imap (unit_at r start) l) = l.
Proof.
  revert start. induction l as [|c l IH]; intros start; [done |].
  rewrite units_cons. cbn. f_equal. apply IH.
Qed.

Lemma units_count r start l :
  count is_unit (imap (unit_at r start) l) = length l.
Proof.
  revert start. induction l as [|c l IH]; intros start; [done |].
  rewrite units_cons. specialize (IH (S start)). unfold count in *.
  rewrite filter_cons_True by done. cbn. by rewrite IH.
Qed.

Lemma units_animated r start l :
  count is_animated (imap (unit_at r start) l)
  ≤ (start + length l) - Nat.max start (r - 10).
Proof.
  revert start. induction l as [|c l IH]; intros start; [cbn; lia |].
  rewrite units_cons.
  specialize (IH (S start)). unfold count in *. cbn [length].
  destruct (decide (r - 10 ≤ start)) as [Hrecent | Hold].
  - rewrite filter_cons_True.
    2: { cbn. apply Nat.leb_le. lia. }
    cbn [length]. lia.
  - rewrite filter_cons_False.
    2: { cbn. intros H. apply Nat.leb_le in H. lia. }
    lia.
Qed.

(** X14: what [StreamingText] shows is the first [revealedCount] code units of
    the text; at most 50 of them are rendered as elements of their own and
    at most 10 of those are animated; the cursor is shown exactly while the
    message streams or text is still hidden. *)
Theorem StreamingText_shows_revealed_prefix text isStreaming revealedCount :
  let nodes := render text isStreaming revealedCount in
  concat (shown <$> nodes) = take revealedCount text
  ∧ count is_unit nodes ≤ 50
  ∧ count is_animated nodes ≤ 10
  ∧ (Cursor ∈ nodes ↔ isStreaming = true ∨ revealedCount < length text).
Proof.
  intros nodes. subst nodes. unfold render, MAX_ANIMATED_CHARS.
  set (start := revealedCount - 50).
  set (units := imap (unit_at revealedCount start)
                     (slice start revealedCount text)).
  set (head := if 0 <? start then [Revealed (slice 0 start text)] else []).
  set (tail := if isStreaming || (revealedCount <? length text)
               then [Cursor] else []).
  assert (concat (shown <$> head) = take start text
          ∧ count is_unit head = 0 ∧ count is_animated head = 0
          ∧ Cursor ∉ head) as (Hh1 & Hh2 & Hh3 & Hh4).
  { subst head. destruct (0 <? start) eqn:Hs.
    - unfold slice. cbn. rewrite app_nil_r, Nat.sub_0_r.
      repeat split; [done.. |]. by rewrite list_elem_of_singleton.
    - apply Nat.ltb_ge in Hs. replace start with 0 by lia.
      repeat split; [done.. |]. apply not_elem_of_nil. }
  assert (concat (shown <$> tail) = []
          ∧ count is_unit tail = 0 ∧ count is_animated tail = 0) as (Ht1 & Ht2 & Ht3).
  { subst tail. by destruct (_ || _). }
  assert (length (slice start revealedCount text) ≤ revealedCount - start)
    as Hlen by (unfold slice; rewrite length_take; lia).
  repeat split.
  - rewrite !fmap_app, !concat_app, Hh1, Ht1, app_nil_r.
    subst units. rewrite units_shown. unfold slice.
    rewrite take_take_drop. f_equal. lia.
  - rewrite !count_app, Hh2, Ht2. subst units. rewrite units_count. lia.
  - rewrite !count_app, Hh3, Ht3. subst units.
    pose proof (units_animated revealedCount start
                  (slice start revealedCount text)). lia.
  - intros Hin. apply elem_of_app in Hin as [Hin | Hin]; [done |].
    apply elem_of_app in Hin as [Hin | Hin].
    + subst units. apply list_elem_of_lookup in Hin as [i Hi].
      apply list_lookup_imap_Some in Hi as (c & _ & Hc). done.
    + subst tail. destruct isStreaming; [by left |].
      rewrite orb_false_l in Hin.
      destruct (revealedCount <? length text) eqn:Hlt;
        [apply Nat.ltb_lt in Hlt; by right |]. by apply elem_of_nil in Hin.
  - intros Hshow. apply elem_of_app. right. apply elem_of_app. right.
    subst tail. destruct Hshow as [-> | Hlt]; [apply list_elem_of_here |].
    apply Nat.ltb_lt in Hlt. rewrite Hlt, orb_true_r. apply list_elem_of_here.
Qed.

End StreamedText.
